(** * AI-Powered Excel Interview System: a verification development

    A shallow embedding of the interview front end (TypeScript/React) and of
    the parts of the interview engine described by the repository's
    documentation, with the properties proved about them.

    Layout: Part I holds the definitions, one module per source file or
    component; Part II holds the lemmas and theorems.

    Data model.
    - A JavaScript [number] is an IEEE-754 binary64 value: Rocq's primitive
      [float], whose comparisons and arithmetic are the IEEE ones.
    - A JavaScript string is a list of characters ([str]); string literals
      are written [lit "..."].  Characters are the 256 code points of Rocq's
      [ascii], read as Latin-1.
    - An optional property ([x?: T]) is an [option T]; [None] is [undefined].
    - Exceptions are explicit: a computation that can throw returns a sum. *)

From Stdlib Require Import Floats ZArith QArith Qround List Ascii String Bool Lia.
From Stdlib Require Import DecimalString Lqa.
From stdpp Require Import gmap strings.
Import ListNotations.

Local Open Scope string_scope.
Local Open Scope list_scope.

(* ================================================================== *)
(** * Part I: definitions                                              *)
(* ================================================================== *)

(** ** JavaScript values *)

Module JS.

(** A string as a list of characters. *)
Abbreviation str := (list ascii).

Definition lit (s : string) : str := list_ascii_of_string s.

(** White space of [String.prototype.trim] and of the regular-expression
    class [\s], among the Latin-1 code points: TAB, LF, VT, FF, CR, SPACE
    and NBSP. *)
Definition is_space (c : ascii) : bool :=
  match N_of_ascii c with
  | 9 | 10 | 11 | 12 | 13 | 32 | 160 => true
  | _ => false
  end%N.

Fixpoint drop_while (p : ascii -> bool) (s : str) : str :=
  match s with
  | [] => []
  | c :: s' => if p c then drop_while p s' else s
  end.

Fixpoint take_while (p : ascii -> bool) (s : str) : str :=
  match s with
  | [] => []
  | c :: s' => if p c then c :: take_while p s' else []
  end.

Definition trimStart (s : str) : str := drop_while is_space s.
Definition trimEnd (s : str) : str := rev (drop_while is_space (rev s)).

(** [s.trim()] *)
Definition trim (s : str) : str := trimEnd (trimStart s).

(** Stripping the characters of [p] on both sides: what [trim] does for
    white space. *)
Definition strip (p : ascii -> bool) (s : str) : str :=
  rev (drop_while p (rev (drop_while p s))).

(** [!s.trim()]: the string is empty or white space only. *)
Definition blank (s : string) : bool :=
  match trim (lit s) with
  | [] => true
  | _ => false
  end.

(** Decimal form of a non-negative integer, as a template literal prints
    it.  A number has no more decimal digits than bits ([log2 n + 1]),
    which bounds the loop. *)
Definition digit_char (d : N) : ascii := ascii_of_N (48 + d).

Fixpoint decimal_loop (fuel : nat) (n : N) (digits : str) : str :=
  match fuel with
  | O => digits
  | S fuel' =>
      let digits' := digit_char (n mod 10) :: digits in
      if (n <? 10)%N then digits' else decimal_loop fuel' (n / 10) digits'
  end.

Definition decimal (n : N) : str := decimal_loop (S (N.to_nat (N.log2 n))) n [].

(** [s.startsWith(l)] *)
Fixpoint is_prefix (l s : str) : bool :=
  match l, s with
  | [], _ => true
  | c :: l', d :: s' => Ascii.eqb c d && is_prefix l' s'
  | _ :: _, [] => false
  end.

(** [s.includes(l)] *)
Fixpoint occurs (l s : str) : bool :=
  is_prefix l s ||
  match s with
  | [] => false
  | _ :: s' => occurs l s'
  end.

(** The text of [s] before the first occurrence of [stop] (all of [s] when
    there is none). *)
Fixpoint until (stop s : str) : str :=
  match s with
  | [] => []
  | c :: s' => if is_prefix stop s then [] else c :: until stop s'
  end.

(** The rest of [s] from the first occurrence of [stop] on. *)
Fixpoint from (stop s : str) : str :=
  match s with
  | [] => []
  | c :: s' => if is_prefix stop s then s else from stop s'
  end.

(** [test] fails at every position of [a], read in front of [rest]. *)
Fixpoint nowhere (test : str -> bool) (a rest : str) : bool :=
  match a with
  | [] => true
  | _ :: a' => negb (test (a ++ rest)) && nowhere test a' rest
  end.

(** [x || d] for an optional number: [undefined], [0], [-0] and [NaN] are
    falsy. *)
Definition falsy_number (x : float) : bool :=
  (x =? 0)%float || PrimFloat.is_nan x.

Definition or_number (x : option float) (d : float) : float :=
  match x with
  | Some v => if falsy_number v then d else v
  | None => d
  end.

(** [x || d] for an optional string: [undefined] and [""] are falsy. *)
Definition or_string (x : option string) (d : string) : string :=
  match x with
  | Some "" => d
  | Some v => v
  | None => d
  end.

(** Truthiness of an optional boolean. *)
Definition truthy_bool (x : option bool) : bool :=
  match x with
  | Some b => b
  | None => false
  end.

(** A default parameter value ([f(x: number = d)]): used when the argument
    is [undefined]. *)
Definition default_arg {A} (x : option A) (d : A) : A :=
  match x with
  | Some v => v
  | None => d
  end.

End JS.

(** ** frontend/lib/api.ts *)

Module Api.

(** [class ApiError extends Error]: a status and a message. *)
Record ApiError := {
  status : N;
  message : string
}.

(** What the platform functions [fetch] and [Response.json] throw
    (a [TypeError] on a network failure, a [SyntaxError] on a body that is
    not JSON, an [AbortError], ...).  [ApiError] is a class of this module,
    so no platform exception is an instance of it. *)
Record PlatformError := {
  error_name : string;
  error_message : string
}.

(** A thrown value, with the [instanceof ApiError] test as the case
    analysis. *)
Inductive Thrown :=
| ThrownApiError (e : ApiError)
| ThrownOther (e : PlatformError).

(** A computation that returns an [A] or throws. *)
Definition Throws (A : Type) : Type := Thrown + A.

Definition ret {A} (a : A) : Throws A := inr a.
Definition throw {A} (e : Thrown) : Throws A := inl e.

Definition bind {A B} (m : Throws A) (k : A -> Throws B) : Throws B :=
  match m with
  | inl e => inl e
  | inr a => k a
  end.

(** A call of a platform function. *)
Definition platform {A} (r : PlatformError + A) : Throws A :=
  match r with
  | inl e => throw (ThrownOther e)
  | inr a => ret a
  end.

(** [try { body } catch (error) { handler }] *)
Definition try_catch {A} (body : Throws A) (handler : Thrown -> Throws A) : Throws A :=
  match body with
  | inl error => handler error
  | inr a => inr a
  end.

Notation "'do' x <- m ; k" := (bind m (fun x => k))
  (at level 10, x name, m at level 100, k at level 200).

Record RequestInit := {
  method : option string;
  body : option string;
  headers : option (list (string * string))
}.

Section Request.

(** The parsed JSON values. *)
Variable JSON : Type.

Record Response := {
  ok : bool;
  response_status : N;
  json : PlatformError + JSON       (* the outcome of [response.json()] *)
}.

(** [process.env.NEXT_PUBLIC_API_BASE_URL] and the platform's [fetch]. *)
Variable NEXT_PUBLIC_API_BASE_URL : option string.
Variable fetch : string -> RequestInit -> PlatformError + Response.

Definition API_BASE_URL : string :=
  JS.or_string NEXT_PUBLIC_API_BASE_URL "http://localhost:8000".

(** [{ headers: { "Content-Type": "application/json", ...options.headers },
      ...options }]: the spread of [options] comes last, so its own
    [headers], when it has them, are the ones kept. *)
Definition request_config (options : RequestInit) : RequestInit :=
  {| method := method options;
     body := body options;
     headers := match headers options with
                | Some h => Some h
                | None => Some [("Content-Type", "application/json")]
                end |}.

Definition request (endpoint : string) (options : RequestInit) : Throws JSON :=
  let url := API_BASE_URL +:+ endpoint in
  let config := request_config options in
  try_catch
    (do response <- platform (fetch url config);
     if negb (ok response) then
       throw (ThrownApiError
                {| status := response_status response;
                   message := "HTTP error! status: " +:+
                                string_of_list_ascii (JS.decimal (response_status response)) |})
     else
       platform (json response))
    (fun error =>
       match error with
       | ThrownApiError e => throw (ThrownApiError e)
       | ThrownOther _ =>
           throw (ThrownApiError
                    {| status := 0; message := "Network error or server unavailable" |})
       end).

Definition get (endpoint : string) : Throws JSON :=
  request endpoint {| method := Some "GET"; body := None; headers := None |}.

(** [post(endpoint, data)], with [data] already serialised by
    [JSON.stringify]. *)
Definition post (endpoint : string) (data : string) : Throws JSON :=
  request endpoint {| method := Some "POST"; body := Some data; headers := None |}.

(** [JSON.stringify] of an object whose fields are strings. *)
Variable stringify : list (string * string) -> string.

(** [conversationService.processInterviewStep] *)
Definition processInterviewStep (conversationId userResponse currentStep : string)
  : Throws JSON :=
  post "/process-interview-step"
       (stringify [ ("conversation_id", conversationId);
                    ("user_response", userResponse);
                    ("current_step", currentStep) ]).

(** [conversationService.getInterviewState] *)
Definition getInterviewState (conversationId : string) : Throws JSON :=
  get ("/interview-state/" +:+ conversationId).

End Request.

End Api.

(** ** frontend/components/score-chart.tsx *)

Module ScoreChart.

Definition getColor (score : float) : string :=
  if (8 <=? score)%float then "#10b981"        (* green *)
  else if (6 <=? score)%float then "#f59e0b"   (* yellow *)
  else if (4 <=? score)%float then "#f97316"   (* orange *)
  else "#ef4444".                              (* red *)

End ScoreChart.

(** ** frontend/components/interview-results.tsx: score bands *)

Module ScoreBands.

Definition getScoreColor (score : float) : string :=
  if (8 <=? score)%float then "text-green-600"
  else if (6 <=? score)%float then "text-yellow-600"
  else if (4 <=? score)%float then "text-orange-600"
  else "text-red-600".

Definition getScoreLabel (score : float) : string :=
  if (8 <=? score)%float then "Excellent"
  else if (6 <=? score)%float then "Good"
  else if (4 <=? score)%float then "Satisfactory"
  else "Needs Improvement".

(** The score lies in the closed interval from 0 to 10 (so it is not NaN). *)
Definition in_range (s : float) : Prop :=
  (0 <=? s)%float = true /\ (s <=? 10)%float = true.

End ScoreBands.

(** ** The interactive interview component: step table and progress *)

Module InteractiveInterview.

Record StepConfig := {
  name : string;
  icon : string;
  color : string
}.

(** The [stepConfig] object; a JavaScript object keeps its string keys in
    insertion order, so it is an association list. *)
Definition stepConfig : list (string * StepConfig) :=
  [ ("intro",     {| name := "Introduction"; icon := "MessageSquare"; color := "bg-blue-500" |});
    ("theory",    {| name := "Theory";       icon := "BookOpen";      color := "bg-green-500" |});
    ("practical", {| name := "Practical";    icon := "Target";        color := "bg-orange-500" |});
    ("advanced",  {| name := "Advanced";     icon := "Zap";           color := "bg-purple-500" |});
    ("advanced2", {| name := "Advanced";     icon := "Zap";           color := "bg-purple-500" |});
    ("advanced3", {| name := "Advanced";     icon := "Zap";           color := "bg-purple-500" |}) ].

Fixpoint lookup_key {A} (k : string) (l : list (string * A)) : option A :=
  match l with
  | [] => None
  | (k', v) :: rest => if String.eqb k k' then Some v else lookup_key k rest
  end.

Definition getStepName (stepName : string) : string :=
  match lookup_key stepName stepConfig with
  | None => "Interview"
  | Some config => name config
  end.

Definition getStepColor (stepName : string) : string :=
  match lookup_key stepName stepConfig with
  | None => "bg-blue-500"
  | Some config => color config
  end.

(** [getStepProgress(currentStepName, currentQuestion = 1, totalQuestions = 6)]. *)
Definition getStepProgress (currentStepName : string)
    (currentQuestion totalQuestions : option float) : float :=
  ((JS.default_arg currentQuestion 1 / JS.default_arg totalQuestions 6) * 100)%float.

(** The results object ([InterviewResultsProps.results]). *)
Record PropensityScore := {
  score : float;
  rationale : string;
  visual_indicator : string
}.

Record FinalResults := {
  company_name : string;
  report_date : string;
  propensity_score : PropensityScore;
  overall_summary : string
}.

(** The [evaluation] of the previous answer, of which the component reads
    the feedback. *)
Record StepEvaluation := {
  feedback : option string
}.

(** [interface InterviewStep]: the snapshot returned by the backend. *)
Record InterviewStep := {
  conversation_id : string;
  current_step : string;
  question : string;
  previous_response : option string;
  evaluation : option StepEvaluation;
  is_complete : bool;
  next_step : option string;
  total_questions : option float;
  current_question : option float;
  questions_remaining : option float;
  final_results : option FinalResults;
  human_approved : option bool;
  human_rejected : option bool;
  rejection_reason : option string;
  human_approval_bypassed : option bool
}.

Record Toast := {
  title : string;
  description : string;
  variant : string
}.

(** The component's state, and the notifications it has raised (latest
    first). *)
Record State := {
  currentStep : option InterviewStep;
  userResponse : string;
  isLoading : bool;
  isSubmitting : bool;
  interviewComplete : bool;
  finalResults : option FinalResults;
  toasts : list Toast
}.

Definition initialState : State :=
  {| currentStep := None; userResponse := ""; isLoading := false;
     isSubmitting := false; interviewComplete := false;
     finalResults := None; toasts := [] |}.

Definition setCurrentStep (v : option InterviewStep) (st : State) : State :=
  {| currentStep := v; userResponse := userResponse st; isLoading := isLoading st;
     isSubmitting := isSubmitting st; interviewComplete := interviewComplete st;
     finalResults := finalResults st; toasts := toasts st |}.

Definition setUserResponse (v : string) (st : State) : State :=
  {| currentStep := currentStep st; userResponse := v; isLoading := isLoading st;
     isSubmitting := isSubmitting st; interviewComplete := interviewComplete st;
     finalResults := finalResults st; toasts := toasts st |}.

Definition setIsSubmitting (v : bool) (st : State) : State :=
  {| currentStep := currentStep st; userResponse := userResponse st;
     isLoading := isLoading st; isSubmitting := v;
     interviewComplete := interviewComplete st;
     finalResults := finalResults st; toasts := toasts st |}.

Definition setInterviewComplete (v : bool) (st : State) : State :=
  {| currentStep := currentStep st; userResponse := userResponse st;
     isLoading := isLoading st; isSubmitting := isSubmitting st;
     interviewComplete := v;
     finalResults := finalResults st; toasts := toasts st |}.

Definition setFinalResults (v : option FinalResults) (st : State) : State :=
  {| currentStep := currentStep st; userResponse := userResponse st;
     isLoading := isLoading st; isSubmitting := isSubmitting st;
     interviewComplete := interviewComplete st;
     finalResults := v; toasts := toasts st |}.

Definition toast (t : Toast) (st : State) : State :=
  {| currentStep := currentStep st; userResponse := userResponse st;
     isLoading := isLoading st; isSubmitting := isSubmitting st;
     interviewComplete := interviewComplete st;
     finalResults := finalResults st; toasts := t :: toasts st |}.

(** The results used when the backend sent none; [now] is
    [new Date().toISOString()]. *)
Definition fallbackResults (now : string) : FinalResults :=
  {| company_name := "Excel Interview - Interactive";
     report_date := now;
     propensity_score :=
       {| score := 7.5;
          rationale := "Based on interactive interview responses";
          visual_indicator := "🟡 Good" |};
     overall_summary := "Interactive interview completed successfully." |}.

Definition rejectedToast (result : InterviewStep) : Toast :=
  {| title := "Evaluation Rejected";
     description :=
       JS.or_string (rejection_reason result)
                    "Human reviewer did not approve the evaluation.";
     variant := "destructive" |}.

Definition bypassedToast : Toast :=
  {| title := "Results Generated";
     description := "Results generated without human approval due to system error.";
     variant := "default" |}.

Definition approvedToast : Toast :=
  {| title := "Evaluation Approved";
     description := "Human reviewer approved the evaluation. Generating final results.";
     variant := "default" |}.

Definition submittedToast : Toast :=
  {| title := "Response Submitted!";
     description := "Moving to the next question.";
     variant := "default" |}.

Definition submitErrorToast : Toast :=
  {| title := "Error";
     description := "Failed to submit response. Please try again.";
     variant := "destructive" |}.

(** The [if (result.is_complete) ... else ...] of [handleSubmitResponse]. *)
Definition onStepResult (now : string) (result : InterviewStep) (st : State) : State :=
  if is_complete result then
    let st := setInterviewComplete true st in
    let st :=
      if JS.truthy_bool (human_rejected result) then toast (rejectedToast result) st
      else if JS.truthy_bool (human_approval_bypassed result) then toast bypassedToast st
      else toast approvedToast st in
    match final_results result with
    | Some results => setFinalResults (Some results) st
    | None => setFinalResults (Some (fallbackResults now)) st
    end
  else
    toast submittedToast (setUserResponse "" (setCurrentStep (Some result) st)).

Section Handlers.

Variable NEXT_PUBLIC_API_BASE_URL : option string.
Variable fetch : string -> Api.RequestInit -> Api.PlatformError + Api.Response InterviewStep.
Variable stringify : list (string * string) -> string.
Variable conversationId : string.

(** [handleSubmitResponse]; [now] is the clock reading the fallback uses. *)
Definition handleSubmitResponse (now : string) (st : State) : State :=
  match currentStep st with
  | None => st
  | Some step =>
      if JS.blank (userResponse st) then st
      else
        let st := setIsSubmitting true st in
        let st :=
          match Api.processInterviewStep InterviewStep NEXT_PUBLIC_API_BASE_URL fetch
                  stringify conversationId (userResponse st) (current_step step) with
          | inr result => onStepResult now result st
          | inl error => toast submitErrorToast st
          end in
        setIsSubmitting false st
  end.

End Handlers.

(** What the component renders. *)
Inductive View :=
| LoadingView
| ResultsView (results : FinalResults)
| StartErrorView
| QuestionView (step : InterviewStep) (progress : float) (total : float).

Definition render (st : State) : View :=
  if isLoading st then LoadingView
  else
    match interviewComplete st, finalResults st with
    | true, Some results => ResultsView results
    | _, _ =>
        match currentStep st with
        | None => StartErrorView
        | Some step =>
            QuestionView step
              (getStepProgress (current_step step)
                 (Some (JS.or_number (current_question step) 1))
                 (Some (JS.or_number (total_questions step) 6)))
              (JS.or_number (total_questions step) 6)
        end
    end.

(** The overall score a view shows: the results view passes
    [results.propensity_score.score] to the score chart and prints it. *)
Definition displayed_score (v : View) : option float :=
  match v with
  | ResultsView results => Some (score (propensity_score results))
  | _ => None
  end.

End InteractiveInterview.

(** ** The human-approval step (README.md, "LlamaIndex Workflow") *)

Module Approval.

Import JS.

(** A Python [str] is modelled on the Latin-1 code points.  [str.isspace]
    holds there for TAB, LF, VT, FF, CR, the separators FS, GS, RS and US,
    SPACE, NEL and NBSP. *)
Definition py_isspace (c : ascii) : bool :=
  match N_of_ascii c with
  | 9 | 10 | 11 | 12 | 13 | 28 | 29 | 30 | 31 | 32 | 133 | 160 => true
  | _ => false
  end%N.

(** [s.strip()] *)
Definition py_strip (s : str) : str :=
  rev (drop_while py_isspace (rev (drop_while py_isspace s))).

(** [str.lower] of one Latin-1 character: the letters A-Z and the accented
    capitals (all of 0xC0-0xDE but the multiplication sign) move up by 32. *)
Definition py_lower_char (c : ascii) : ascii :=
  let n := N_of_ascii c in
  if ((65 <=? n) && (n <=? 90))%N then ascii_of_N (n + 32)
  else if ((192 <=? n) && (n <=? 222) && negb (n =? 215))%N then ascii_of_N (n + 32)
  else c.

(** [s.lower()] *)
Definition py_lower (s : str) : str := map py_lower_char s.

(** [a == b] on strings. *)
Definition str_eqb (a b : str) : bool := bool_decide (a = b).

(** What [ctx.wait_for_event] raises when the signal source fails. *)
Record Fault := {
  fault_message : string
}.

(** [workflow_human_approval_step]: waits for the reviewer's event and
    returns [response_event.response.strip().lower() == "yes"]; a fault of
    the wait propagates. *)
Definition workflow_human_approval_step (wait_for_event : Fault + str)
  : Fault + bool :=
  match wait_for_event with
  | inl fault => inl fault
  | inr response => inr (str_eqb (py_lower (py_strip response)) (lit "yes"))
  end.

Inductive Outcome := approved | rejected | bypassed.

(** The [human_approval] record of a session. *)
Record HumanApproval := {
  approval : option bool;
  rejection_reason : option str;
  bypassed_flag : bool
}.

(** Modelled from the spec: the Approval Gate's [await_approval], the
    caller of [workflow_human_approval_step] in the backend service, which
    is not among the sources.  An approval event gives [approved] when the
    step says yes and [rejected] otherwise, with the reason taken from the
    event payload; a fault of the wait gives [bypassed], recorded with
    [bypassed = true] and no rejection reason. *)
Definition await_approval (wait_for_event : Fault + str) : Outcome * HumanApproval :=
  match workflow_human_approval_step wait_for_event, wait_for_event with
  | inr true, _ =>
      (approved, {| approval := Some true; rejection_reason := None; bypassed_flag := false |})
  | inr false, inr payload =>
      (rejected, {| approval := Some false; rejection_reason := Some payload;
                    bypassed_flag := false |})
  | _, _ =>
      (bypassed, {| approval := None; rejection_reason := None; bypassed_flag := true |})
  end.

(** The payloads that say yes: the letters y, e, s in either case, with
    white space around them. *)
Definition affirmative (payload : str) : Prop :=
  exists (l r : str) (y e s : ascii),
    payload = l ++ [y; e; s] ++ r /\
    forallb py_isspace l = true /\ forallb py_isspace r = true /\
    (y = "y"%char \/ y = "Y"%char) /\
    (e = "e"%char \/ e = "E"%char) /\
    (s = "s"%char \/ s = "S"%char).

End Approval.


(** ** The Step Sequencer *)

Module Sequencer.

(** The values of [current_step]. *)
Inductive Step :=
| intro | theory | practical | advanced | advanced2 | advanced3
| evaluating | awaiting_approval | complete | rejected.

#[global] Instance Step_eq_dec : EqDecision Step.
Proof. solve_decision. Defined.

(** The name of a step, as the snapshots and the [evaluations] map spell
    it. *)
Definition step_name (s : Step) : string :=
  match s with
  | intro => "intro"
  | theory => "theory"
  | practical => "practical"
  | advanced => "advanced"
  | advanced2 => "advanced2"
  | advanced3 => "advanced3"
  | evaluating => "evaluating"
  | awaiting_approval => "awaiting_approval"
  | complete => "complete"
  | rejected => "rejected"
  end.

(** The fixed ordered list of interview steps. *)
Definition STEPS : list Step :=
  [intro; theory; practical; advanced; advanced2; advanced3].

(** The element that follows [x] in [l], if any. *)
Fixpoint following {A} `{EqDecision A} (l : list A) (x : A) : option A :=
  match l with
  | [] => None
  | a :: rest => if decide (a = x) then head rest else following rest x
  end.

(** Modelled from the spec: [next_step], the sequencer of the backend
    workflow, which is not among the sources; it returns the step that
    follows [current_step] in the fixed list, or [None] after the last. *)
Definition next_step (current_step : Step) : option Step :=
  following STEPS current_step.

(** The steps reached from [s] by [n] calls of [next_step] at most,
    [s] included. *)
Fixpoint visit (n : nat) (s : Step) : list Step :=
  match n with
  | O => [s]
  | S n' =>
      match next_step s with
      | Some s' => s :: visit n' s'
      | None => [s]
      end
  end.

End Sequencer.

(** ** The summary text of the final report *)

Module Report.

Import JS.

(** One labelled section of the summary. *)
Record Section_ := {
  section_title : str;       (* the label, e.g. THEORY *)
  section_question : str;
  section_response : str;
  section_score : str;       (* the score as written, e.g. 8 or 8.5 *)
  section_feedback : str
}.

Definition nl : str := lit "
".

(** Modelled from the spec: the [overall_summary] narrative built by the
    backend's aggregator, which is not among the sources.  One labelled
    section per step, numbered from 1, with the fields in the fixed order
    Question / Your Response / Score / Feedback, then the aggregated
    strengths and improvements as dash bullets under [Strengths:] and
    [Areas for Improvement:].  The labels are the ones the presentation
    layer looks for. *)
Definition section_header (k : N) (s : Section_) : str :=
  decimal k ++ lit ". " ++ section_title s ++ lit ":".

Definition section_body (s : Section_) : str :=
  nl ++ lit "Question: " ++ section_question s ++
  nl ++ lit "Your Response: " ++ section_response s ++
  nl ++ lit "Score: " ++ section_score s ++ lit "/10" ++
  nl ++ lit "Feedback: " ++ section_feedback s ++ nl ++ nl.

Definition render_section (k : N) (s : Section_) : str :=
  section_header k s ++ section_body s.

Fixpoint render_sections (k : N) (l : list Section_) : str :=
  match l with
  | [] => []
  | s :: rest => render_section k s ++ render_sections (N.succ k) rest
  end.

Definition render_bullets (items : list str) : str :=
  concat (map (fun item => lit "- " ++ item ++ nl) items).

Definition render_lists (strengths improvements : list str) : str :=
  lit "Strengths:" ++ nl ++ render_bullets strengths ++ nl ++
  lit "Areas for Improvement:" ++ nl ++ render_bullets improvements.

(** Modelled from the spec: the whole [overall_summary], the sections
    followed by the two lists (built by the backend's aggregator, which is
    not among the sources). *)
Definition build_summary (sections : list Section_)
    (strengths improvements : list str) : str :=
  render_sections 1 sections ++ render_lists strengths improvements.

End Report.


(** ** The Evaluation Aggregator *)

Module Aggregator.

Import JS Sequencer.

Local Open Scope Q_scope.

(** A step's evaluation; scores are exact rationals between 0 and 10. *)
Record Evaluation := {
  score : Q;
  feedback : str;
  strengths : list str;
  improvements : list str
}.

Record QAPair := {
  qa_step : Step;
  question_text : str;
  answer_text : str;
  submitted_at : string
}.

Record PropensityScore := {
  propensity : Q;
  rationale : string;
  visual_indicator : string
}.

Record FinalResult := {
  propensity_score : PropensityScore;
  overall_summary : str;
  report_date : string
}.

Inductive Dimension :=
| theoretical_knowledge | practical_application | advanced_skills
| communication_problem_solving.

#[global] Instance Dimension_eq_dec : EqDecision Dimension.
Proof. solve_decision. Defined.

(** The fixed weighting scheme (README, "Skill Areas (Weighted)"). *)
Definition WEIGHTS : list (Dimension * Q) :=
  [ (theoretical_knowledge, 25 # 100);
    (practical_application, 40 # 100);
    (advanced_skills, 20 # 100);
    (communication_problem_solving, 15 # 100) ].

(** Modelled from the spec: each step feeds exactly one dimension (the
    introduction feeds communication, theory the theoretical knowledge,
    practical the practical application, the advanced variants the
    advanced skills); the backend's mapping is not among the sources. *)
Definition dimension_of (s : Step) : option Dimension :=
  match s with
  | intro => Some communication_problem_solving
  | theory => Some theoretical_knowledge
  | practical => Some practical_application
  | advanced | advanced2 | advanced3 => Some advanced_skills
  | _ => None
  end.

(** Modelled from the spec: the score bands of the visual indicator,
    highest first, as a table (the backend's is not among the sources;
    the front end hard-codes the same thresholds). *)
Definition BANDS : list (Q * string) :=
  [ (8, "Excellent"); (6, "Good"); (4, "Satisfactory") ]%string.

Definition visual_indicator_of (s : Q) : string :=
  match find (fun band => Qle_bool (fst band) s) BANDS with
  | Some band => snd band
  | None => "Needs Improvement"%string
  end.

Definition clamp (lo hi x : Q) : Q :=
  if Qlt_le_dec x lo then lo else if Qlt_le_dec hi x then hi else x.

(** Modelled from the spec: rounding to one decimal; the number of
    tenths nearest to [x], halves going up (the spec does not say which
    way a half goes). *)
Definition tenths (x : Q) : Z := Qfloor (x * 10 + (1 # 2)).

(** [x] rounded to one decimal. *)
Definition round1 (x : Q) : Q := tenths x # 10.


Inductive Error :=
| ValidationError | SessionNotFound | GenerationError | StorageError
| ConflictError | ProtocolViolation.

(** The title of a step's section in the summary. *)
Definition section_title_of (s : Step) : str :=
  match s with
  | intro => lit "INTRODUCTION"
  | theory => lit "THEORY"
  | practical => lit "PRACTICAL"
  | _ => lit "ADVANCED"
  end.

(** A score as the summary writes it: rounded to one decimal, without the
    decimal part when that is zero. *)
Definition score_text (s : Q) : str :=
  let t := Z.to_N (tenths s) in
  if (t mod 10 =? 0)%N then decimal (t / 10)
  else decimal (t / 10) ++ lit "." ++ decimal (t mod 10).


Section Aggregate.

(** How the scores of the steps that feed one dimension are combined into
    the dimension's score; the specification leaves it open (for a
    dimension fed by a single step the natural reading is that step's
    score, which [mean] gives). *)
Variable combine : list Q -> Q.

(** Modelled from the spec: the scores of the steps that feed dimension
    [d], in step order. *)
Definition scores_of (evaluations : gmap string Evaluation) (d : Dimension) : list Q :=
  omap (fun s =>
          if decide (dimension_of s = Some d)
          then score <$> evaluations !! step_name s
          else None)
       STEPS.

Definition dimension_score (evaluations : gmap string Evaluation) (d : Dimension) : Q :=
  combine (scores_of evaluations d).

Definition weighted_sum (evaluations : gmap string Evaluation) : Q :=
  fold_right (fun dw acc => snd dw * dimension_score evaluations (fst dw) + acc)
             0 WEIGHTS.

(** Every required step has its evaluation. *)
Definition complete_evaluations (evaluations : gmap string Evaluation) : bool :=
  forallb (fun s => bool_decide (is_Some (evaluations !! step_name s))) STEPS.

Definition section_of (evaluations : gmap string Evaluation) (qa : QAPair)
  : Report.Section_ :=
  {| Report.section_title := section_title_of (qa_step qa);
     Report.section_question := question_text qa;
     Report.section_response := answer_text qa;
     Report.section_score :=
       match evaluations !! step_name (qa_step qa) with
       | Some e => score_text (score e)
       | None => []
       end;
     Report.section_feedback :=
       match evaluations !! step_name (qa_step qa) with
       | Some e => feedback e
       | None => []
       end |}.

(** The strengths (or improvements) of all steps, in step order, without
    repetitions. *)
Definition collect (field : Evaluation -> list str)
    (evaluations : gmap string Evaluation) : list str :=
  remove_dups
    (concat (omap (fun s => field <$> evaluations !! step_name s) STEPS)).

(** Modelled from the spec: [aggregate], the backend's aggregator, which
    is not among the sources.  It fails with [ValidationError] when a
    required step has no evaluation; otherwise the score is the weighted
    sum of the four dimension scores, clamped to [0,10] and rounded to one
    decimal.  The question and answer texts of the summary come from the
    recorded pairs. *)
Definition aggregate (qa_pairs : list QAPair)
    (evaluations : gmap string Evaluation) (now : string) : Error + FinalResult :=
  if complete_evaluations evaluations then
    let s := round1 (clamp 0 10 (weighted_sum evaluations)) in
    inr {| propensity_score :=
             {| propensity := s;
                rationale := "Weighted sum of the four skill dimensions";
                visual_indicator := visual_indicator_of s |};
           overall_summary :=
             Report.build_summary (map (section_of evaluations) qa_pairs)
               (collect strengths evaluations) (collect improvements evaluations);
           report_date := now |}
  else inl ValidationError.

End Aggregate.

End Aggregator.


(** ** The Interview Session State Machine *)

Module Session.

Import JS Sequencer Aggregator.

Record CandidateInfo := {
  candidate_name : option string;
  experience_level : string
}.

Record Session := {
  conversation_id : string;
  current_step : Step;
  current_question_index : nat;
  total_questions : nat;
  candidate_info : CandidateInfo;
  question : str;                       (* the question now asked *)
  qa_pairs : list QAPair;
  evaluations : gmap string Evaluation;
  human_approval : option Approval.HumanApproval;
  final_results : option FinalResult
}.

(** The number of questions of an interview. *)
Definition TOTAL_QUESTIONS : nat := 6.

(** The response of [create_session]. *)
Record Created := {
  created_conversation_id : string;
  first_question : str;
  created_current_step : Step;
  created_total_questions : nat
}.

(** What the collaborators and the clock give to one transition. *)
Inductive Event :=
| Answer (step : Step) (answer_text : str)
         (generated_evaluation : option Evaluation)   (* [None]: generation failed *)
         (generated_question : option str)
         (now : string)
| Evaluate
| Approval (signal : Approval.Fault + str) (now : string).

Section Machine.

Variable combine : list Q -> Q.

(** Modelled from the spec: the session state machine of the backend
    service, which is not among the sources; its states and transitions
    are those of the specification's sections 3 and 4.4. *)
Definition create_session (conversation_id : string) (info : CandidateInfo)
    (first_question : str) : Session :=
  {| conversation_id := conversation_id;
     current_step := intro;
     current_question_index := 1;
     total_questions := TOTAL_QUESTIONS;
     candidate_info := info;
     question := first_question;
     qa_pairs := [];
     evaluations := ∅;
     human_approval := None;
     final_results := None |}.

Definition created (s : Session) : Created :=
  {| created_conversation_id := conversation_id s;
     first_question := question s;
     created_current_step := current_step s;
     created_total_questions := total_questions s |}.

(** Modelled from the spec: the transitions [step_k -> step_k+1] and
    [advanced3 -> evaluating] of the backend service, on a submitted
    answer; a submission for another step than the current one is a
    [ProtocolViolation] and a failed generation a [GenerationError], both
    without a change of state. *)
Definition record_answer (s : Session) (step : Step) (answer : str)
    (generated_evaluation : option Evaluation) (generated_question : option str)
    (now : string) : Error + Session :=
  if negb (bool_decide (current_step s ∈ STEPS)) || negb (bool_decide (step = current_step s))
  then inl ProtocolViolation
  else
    match generated_evaluation with
    | None => inl GenerationError
    | Some evaluation =>
        let qa := {| qa_step := step; question_text := question s;
                     answer_text := answer; submitted_at := now |} in
        match next_step step with
        | Some next =>
            match generated_question with
            | None => inl GenerationError
            | Some next_question =>
                inr {| conversation_id := conversation_id s;
                       current_step := next;
                       current_question_index := S (current_question_index s);
                       total_questions := total_questions s;
                       candidate_info := candidate_info s;
                       question := next_question;
                       qa_pairs := qa_pairs s ++ [qa];
                       evaluations := <[step_name step := evaluation]> (evaluations s);
                       human_approval := human_approval s;
                       final_results := final_results s |}
            end
        | None =>
            inr {| conversation_id := conversation_id s;
                   current_step := evaluating;
                   current_question_index := current_question_index s;
                   total_questions := total_questions s;
                   candidate_info := candidate_info s;
                   question := question s;
                   qa_pairs := qa_pairs s ++ [qa];
                   evaluations := <[step_name step := evaluation]> (evaluations s);
                   human_approval := human_approval s;
                   final_results := final_results s |}
        end
    end.

Definition with_step (s : Session) (step : Step)
    (approval : option Approval.HumanApproval) (results : option FinalResult) : Session :=
  {| conversation_id := conversation_id s;
     current_step := step;
     current_question_index := current_question_index s;
     total_questions := total_questions s;
     candidate_info := candidate_info s;
     question := question s;
     qa_pairs := qa_pairs s;
     evaluations := evaluations s;
     human_approval := approval;
     final_results := results |}.

(** Modelled from the spec: [evaluating -> awaiting_approval] of the
    backend service; the aggregator must accept the stored evaluations. *)
Definition evaluate (s : Session) : Error + Session :=
  if bool_decide (current_step s = evaluating) then
    if complete_evaluations (evaluations s)
    then inr (with_step s awaiting_approval (human_approval s) (final_results s))
    else inl ValidationError
  else inl ProtocolViolation.

(** Modelled from the spec: [awaiting_approval -> complete] of the
    backend service on approval or bypass, with the final results
    committed; [awaiting_approval -> rejected] otherwise, with the reason
    recorded and no results. *)
Definition resolve (s : Session) (signal : Approval.Fault + str) (now : string)
  : Error + Session :=
  if bool_decide (current_step s = awaiting_approval) then
    match Approval.await_approval signal with
    | (Approval.rejected, approval) =>
        inr (with_step s rejected (Some approval) None)
    | (_, approval) =>
        match aggregate combine (qa_pairs s) (evaluations s) now with
        | inr results => inr (with_step s complete (Some approval) (Some results))
        | inl e => inl e
        end
    end
  else inl ProtocolViolation.

Definition transition (s : Session) (e : Event) : Error + Session :=
  match e with
  | Answer step answer ev q now => record_answer s step answer ev q now
  | Evaluate => evaluate s
  | Approval signal now => resolve s signal now
  end.

(** Modelled from the spec: a failed transition leaves the session as it
    was. *)
Definition apply_event (s : Session) (e : Event) : Session :=
  match transition s e with
  | inr s' => s'
  | inl _ => s
  end.

Definition run (s : Session) (events : list Event) : Session :=
  fold_left apply_event events s.

End Machine.

(** What every transition preserves. *)
Record Invariant (s : Session) : Prop := {
  inv_total : total_questions s = TOTAL_QUESTIONS;
  inv_order : map qa_step (qa_pairs s) = take (length (qa_pairs s)) STEPS;
  inv_current :
    current_step s ∈ STEPS ->
    STEPS !! length (qa_pairs s) = Some (current_step s);
  inv_index :
    current_question_index s = Nat.min (S (length (qa_pairs s))) TOTAL_QUESTIONS;
  inv_bound : length (qa_pairs s) <= length STEPS
}.

End Session.


(** ** Regular expressions, as ECMAScript matches them *)

Module Regex.

Import JS.

(** The patterns of the component: literals, classes ([\s], [\d], [[A-Z\s&]],
    and [.] under the [s] flag), sequence, alternation, greedy and lazy
    repetition, one capturing group, look-ahead and the two anchors (no
    [m] flag).  [r+] is [r] followed by [r*], and [r?] is [(?:r|)]. *)
Inductive re :=
| Chr (c : ascii)
| Cls (p : ascii -> bool)
| Eps
| Seq (r1 r2 : re)
| Alt (r1 r2 : re)
| Star (greedy : bool) (r : re)
| Group (r : re)
| Look (r : re)
| Bos
| Eos.

(** The state of a match: the input not yet consumed and the text of the
    capturing group, if it has been closed. *)
Definition Result : Type := str * option str.
Definition Cont : Type := str -> option str -> option Result.

(** Repetition of [body], which is given its continuation.  An iteration
    that consumes nothing fails, as in the specification's RepeatMatcher,
    so the length of the input bounds the number of iterations: [fuel]
    starts as that length. *)
Fixpoint star_loop (greedy : bool)
    (body : str -> option str -> Cont -> option Result) (k : Cont)
    (fuel : nat) (s : str) (cap : option str) : option Result :=
  match fuel with
  | O => k s cap
  | S fuel' =>
      let again (_ : unit) :=
        body s cap (fun s' cap' =>
                      if (length s' <? length s)%nat
                      then star_loop greedy body k fuel' s' cap'
                      else None) in
      if greedy then
        match again tt with
        | Some result => Some result
        | None => k s cap
        end
      else
        match k s cap with
        | Some result => Some result
        | None => again tt
        end
  end.

(** The backtracking matcher, in continuation-passing style; [total] is
    the length of the whole input, which [^] compares with. *)
Fixpoint run (r : re) (total : nat) (s : str) (cap : option str) (k : Cont)
  : option Result :=
  match r with
  | Chr c =>
      match s with
      | c' :: s' => if Ascii.eqb c c' then k s' cap else None
      | [] => None
      end
  | Cls p =>
      match s with
      | c' :: s' => if p c' then k s' cap else None
      | [] => None
      end
  | Eps => k s cap
  | Seq r1 r2 => run r1 total s cap (fun s' cap' => run r2 total s' cap' k)
  | Alt r1 r2 =>
      match run r1 total s cap k with
      | Some result => Some result
      | None => run r2 total s cap k
      end
  | Star greedy r1 => star_loop greedy (run r1 total) k (length s) s cap
  | Group r1 =>
      run r1 total s cap
          (fun s' _ => k s' (Some (firstn (length s - length s') s)))
  | Look r1 =>
      match run r1 total s cap (fun s' cap' => Some (s', cap')) with
      | Some (_, cap') => k s cap'
      | None => None
      end
  | Bos => if (length s =? total)%nat then k s cap else None
  | Eos =>
      match s with
      | [] => k s cap
      | _ :: _ => None
      end
  end.

Definition accept : Cont := fun s cap => Some (s, cap).

(** A match of [r] that starts where [s] starts. *)
Definition match_at (r : re) (total : nat) (s : str) : option Result :=
  run r total s None accept.

(** The result of [RegExp.prototype.exec]: the text before the match, the
    match, the capture and the text after. *)
Record MatchResult := {
  before : str;
  matched : str;
  capture : option str;
  after : str
}.

(** The first position at which [r] matches; [pre] is the input already
    passed, reversed. *)
Fixpoint search (r : re) (total : nat) (pre : str) (s : str) : option MatchResult :=
  match match_at r total s with
  | Some (rest, cap) =>
      Some {| before := rev pre;
              matched := firstn (length s - length rest) s;
              capture := cap;
              after := rest |}
  | None =>
      match s with
      | [] => None
      | c :: s' => search r total (c :: pre) s'
      end
  end.

(** [s.match(r)] for a pattern without the [g] flag. *)
Definition exec (r : re) (s : str) : option MatchResult :=
  search r (length s) [] s.

(** [s.replace(r, '')] for a pattern without the [g] flag. *)
Definition remove_first (r : re) (s : str) : str :=
  match exec r s with
  | Some found => before found ++ after found
  | None => s
  end.

(** [s.split(r)] for a pattern with one capturing group: the pieces
    between the matches, each followed by the capture of the match that
    ends it ([None] is [undefined]).  [piece] is the text since the last
    split point; [skip] counts the characters of a match still to pass. *)
Fixpoint split_from (r : re) (total : nat) (piece : str) (skip : nat) (s : str)
  : list (option str) :=
  match skip, s with
  | S skip', _ :: s' => split_from r total piece skip' s'
  | S _, [] => [Some piece]
  | O, [] => [Some piece]
  | O, c :: s' =>
      match match_at r total s with
      | None => split_from r total (piece ++ [c]) 0 s'
      | Some (rest, cap) =>
          let n := (length s - length rest)%nat in
          match n, piece with
          | O, [] => split_from r total [c] 0 s'
          | O, _ :: _ => Some piece :: cap :: split_from r total [c] 0 s'
          | S n', _ => Some piece :: cap :: split_from r total [] n' s'
          end
      end
  end.

Definition split (r : re) (s : str) : list (option str) :=
  match s with
  | [] =>
      match match_at r 0 [] with
      | Some _ => []
      | None => [Some []]
      end
  | _ :: _ => split_from r (length s) [] 0 s
  end.

(** The pattern for a literal text. *)
Fixpoint Lit (l : str) : re :=
  match l with
  | [] => Eps
  | c :: l' => Seq (Chr c) (Lit l')
  end.

(** [r+], [r*], [r*?] and [r?] *)
Definition Plus (r : re) : re := Seq r (Star true r).
Definition Many (r : re) : re := Star true r.
Definition Lazy (r : re) : re := Star false r.
Definition Opt (r : re) : re := Alt r Eps.

Definition is_digit (c : ascii) : bool :=
  let n := N_of_ascii c in ((48 <=? n) && (n <=? 57))%N.

Definition is_upper (c : ascii) : bool :=
  let n := N_of_ascii c in ((65 <=? n) && (n <=? 90))%N.

Definition any_char (c : ascii) : bool := true.

Definition digit : re := Cls is_digit.        (* \d *)
Definition space : re := Cls is_space.        (* \s *)
Definition dot : re := Cls any_char.          (* . with the s flag *)

(** What the repetitions of the component's patterns come to: a greedy
    repetition of a class tries the longest run first and gives back one
    character at a time; a lazy [.*?] tries the continuation at each
    position in turn. *)
Fixpoint greedy_scan (p : ascii -> bool) (k : Cont) (cap : option str) (s : str)
  : option Result :=
  match s with
  | c :: s' =>
      if p c then
        match greedy_scan p k cap s' with
        | Some result => Some result
        | None => k s cap
        end
      else k s cap
  | [] => k s cap
  end.

Fixpoint lazy_scan (k : Cont) (cap : option str) (s : str) : option Result :=
  match k s cap with
  | Some result => Some result
  | None =>
      match s with
      | [] => None
      | _ :: s' => lazy_scan k cap s'
      end
  end.

(** The pattern has no [^]. *)
Fixpoint unanchored (r : re) : bool :=
  match r with
  | Bos => false
  | Seq r1 r2 | Alt r1 r2 => unanchored r1 && unanchored r2
  | Star _ r1 | Group r1 | Look r1 => unanchored r1
  | _ => true
  end.

(** [r] matches where [s] starts. *)
Definition matches (r : re) (total : nat) (s : str) : bool :=
  match match_at r total s with
  | Some _ => true
  | None => false
  end.

End Regex.


(** ** frontend/components/interview-results.tsx: [parseInterviewSummary] *)

Module InterviewResults.

Import JS Regex.

(** [[A-Z\s&]] *)
Definition upper_space_amp (c : ascii) : bool :=
  is_upper c || is_space c || Ascii.eqb c "&".

(** [/(\d+\.\s+[A-Z\s&]+:)/g], the separator of [summary.split]. *)
Definition header_re : re :=
  Group (Seq (Plus digit)
        (Seq (Chr ".")
        (Seq (Plus space)
        (Seq (Plus (Cls upper_space_amp))
             (Chr ":"))))).

(** [/^\d+\.\s+/] *)
Definition numbering_re : re :=
  Seq Bos (Seq (Plus digit) (Seq (Chr ".") (Plus space))).

(** [/label\s*(.*?)(?=stop|$)/s] *)
Definition field_re (label stop : str) : re :=
  Seq (Lit label)
  (Seq (Many space)
  (Seq (Group (Lazy dot))
       (Look (Alt (Lit stop) Eos)))).

(** [/Question:\s*(.*?)(?=Your Response:|$)/s] *)
Definition question_re : re := field_re (lit "Question:") (lit "Your Response:").

(** [/Your Response:\s*(.*?)(?=Score:|$)/s] *)
Definition response_re : re := field_re (lit "Your Response:") (lit "Score:").

(** [/Score:\s*(\d+)\/10/] *)
Definition score_re : re :=
  Seq (Lit (lit "Score:"))
  (Seq (Many space)
  (Seq (Group (Plus digit))
       (Lit (lit "/10")))).

(** [/Feedback:\s*(.*?)(?=\n|$)/s] *)
Definition feedback_re : re := field_re (lit "Feedback:") (lit "
").

(** [/label\s*(B)/s] where [B] is [(?:-.*?\n?)] repeated, greedily *)
Definition bullets_re (label : str) : re :=
  Seq (Lit label)
  (Seq (Many space)
       (Group (Many (Seq (Chr "-") (Seq (Lazy dot) (Opt (Chr "010"))))))).

(** [/Strengths:\s*(B)/s] *)
Definition strengths_re : re := bullets_re (lit "Strengths:").

(** [/Areas for Improvement:\s*(B)/s] *)
Definition improvements_re : re := bullets_re (lit "Areas for Improvement:").

(** [s.replace(c, '')] for a one-character string [c]: the first
    occurrence goes. *)
Fixpoint remove_char (c : ascii) (s : str) : str :=
  match s with
  | [] => []
  | d :: s' => if Ascii.eqb c d then s' else d :: remove_char c s'
  end.

(** [s.split(c)] for a one-character string [c]. *)
Fixpoint split_char (c : ascii) (piece : str) (s : str) : list str :=
  match s with
  | [] => [piece]
  | d :: s' =>
      if Ascii.eqb c d then piece :: split_char c [] s'
      else split_char c (piece ++ [d]) s'
  end.

(** [s.startsWith('-')] *)
Definition starts_with_dash (s : str) : bool :=
  match s with
  | c :: _ => Ascii.eqb c "-"
  | [] => false
  end.

Definition digit_value (c : ascii) : N := N_of_ascii c - 48.

(** [parseInt(s)] on the strings it is given here, a capture of [\d+] or
    ['0']: the value of the leading decimal digits.  (A number beyond
    2^53 would lose its low digits in JavaScript; scores are far from it.) *)
Definition value (digits : str) : N :=
  fold_left (fun acc c => (10 * acc + digit_value c)%N) digits 0%N.

Definition parseInt (s : str) : N := value (take_while is_digit s).

Record Question := {
  type : str;
  question : str;
  response : str;
  score : N;
  feedback : str
}.

Record ParsedInterviewData := {
  questions : list Question;
  strengths : list str;
  improvements : list str;
  overallScore : float
}.

(** [match?.[1]?.trim() || ''] *)
Definition captured_trim (found : option MatchResult) : str :=
  match found with
  | Some result =>
      match capture result with
      | Some text => trim text
      | None => []
      end
  | None => []
  end.

(** [match?.[1] || dflt] *)
Definition captured_or (found : option MatchResult) (dflt : str) : str :=
  match found with
  | Some result =>
      match capture result with
      | Some [] | None => dflt
      | Some text => text
      end
  | None => dflt
  end.

(** [questionSections[i]?.replace(/^\d+\.\s+/, '').replace(':', '') || ''] *)
Definition questionType_of (header : option str) : str :=
  match header with
  | Some text => remove_char ":" (remove_first numbering_re text)
  | None => []
  end.

(** One turn of the loop: the entry pushed for a header and its content,
    if any. *)
Definition parse_section (header : option str) (content : str) : option Question :=
  let questionType := questionType_of header in
  let questionMatch := exec question_re content in
  let responseMatch := exec response_re content in
  let scoreMatch := exec score_re content in
  let feedbackMatch := exec feedback_re content in
  match questionType, questionMatch with
  | _ :: _, Some _ =>
      Some {| type := questionType;
              question := captured_trim questionMatch;
              response := captured_trim responseMatch;
              score := parseInt (captured_or scoreMatch (lit "0"));
              feedback := captured_trim feedbackMatch |}
  | _, _ => None
  end.

(** [for (let i = 1; i < questionSections.length; i += 2)], on the
    elements from index [i] on; the content is
    [questionSections[i + 1] || '']. *)
Fixpoint parse_sections (sections : list (option str)) : list Question :=
  match sections with
  | [] => []
  | header :: rest =>
      let content :=
        match rest with
        | Some text :: _ => text
        | _ => []
        end in
      let found :=
        match parse_section header content with
        | Some q => [q]
        | None => []
        end in
      match rest with
      | [] => found
      | _ :: rest' => found ++ parse_sections rest'
      end
  end.

(** [captured.split('\n').filter(line => line.trim().startsWith('-'))
      .map(line => line.replace('-', '').trim())] *)
Definition bullet_items (captured : str) : list str :=
  map (fun line => trim (remove_char "-" line))
      (List.filter (fun line => starts_with_dash (trim line))
              (split_char "010" [] captured)).

Definition bullets_of (found : option MatchResult) : list str :=
  match found with
  | Some result =>
      match capture result with
      | Some text => bullet_items text
      | None => []
      end
  | None => []
  end.

(** [parseInterviewSummary(summary)]; [score] is the component's
    [propensity_score.score]. *)
Definition parseInterviewSummary (score : float) (summary : str)
  : ParsedInterviewData :=
  let questionSections := split header_re summary in
  {| questions := parse_sections (tl questionSections);
     strengths := bullets_of (exec strengths_re summary);
     improvements := bullets_of (exec improvements_re summary);
     overallScore := score |}.

End InterviewResults.


(** ** The summary contract between the aggregator and the results view *)

Module Contract.

Import JS Regex InterviewResults Report.

(** A title the header pattern accepts and the parser gives back: capitals,
    white space and ampersands, not starting with white space. *)
Definition good_title (title : str) : Prop :=
  forallb upper_space_amp title = true /\
  exists c rest, title = c :: rest /\ is_space c = false.

Definition no_newline (t : str) : bool :=
  forallb (fun x => negb (Ascii.eqb "010" x)) t.

(** The sections the parser reads back: trimmed texts that do not contain
    the labels of the fields after them, a feedback of one non-empty line,
    and a score written as an integer. *)
Record well_formed (s : Section_) : Prop := {
  wf_title : good_title (section_title s);
  wf_question : trim (section_question s) = section_question s;
  wf_response : trim (section_response s) = section_response s;
  wf_feedback : trim (section_feedback s) = section_feedback s;
  wf_feedback_nonempty : section_feedback s <> [];
  wf_feedback_line : no_newline (section_feedback s) = true;
  wf_question_labels :
    occurs (lit "Your Response:") (section_question s) = false /\
    occurs (lit "Score:") (section_question s) = false /\
    occurs (lit "Feedback:") (section_question s) = false;
  wf_response_labels :
    occurs (lit "Score:") (section_response s) = false /\
    occurs (lit "Feedback:") (section_response s) = false;
  wf_score :
    section_score s <> [] /\ forallb is_digit (section_score s) = true
}.

(** The header pattern matches in the summary at the section headers
    only: nowhere inside a section body, nor in the lists after the last
    section. *)
Fixpoint headers_only (k : N) (sections : list Section_) (tail : str) : bool :=
  match sections with
  | [] => nowhere (matches header_re 0) tail []
  | s :: rest =>
      nowhere (matches header_re 0) (section_body s)
              (render_sections (N.succ k) rest ++ tail)
      && headers_only (N.succ k) rest tail
  end.

(** What the parser is expected to give for a section. *)
Definition expected (s : Section_) : Question :=
  {| type := section_title s;
     question := section_question s;
     response := section_response s;
     score := value (section_score s);
     feedback := section_feedback s |}.

(** The pieces [summary.split] cuts a rendered summary into; [piece] is
    the text in front of the first header. *)
Fixpoint pieces (piece : str) (k : N) (sections : list Section_) (tail : str)
  : list (option str) :=
  match sections with
  | [] => [Some (piece ++ tail)]
  | s :: rest =>
      Some piece :: Some (section_header k s)
        :: pieces (section_body s) (N.succ k) rest tail
  end.

End Contract.


(** ** Sample data *)

Module Samples.

Import JS Report InteractiveInterview.

Definition intro_section : Section_ :=
  {| section_title := lit "INTRODUCTION";
     section_question := lit "Which Excel features do you use? E.g. cell A1. Or ranges?";
     section_response := lit "Daily: formulas such as =SUM(A1:A3), and pivot tables.";
     section_score := lit "8";
     section_feedback := lit "Clear and concrete." |}.

Definition theory_section : Section_ :=
  {| section_title := lit "THEORY";
     section_question := lit "What does VLOOKUP do?";
     section_response := lit "It looks a value up in the first column of a range.";
     section_score := lit "7";
     section_feedback := lit "Correct, if brief." |}.

(** The same section with its score written with one decimal. *)
Definition theory_section_decimal : Section_ :=
  {| section_title := lit "THEORY";
     section_question := lit "What does VLOOKUP do?";
     section_response := lit "It looks a value up in the first column of a range.";
     section_score := lit "7.5";
     section_feedback := lit "Correct, if brief." |}.

Definition sample_strengths : list str := [lit "Clear explanations"; lit "Formulas"].
Definition sample_improvements : list str := [lit "Macros"].

Definition sample_summary : str :=
  build_summary [intro_section; theory_section] sample_strengths sample_improvements.

Definition sample_summary_decimal : str :=
  build_summary [intro_section; theory_section_decimal]
    sample_strengths sample_improvements.


(** An interview at its last question, and the backend's answer when the
    reviewer rejects the evaluation. *)
Definition lastStep : InterviewStep :=
  {| conversation_id := "c-1"; current_step := "advanced3";
     question := "How would you automate a monthly report?";
     previous_response := None; evaluation := None; is_complete := false;
     next_step := None; total_questions := Some 6%float;
     current_question := Some 6%float; questions_remaining := Some 0%float;
     final_results := None; human_approved := None; human_rejected := None;
     rejection_reason := None; human_approval_bypassed := None |}.

Definition rejectedSnapshot : InterviewStep :=
  {| conversation_id := "c-1"; current_step := "rejected";
     question := ""; previous_response := Some "With a macro.";
     evaluation := None; is_complete := true;
     next_step := None; total_questions := Some 6%float;
     current_question := Some 6%float; questions_remaining := Some 0%float;
     final_results := None; human_approved := Some false;
     human_rejected := Some true;
     rejection_reason := Some "Scores are not supported by the answers.";
     human_approval_bypassed := None |}.

Definition answeringState : State :=
  {| currentStep := Some lastStep; userResponse := "With a macro.";
     isLoading := false; isSubmitting := false; interviewComplete := false;
     finalResults := None; toasts := [] |}.

Definition rejectingServer (url : string) (config : Api.RequestInit)
  : Api.PlatformError + Api.Response InterviewStep :=
  inr {| Api.ok := true; Api.response_status := 200; Api.json := inr rejectedSnapshot |}.

Definition afterRejection : State :=
  handleSubmitResponse None rejectingServer (fun _ => "{}") "c-1"
    "2025-01-01T00:00:00.000Z" answeringState.



End Samples.


(** ** What a pattern needs of the input *)

Module RegexAnalysis.

Import JS Regex.

(** The 256 characters. *)
Definition all_chars : list ascii := map ascii_of_nat (seq 0 256).

(** A sufficient test that [r] cannot match without meeting a character
    of [P]: in what it consumes or, for a look-ahead, in what follows. *)
Fixpoint needs (P : ascii -> bool) (r : re) : bool :=
  match r with
  | Chr c => P c
  | Cls q => forallb (fun c => implb (q c) (P c)) all_chars
  | Seq r1 r2 => needs P r1 || needs P r2
  | Alt r1 r2 => needs P r1 && needs P r2
  | Group r1 | Look r1 => needs P r1
  | Eps | Star _ _ | Bos | Eos => false
  end.

(** A sufficient test that [r] matches only where the input starts with
    a character of [P]. *)
Fixpoint starts (P : ascii -> bool) (r : re) : bool :=
  match r with
  | Chr c => P c
  | Cls q => forallb (fun c => implb (q c) (P c)) all_chars
  | Seq r1 _ => starts P r1
  | Alt r1 r2 => starts P r1 && starts P r2
  | Group r1 | Look r1 => starts P r1
  | Eps | Star _ _ | Bos | Eos => false
  end.

(** No character of [s] is in [P]. *)
Definition without (P : ascii -> bool) (s : str) : bool :=
  forallb (fun c => negb (P c)) s.

(** What the repeated group [(?:-.*?\n?)*] takes from the start of [s]:
    dashes, each with the line feed that follows it, if one does. *)
Fixpoint bullet_run (s : str) : str :=
  match s with
  | "-"%char :: s' =>
      match s' with
      | "010"%char :: s'' => "-"%char :: "010"%char :: bullet_run s''
      | _ => "-"%char :: bullet_run s'
      end
  | _ => []
  end.

Definition is_dash (c : ascii) : bool := Ascii.eqb c "-".

Definition dash_or_newline (c : ascii) : bool :=
  is_dash c || Ascii.eqb c "010".

Definition is_colon (c : ascii) : bool := Ascii.eqb c ":".

(** What follows a dash for the next round of the repeated group: the
    line feed after the dash is taken with it. *)
Definition after_dash (s : str) : str :=
  match s with
  | "010"%char :: s' => s'
  | _ => s
  end.

End RegexAnalysis.


(** ** frontend/components/interview-results.tsx: what the results view shows *)

Module ResultsView.

(** The badge under the score:
    [score >= 8 ? "default" : score >= 6 ? "secondary" : "destructive"]. *)
Definition badgeVariant (score : float) : string :=
  if (8 <=? score)%float then "default"
  else if (6 <=? score)%float then "secondary"
  else "destructive".

(** The headings of the cards of "Recommended Next Steps", in the order
    they are rendered: three guarded by the score, the last one always
    there. *)
Definition nextSteps (score : float) : list string :=
  (if (score <? 6)%float then ["Areas for Improvement"] else []) ++
  (if (6 <=? score)%float && (score <? 8)%float
   then ["Enhancement Opportunities"] else []) ++
  (if (8 <=? score)%float then ["Advanced Skills"] else []) ++
  ["Learning Resources"].

(** The advice that goes with a label of [getScoreLabel]. *)
Definition advice_for (label : string) : string :=
  if String.eqb label "Excellent" then "Advanced Skills"
  else if String.eqb label "Good" then "Enhancement Opportunities"
  else "Areas for Improvement".

End ResultsView.

(** ** frontend/lib/api.ts: [conversationService] *)

Module ConversationService.

Import Api.

Section Service.

Variable JSON : Type.
Variable NEXT_PUBLIC_API_BASE_URL : option string.
Variable fetch : string -> RequestInit -> PlatformError + Response JSON.
Variable stringify : list (string * string) -> string.

Definition createConversation (email : string) : Throws JSON :=
  post JSON NEXT_PUBLIC_API_BASE_URL fetch "/" (stringify [("email", email)]).

Definition startExcelInterview (conversationId userMessage : string) : Throws JSON :=
  post JSON NEXT_PUBLIC_API_BASE_URL fetch "/excel-interview"
       (stringify [ ("conversation_id", conversationId);
                    ("user_message", userMessage) ]).

Definition startInteractiveInterview (conversationId userMessage : string)
  : Throws JSON :=
  post JSON NEXT_PUBLIC_API_BASE_URL fetch "/start-interactive-interview"
       (stringify [ ("conversation_id", conversationId);
                    ("user_message", userMessage) ]).

Definition getConversations : Throws JSON :=
  get JSON NEXT_PUBLIC_API_BASE_URL fetch "/get_conversations".

Definition healthCheck : Throws JSON :=
  get JSON NEXT_PUBLIC_API_BASE_URL fetch "/server-check".

End Service.

End ConversationService.

(** ** The interactive interview component: its handlers as events *)

Module InterviewFlow.

Import InteractiveInterview.

Definition setIsLoading (v : bool) (st : State) : State :=
  {| currentStep := currentStep st; userResponse := userResponse st;
     isLoading := v; isSubmitting := isSubmitting st;
     interviewComplete := interviewComplete st;
     finalResults := finalResults st; toasts := toasts st |}.

Definition startedToast : Toast :=
  {| title := "Interview Started!";
     description := "Let's begin with your first question.";
     variant := "default" |}.

Definition startErrorToast : Toast :=
  {| title := "Error";
     description := "Failed to start interview. Please try again.";
     variant := "destructive" |}.

(** The backend as the component meets it at one request. *)
Definition Server : Type :=
  string -> Api.RequestInit -> Api.PlatformError + Api.Response InterviewStep.

(** The numbers of the progress card: [current_question || 1],
    [total_questions || 6] and [questions_remaining || 5]. *)
Definition questionShown (step : InterviewStep) : float :=
  JS.or_number (current_question step) 1.

Definition totalShown (step : InterviewStep) : float :=
  JS.or_number (total_questions step) 6.

Definition remainingShown (step : InterviewStep) : float :=
  JS.or_number (questions_remaining step) 5.

(** What every handler keeps: final results are held exactly when the
    interview is complete, and no request is pending. *)
Record Settled (st : State) : Prop := {
  results_when_complete : interviewComplete st = true <-> finalResults st <> None;
  not_loading : isLoading st = false;
  not_submitting : isSubmitting st = false
}.

Section Component.

Variable NEXT_PUBLIC_API_BASE_URL : option string.
Variable stringify : list (string * string) -> string.
Variable conversationId userMessage : string.

(** [startInterview], run once when the component is mounted. *)
Definition startInterview (fetch : Server) (st : State) : State :=
  let st := setIsLoading true st in
  let st :=
    match ConversationService.startInteractiveInterview InterviewStep
            NEXT_PUBLIC_API_BASE_URL fetch stringify conversationId userMessage with
    | inr result => toast startedToast (setCurrentStep (Some result) st)
    | inl error => toast startErrorToast st
    end in
  setIsLoading false st.

(** [handleKeyPress]: Enter without Shift submits. *)
Definition handleKeyPress (key : string) (shiftKey : bool) (fetch : Server)
    (now : string) (st : State) : State :=
  if String.eqb key "Enter" && negb shiftKey then
    handleSubmitResponse NEXT_PUBLIC_API_BASE_URL fetch stringify conversationId now st
  else st.

(** What happens to the component: it is mounted, the text area changes
    or gets a key, the Submit button is clicked.  An event that sends a
    request carries the backend's behaviour at that moment. *)
Inductive Event :=
| Mount (fetch : Server)
| Change (value : string)
| KeyPress (key : string) (shiftKey : bool) (fetch : Server) (now : string)
| Click (fetch : Server) (now : string).

Definition step (st : State) (e : Event) : State :=
  match e with
  | Mount fetch => startInterview fetch st
  | Change value => setUserResponse value st
  | KeyPress key shiftKey fetch now => handleKeyPress key shiftKey fetch now st
  | Click fetch now =>
      handleSubmitResponse NEXT_PUBLIC_API_BASE_URL fetch stringify conversationId now st
  end.

Definition run (events : list Event) (st : State) : State :=
  fold_left step events st.

End Component.

End InterviewFlow.


(** ** frontend/app/page.tsx: the home page *)

Module HomePage.

Import InteractiveInterview.

Record FormData := {
  name : string;
  email : string;
  experienceLevel : string;
  description : string
}.

Definition emptyForm : FormData :=
  {| name := ""; email := ""; experienceLevel := ""; description := "" |}.

Inductive Mode := simulated | interactive.

(** The reply of [createConversation], of which the page reads
    [conversation_id]. *)
Record Conversation := {
  conversation_id : option string
}.

(** The page's state; [conversationId] is [None] for [null] and for an
    [undefined] taken from a reply without the field. *)
Record State := {
  formData : FormData;
  isLoading : bool;
  results : option FinalResults;
  conversationId : option string;
  userMessage : string;
  interviewMode : option Mode;
  toasts : list Toast
}.

Definition initialState : State :=
  {| formData := emptyForm; isLoading := false; results := None;
     conversationId := None; userMessage := ""; interviewMode := None;
     toasts := [] |}.

Definition setFormData (v : FormData) (st : State) : State :=
  {| formData := v; isLoading := isLoading st; results := results st;
     conversationId := conversationId st; userMessage := userMessage st;
     interviewMode := interviewMode st; toasts := toasts st |}.

Definition setIsLoading (v : bool) (st : State) : State :=
  {| formData := formData st; isLoading := v; results := results st;
     conversationId := conversationId st; userMessage := userMessage st;
     interviewMode := interviewMode st; toasts := toasts st |}.

Definition setResults (v : option FinalResults) (st : State) : State :=
  {| formData := formData st; isLoading := isLoading st; results := v;
     conversationId := conversationId st; userMessage := userMessage st;
     interviewMode := interviewMode st; toasts := toasts st |}.

Definition setConversationId (v : option string) (st : State) : State :=
  {| formData := formData st; isLoading := isLoading st; results := results st;
     conversationId := v; userMessage := userMessage st;
     interviewMode := interviewMode st; toasts := toasts st |}.

Definition setUserMessage (v : string) (st : State) : State :=
  {| formData := formData st; isLoading := isLoading st; results := results st;
     conversationId := conversationId st; userMessage := v;
     interviewMode := interviewMode st; toasts := toasts st |}.

Definition setInterviewMode (v : option Mode) (st : State) : State :=
  {| formData := formData st; isLoading := isLoading st; results := results st;
     conversationId := conversationId st; userMessage := userMessage st;
     interviewMode := v; toasts := toasts st |}.

Definition toast (t : Toast) (st : State) : State :=
  {| formData := formData st; isLoading := isLoading st; results := results st;
     conversationId := conversationId st; userMessage := userMessage st;
     interviewMode := interviewMode st; toasts := t :: toasts st |}.

Definition validationToast : Toast :=
  {| title := "Validation Error";
     InteractiveInterview.description := "Please fill in all required fields";
     variant := "destructive" |}.

Definition startedToast : Toast :=
  {| title := "Interview Started!";
     InteractiveInterview.description :=
       "You'll be asked questions one by one. Please answer each question thoroughly.";
     variant := "default" |}.

Definition failedToast : Toast :=
  {| title := "Interview Failed";
     InteractiveInterview.description := "There was an error starting your interview. Please try again.";
     variant := "destructive" |}.

(** The template literal of [handleSubmit]. *)
Definition message (form : FormData) : string :=
  "Name: " +:+ JS.or_string (Some (name form)) "Not provided" +:+
  ", Experience Level: " +:+ experienceLevel form +:+
  ", Description: " +:+ description form.

(** [!s] for a string. *)
Definition empty (s : string) : bool := String.eqb s "".

(** The backend as the page meets it at one request. *)
Definition Server : Type :=
  string -> Api.RequestInit -> Api.PlatformError + Api.Response Conversation.

Section Page.

Variable NEXT_PUBLIC_API_BASE_URL : option string.
Variable stringify : list (string * string) -> string.

(** [handleSubmit], after [e.preventDefault()]. *)
Definition handleSubmit (fetch : Server) (st : State) : State :=
  let form := formData st in
  if empty (email form) || empty (experienceLevel form) || empty (description form)
  then toast validationToast st
  else
    let st := setIsLoading true st in
    let st :=
      match ConversationService.createConversation Conversation
              NEXT_PUBLIC_API_BASE_URL fetch stringify (email form) with
      | inr conversation =>
          let st := setConversationId (conversation_id conversation) st in
          let st := setUserMessage (message form) st in
          let st := setInterviewMode (Some interactive) st in
          toast startedToast st
      | inl error => toast failedToast st
      end in
    setIsLoading false st.

Definition resetInterview (st : State) : State :=
  setFormData emptyForm
    (setInterviewMode None
       (setUserMessage "" (setConversationId None (setResults None st)))).

(** What the page renders. *)
Inductive View :=
| LoadingView
| InterviewView (conversationId userMessage : string)
| ResultsView (results : FinalResults)
| FormView (form : FormData).

Definition render (st : State) : View :=
  if isLoading st then LoadingView
  else
    match interviewMode st, conversationId st with
    | Some interactive, Some id =>
        if negb (empty id) && negb (empty (userMessage st))
        then InterviewView id (userMessage st)
        else match results st with
             | Some r => ResultsView r
             | None => FormView (formData st)
             end
    | _, _ =>
        match results st with
        | Some r => ResultsView r
        | None => FormView (formData st)
        end
    end.

(** The events of the page: a field of the form changes, the form is
    submitted, or a child view calls [onRetry]. *)
Inductive Event :=
| SetName (value : string)
| SetEmail (value : string)
| SetExperienceLevel (value : string)
| SetDescription (value : string)
| Submit (fetch : Server)
| Retry.

Definition step (st : State) (e : Event) : State :=
  let form := formData st in
  match e with
  | SetName v =>
      setFormData {| name := v; email := email form;
                     experienceLevel := experienceLevel form;
                     description := description form |} st
  | SetEmail v =>
      setFormData {| name := name form; email := v;
                     experienceLevel := experienceLevel form;
                     description := description form |} st
  | SetExperienceLevel v =>
      setFormData {| name := name form; email := email form;
                     experienceLevel := v;
                     description := description form |} st
  | SetDescription v =>
      setFormData {| name := name form; email := email form;
                     experienceLevel := experienceLevel form;
                     description := v |} st
  | Submit fetch => handleSubmit fetch st
  | Retry => resetInterview st
  end.

Definition run (events : list Event) (st : State) : State :=
  fold_left step events st.

End Page.

End HomePage.


(** ** What a request brings back *)

Module Reply.

Import Api.

(** The parsed body of an ok response, when that is what [fetch] gave:
    the one case in which [api.request] returns. *)
Definition reply {JSON : Type} (r : PlatformError + Response JSON) : option JSON :=
  match r with
  | inr response =>
      if ok JSON response then
        match json JSON response with
        | inr parsed => Some parsed
        | inl _ => None
        end
      else None
  | inl _ => None
  end.

(** The request [api.post] hands to [fetch] for a serialised body. *)
Definition posted (data : string) : RequestInit :=
  {| method := Some "POST"; body := Some data;
     headers := Some [("Content-Type", "application/json")] |}.

End Reply.


(** ** frontend/app/page.tsx (history): the interview history page *)

Module HistoryPage.

Import JS.

(** [parts.join(sep)] *)
Fixpoint join (sep : str) (parts : list str) : str :=
  match parts with
  | [] => []
  | [part] => part
  | part :: rest => part ++ sep ++ join sep rest
  end.

Record Conversation := {
  conversation_id : string;
  email : string;
  created_at : string;
  status : string;
  interview_type : string;
  interview_completed : bool;
  message_count : N
}.

(** The status filter's test. *)
Definition matchesStatus (statusFilter : string) (conv : Conversation) : bool :=
  if String.eqb statusFilter "completed" then interview_completed conv
  else if String.eqb statusFilter "pending" then negb (interview_completed conv)
  else String.eqb (status conv) statusFilter.

Section Platform.

(** The platform's functions: [String.prototype.toLowerCase] (which is
    not a map over the characters: the lower case of a capital sigma
    depends on what stands around it), the clock
    ([new Date().getTime()]), the reading of a date string
    ([new Date(s).getTime()], NaN when [s] is no date), [Math.ceil] and
    [toLocaleDateString]. *)
Variable toLowerCase : str -> str.
Variable now : float.
Variable getTime : string -> float.
Variable ceil : float -> float.
Variable toLocaleDateString : string -> str.

(** The search filter's test:
    [email.toLowerCase().includes(term.toLowerCase()) ||
     conversation_id.toLowerCase().includes(term.toLowerCase())]. *)
Definition matchesSearch (searchTerm : string) (conv : Conversation) : bool :=
  occurs (toLowerCase (lit searchTerm)) (toLowerCase (lit (email conv))) ||
  occurs (toLowerCase (lit searchTerm)) (toLowerCase (lit (conversation_id conv))).

Definition diffDays (conv : Conversation) : float :=
  ceil ((now - getTime (created_at conv)) / (1000 * 60 * 60 * 24))%float.

(** The date filter's test. *)
Definition matchesDate (dateFilter : string) (conv : Conversation) : bool :=
  if String.eqb dateFilter "today" then (diffDays conv <=? 1)%float
  else if String.eqb dateFilter "week" then (diffDays conv <=? 7)%float
  else if String.eqb dateFilter "month" then (diffDays conv <=? 30)%float
  else true.

(** [filterConversations]: the list it hands to [setFilteredConversations]. *)
Definition filterConversations (conversations : list Conversation)
    (searchTerm statusFilter dateFilter : string) : list Conversation :=
  let filtered := conversations in
  let filtered :=
    if negb (String.eqb searchTerm "")
    then List.filter (matchesSearch searchTerm) filtered else filtered in
  let filtered :=
    if negb (String.eqb statusFilter "all")
    then List.filter (matchesStatus statusFilter) filtered else filtered in
  let filtered :=
    if negb (String.eqb dateFilter "all")
    then List.filter (matchesDate dateFilter) filtered else filtered in
  filtered.

(** The label of [getStatusBadge], also the status column of the export. *)
Definition statusLabel (conv : Conversation) : str :=
  if interview_completed conv then lit "Completed" else lit "Pending".

(** The cells of a line of the export. *)
Definition headerCells : list str :=
  [lit "Date"; lit "Email"; lit "Status"; lit "Type"; lit "Messages"].

Definition cells (conv : Conversation) : list str :=
  [ toLocaleDateString (created_at conv);
    lit (email conv);
    statusLabel conv;
    lit (interview_type conv);
    decimal (message_count conv) ].

(** [csvContent] of [exportHistory]. *)
Definition csvContent (filteredConversations : list Conversation) : str :=
  join (lit "
") (join (lit ",") headerCells
      :: map (fun conv => join (lit ",") (cells conv)) filteredConversations).

End Platform.

(** The character [c] is not in [s]. *)
Definition lacks (c : ascii) (s : str) : bool :=
  forallb (fun d => negb (Ascii.eqb c d)) s.

(** A cell that the export writes as it is and a reader gets back: no
    comma and no line feed in it. *)
Definition plain_cell (s : str) : bool :=
  forallb (fun c => negb (Ascii.eqb "," c) && negb (Ascii.eqb "010" c)) s.

End HistoryPage.


(** ** Sample conversations of the history page *)

Module HistorySamples.

Import HistoryPage.

Definition ada : Conversation :=
  {| conversation_id := "c-1"; email := "Ada@Example.org";
     created_at := "2025-01-01"; status := "active";
     interview_type := "excel"; interview_completed := true;
     message_count := 12 |}.

Definition bob : Conversation :=
  {| conversation_id := "c-2"; email := "bob@example.org";
     created_at := "2025-01-02"; status := "active";
     interview_type := "excel"; interview_completed := false;
     message_count := 3 |}.

(** A stand-in for [toLowerCase] in the examples: the letters A to Z
    move down by 32, which is what the platform does on ASCII text. *)
Definition ascii_lower (s : JS.str) : JS.str :=
  map (fun c => let n := N_of_ascii c in
                if ((65 <=? n) && (n <=? 90))%N then ascii_of_N (n + 32) else c) s.

End HistorySamples.


(** ** frontend/components/loading-state.tsx *)

Module LoadingState.

Record State := {
  progress : float;
  currentStep : nat          (* an index into [steps] *)
}.

(** The icons and texts of the three steps. *)
Definition steps : list (string * string) :=
  [ ("FileSpreadsheet", "Analyzing your Excel experience...");
    ("Brain", "AI is processing your skills...");
    ("CheckCircle", "Generating personalized feedback...") ].

Definition initialState : State := {| progress := 0; currentStep := 0 |}.

(** One turn of the interval timer: the updater given to [setProgress],
    with the [setCurrentStep] it makes on the way. *)
Definition tick (st : State) : State :=
  let newProgress := (progress st + 1)%float in
  {| currentStep :=
       if (newProgress <? 33)%float then 0
       else if (newProgress <? 66)%float then 1
       else 2;
     progress := if (100 <=? newProgress)%float then 100%float else newProgress |}.

(** The state after [n] turns of the timer. *)
Definition ticks (n : nat) : State := Nat.iter n tick initialState.

(** The number [n] as a binary64 value. *)
Definition number (n : nat) : float :=
  PrimFloat.of_uint63 (Uint63.of_Z (Z.of_nat n)).

End LoadingState.

(** ** frontend/components/header.tsx *)

Module Header.

(** [theme === "dark"], for the [theme] of [useTheme], which is
    [undefined] before the theme is known. *)
Definition is_dark (theme : option string) : bool :=
  match theme with
  | Some t => String.eqb t "dark"
  | None => false
  end.

(** The argument of [setTheme] in the two theme buttons. *)
Definition toggled (theme : option string) : string :=
  if is_dark theme then "light" else "dark".

(** The text of the theme button of the mobile menu. *)
Definition themeLabel (theme : option string) : string :=
  if is_dark theme then "Light Mode" else "Dark Mode".

Record State := {
  isMenuOpen : bool;
  mounted : bool;
  theme : option string
}.

Inductive Event :=
| Mounted                (* the effect that sets [mounted] *)
| MenuButton             (* [setIsMenuOpen(!isMenuOpen)] *)
| MobileLink             (* a link of the mobile menu: [setIsMenuOpen(false)] *)
| ThemeButton.           (* [setTheme(theme === "dark" ? "light" : "dark")] *)

Definition step (st : State) (e : Event) : State :=
  match e with
  | Mounted => {| isMenuOpen := isMenuOpen st; mounted := true; theme := theme st |}
  | MenuButton =>
      {| isMenuOpen := negb (isMenuOpen st); mounted := mounted st; theme := theme st |}
  | MobileLink => {| isMenuOpen := false; mounted := mounted st; theme := theme st |}
  | ThemeButton =>
      {| isMenuOpen := isMenuOpen st; mounted := mounted st;
         theme := Some (toggled (theme st)) |}
  end.

End Header.


(** ** The interactive interview component: [cleanMarkdownText] *)

Module Markdown.

Import JS Regex.

(** The line terminators among the Latin-1 code points: LF and CR.  The
    pattern [.] (without the [s] flag) matches every other character, and
    [^] under the [m] flag matches after one of them. *)
Definition is_line_terminator (c : ascii) : bool :=
  Ascii.eqb c "010" || Ascii.eqb c "013".

Definition dotline : re := Cls (fun c => negb (is_line_terminator c)).

(** [^] under the [m] flag, for the position that follows [prev]. *)
Definition at_line_start (prev : option ascii) : bool :=
  match prev with
  | None => true
  | Some c => is_line_terminator c
  end.

(** [s.replace(r, template)] for a pattern with the [g] flag: the matches
    are looked for from left to right, each from the end of the one
    before, and every match is replaced by [template] of its capture.
    [anchored] says that the pattern is [r] behind a [^] under the [m]
    flag, so that it is tried at line starts only; [prev] is the
    character in front of the position, [skip] counts the characters of a
    match still to pass.  After an empty match the search moves on by one
    character. *)
Fixpoint replace_from (r : re) (anchored : bool) (template : option str -> str)
    (total : nat) (prev : option ascii) (skip : nat) (s : str) : str :=
  let found (s : str) :=
    if negb anchored || at_line_start prev then match_at r total s else None in
  match skip, s with
  | S skip', c :: s' => replace_from r anchored template total (Some c) skip' s'
  | S _, [] => []
  | O, [] =>
      match found [] with
      | Some (_, cap) => template cap
      | None => []
      end
  | O, c :: s' =>
      match found s with
      | Some (rest, cap) =>
          template cap ++
          match (length s - length rest)%nat with
          | O => c :: replace_from r anchored template total (Some c) 0 s'
          | S n => replace_from r anchored template total (Some c) n s'
          end
      | None => c :: replace_from r anchored template total (Some c) 0 s'
      end
  end.

Definition replace_all (r : re) (anchored : bool) (template : option str -> str)
    (s : str) : str :=
  replace_from r anchored template (length s) None 0 s.

(** The replacement ['$1']: the text of the group. *)
Definition group1 (cap : option str) : str :=
  match cap with
  | Some text => text
  | None => []
  end.

(** A replacement without [$]: the text itself. *)
Definition text (t : str) (cap : option str) : str := t.

(** [/\*\*(.*?)\*\*/g] *)
Definition bold_re : re :=
  Seq (Lit (lit "**")) (Seq (Group (Lazy dotline)) (Lit (lit "**"))).

(** [/\*(.*?)\*/g] *)
Definition italic_re : re :=
  Seq (Chr "*") (Seq (Group (Lazy dotline)) (Chr "*")).

(** [/\[(.*?)\]\(.*?\)/g] *)
Definition link_re : re :=
  Seq (Chr "[") (Seq (Group (Lazy dotline))
    (Seq (Lit (lit "](")) (Seq (Lazy dotline) (Chr ")")))).

(** [/`(.*?)`/g] *)
Definition code_re : re :=
  Seq (Chr "`") (Seq (Group (Lazy dotline)) (Chr "`")).

(** [/^#+\s+/gm], without its [^] *)
Definition heading_re : re := Seq (Plus (Chr "#")) (Plus space).

(** [[-*+]] *)
Definition is_list_mark (c : ascii) : bool :=
  Ascii.eqb c "-" || Ascii.eqb c "*" || Ascii.eqb c "+".

(** [/^\s*[-*+]\s+/gm], without its [^] *)
Definition list_re : re :=
  Seq (Many space) (Seq (Cls is_list_mark) (Plus space)).

(** [/^\s*\d+\.\s+/gm], without its [^] *)
Definition numbered_re : re :=
  Seq (Many space) (Seq (Plus digit) (Seq (Chr ".") (Plus space))).

(** The replacement of a list mark, a bullet and a space.  The bullet
    (U+2022) is not a Latin-1 character: it stands here as the three
    bytes of its UTF-8 form, none of which is white space, a digit, a full
    stop or a line terminator, which is all that the steps after it ask
    of a character. *)
Definition bullet : str := lit "• ".

(** [cleanMarkdownText(text)]; the empty text is the falsy one. *)
Definition cleanMarkdownText (t : str) : str :=
  match t with
  | [] => []
  | _ =>
      trim
        (replace_all numbered_re true (text [])
        (replace_all list_re true (text bullet)
        (replace_all heading_re true (text [])
        (replace_all code_re false group1
        (replace_all link_re false group1
        (replace_all italic_re false group1
        (replace_all bold_re false group1 t)))))))
  end.

(** The character in front of the position reached after passing [a]. *)
Definition prev_after (a : str) (prev : option ascii) : option ascii :=
  fold_left (fun _ c => Some c) a prev.

(** The seven replacements of [cleanMarkdownText], in two parts. *)
Definition unwrap_bold (t : str) : str := replace_all bold_re false group1 t.

Definition later_replacements (t : str) : str :=
  replace_all numbered_re true (text [])
    (replace_all list_re true (text bullet)
    (replace_all heading_re true (text [])
    (replace_all code_re false group1
    (replace_all link_re false group1
    (replace_all italic_re false group1 t))))).

Definition is_star (c : ascii) : bool := Ascii.eqb c "*".

(** The marks of the patterns that come before the list pattern. *)
Definition is_inline_mark (c : ascii) : bool :=
  Ascii.eqb c "*" || Ascii.eqb c "`" || Ascii.eqb c "[" || Ascii.eqb c "#".

(** The characters without which no pattern after the bold one matches:
    the marks of emphasis, code, links, headings and lists, and the full
    stop of a numbered item. *)
Definition is_syntax (c : ascii) : bool :=
  Ascii.eqb c "*" || Ascii.eqb c "`" || Ascii.eqb c "[" || Ascii.eqb c "#" ||
  Ascii.eqb c "-" || Ascii.eqb c "+" || Ascii.eqb c ".".

Definition is_bracket (c : ascii) : bool := Ascii.eqb c "[".

(** [x] is the text of a link: one line without a closing bracket. *)
Definition link_text (x : str) : bool :=
  forallb (fun c => negb (is_line_terminator c) && negb (Ascii.eqb c "]")) x.

(** [u] is the target of a link: one line without an asterisk or a
    closing parenthesis. *)
Definition link_target (u : str) : bool :=
  forallb (fun c => negb (is_line_terminator c) && negb (Ascii.eqb c ")")
                    && negb (Ascii.eqb c "*")) u.

(** The characters the patterns of [cleanMarkdownText] start from: the
    marks of emphasis, code, links, headings and lists, and the digits. *)
Definition is_markup (c : ascii) : bool :=
  Ascii.eqb c "*" || Ascii.eqb c "`" || Ascii.eqb c "[" || Ascii.eqb c "#" ||
  Ascii.eqb c "-" || Ascii.eqb c "+" || is_digit c.

End Markdown.


(** ** The texts a pattern takes *)

Module RegexLanguage.

Import JS Regex InterviewResults.

(** The texts a pattern can take from the input, anchors and look-aheads
    aside (they take nothing): what a match consumes is one of them. *)
Inductive consumes : re -> str -> Prop :=
| consumes_Chr (c : ascii) : consumes (Chr c) [c]
| consumes_Cls (p : ascii -> bool) (c : ascii) : p c = true -> consumes (Cls p) [c]
| consumes_Eps : consumes Eps []
| consumes_Seq (r1 r2 : re) (m1 m2 : str) :
    consumes r1 m1 -> consumes r2 m2 -> consumes (Seq r1 r2) (m1 ++ m2)
| consumes_Alt_l (r1 r2 : re) (m : str) : consumes r1 m -> consumes (Alt r1 r2) m
| consumes_Alt_r (r1 r2 : re) (m : str) : consumes r2 m -> consumes (Alt r1 r2) m
| consumes_Star_nil (greedy : bool) (r : re) : consumes (Star greedy r) []
| consumes_Star_cons (greedy : bool) (r : re) (m1 m2 : str) :
    consumes r m1 -> consumes (Star greedy r) m2 ->
    consumes (Star greedy r) (m1 ++ m2)
| consumes_Group (r : re) (m : str) : consumes r m -> consumes (Group r) m
| consumes_Look (r : re) : consumes (Look r) []
| consumes_Bos : consumes Bos []
| consumes_Eos : consumes Eos [].

(** The text of a section header as the header pattern takes it: a
    number, a full stop, white space, a run of capitals, white space and
    [&], and a colon. *)
Definition header_text (h : str) : Prop :=
  exists number gap title,
    h = number ++ "."%char :: gap ++ title ++ [":"%char] /\
    number <> [] /\ forallb is_digit number = true /\
    gap <> [] /\ forallb is_space gap = true /\
    title <> [] /\ forallb upper_space_amp title = true.

(** A text between two positions of [whole]. *)
Definition part_of (whole t : str) : Prop :=
  exists pre post, whole = pre ++ t ++ post.

(** The shape of what [summary.split] returns: pieces of the summary
    with the header texts between them. *)
Inductive cut_at_headers (whole : str) : list (option str) -> Prop :=
| cut_last (piece : str) :
    part_of whole piece -> cut_at_headers whole [Some piece]
| cut_more (piece h : str) (rest : list (option str)) :
    part_of whole piece -> header_text h -> cut_at_headers whole rest ->
    cut_at_headers whole (Some piece :: Some h :: rest).

(** The type of a reported section: capitals, white space and [&], the
    first character not white space. *)
Definition section_type (t : str) : Prop :=
  forallb upper_space_amp t = true /\
  exists c t', t = c :: t' /\ is_space c = false.

End RegexLanguage.


(** ** Sections that quote a label *)

Module ScoreSamples.

Import JS Report.





End ScoreSamples.


(* ================================================================== *)
(** * Part II: lemmas and theorems                                     *)
(* ================================================================== *)

(** ** Comparisons of binary64 numbers *)

Module FloatOrder.

Import SpecFloat.

Lemma compare_cont_Eq (p q : positive) :
  PosDef.Pos.compare_cont Eq p q = (p ?= q)%positive.
Proof. reflexivity. Qed.

(** Case analysis on every comparison of exponents and mantissas in the
    goal. *)
Ltac lex_cases :=
  repeat match goal with
  | |- context [PosDef.Pos.compare_cont Eq ?a ?b] => rewrite (compare_cont_Eq a b)
  end;
  repeat match goal with
  | |- context [(?a ?= ?b)%Z] => destruct (Z.compare_spec a b)
  | |- context [(?a ?= ?b)%positive] => destruct (Pos.compare_spec a b)
  end;
  cbn; intros; subst; try congruence; try lia.

Lemma SFcompare_antisym (x y : spec_float) :
  SFcompare y x = option_map CompOpp (SFcompare x y).
Proof.
  destruct x as [ [|] | [|] | | [|] m1 e1 ], y as [ [|] | [|] | | [|] m2 e2 ];
    cbn; try reflexivity; f_equal; lex_cases.
Qed.

Lemma SFcompare_trans (x y z : spec_float) :
  SFcompare x y = Some Lt -> SFcompare y z = Some Lt -> SFcompare x z = Some Lt.
Proof.
  destruct x as [ [|] | [|] | | [|] m1 e1 ], y as [ [|] | [|] | | [|] m2 e2 ],
    z as [ [|] | [|] | | [|] m3 e3 ];
    cbn; try congruence; lex_cases.
Qed.

Lemma SFcompare_le_lt_trans (x y z : spec_float) :
  SFleb x y = true -> SFcompare y z = Some Lt -> SFcompare x z = Some Lt.
Proof.
  unfold SFleb.
  destruct x as [ [|] | [|] | | [|] m1 e1 ], y as [ [|] | [|] | | [|] m2 e2 ],
    z as [ [|] | [|] | | [|] m3 e3 ];
    cbn; try congruence; lex_cases.
Qed.

(** A number is comparable with whatever is not NaN. *)
Lemma SFcompare_total (c x y : spec_float) :
  SFcompare c x <> None -> y <> S754_nan -> SFcompare y x <> None.
Proof.
  destruct c, x, y; cbn; congruence.
Qed.

Lemma ltb_leb_false (x y : float) :
  (x <? y)%float = true -> (y <=? x)%float = false.
Proof.
  rewrite ltb_spec, leb_spec. unfold SFltb, SFleb.
  rewrite (SFcompare_antisym (Prim2SF x) (Prim2SF y)).
  destruct (SFcompare (Prim2SF x) (Prim2SF y)) as [ [| |] |]; cbn; congruence.
Qed.

Lemma ltb_trans (x y z : float) :
  (x <? y)%float = true -> (y <? z)%float = true -> (x <? z)%float = true.
Proof.
  rewrite !ltb_spec. unfold SFltb.
  destruct (SFcompare (Prim2SF x) (Prim2SF y)) as [ [| |] |] eqn:E1; try discriminate.
  destruct (SFcompare (Prim2SF y) (Prim2SF z)) as [ [| |] |] eqn:E2; try discriminate.
  intros _ _. now rewrite (SFcompare_trans _ _ _ E1 E2).
Qed.

(** On numbers that compare with [c0] (so are not NaN), [<=] and [<] are
    complementary. *)
Lemma leb_false_ltb (c0 c x : float) :
  (c0 <=? x)%float = true -> (c =? c)%float = true ->
  (c <=? x)%float = false -> (x <? c)%float = true.
Proof.
  rewrite !leb_spec, ltb_spec, FloatAxioms.eqb_spec. unfold SFleb, SFltb, SFeqb.
  rewrite (SFcompare_antisym (Prim2SF c) (Prim2SF x)).
  intros H0 Hc.
  assert (Hn : SFcompare (Prim2SF c) (Prim2SF x) <> None).
  { apply (SFcompare_total (Prim2SF c0)).
    - destruct (SFcompare (Prim2SF c0) (Prim2SF x)); congruence.
    - intros E. rewrite E in Hc. discriminate. }
  destruct (SFcompare (Prim2SF c) (Prim2SF x)) as [ [| |] |]; cbn; congruence.
Qed.

End FloatOrder.

(** ** Scanning strings *)

Module StrFacts.

Import JS.

Section Scan.

Variable p : ascii -> bool.

Lemma take_drop_while (s : str) : take_while p s ++ drop_while p s = s.
Proof.
  induction s as [|c s IH]; cbn; [reflexivity|].
  destruct (p c); cbn; [now rewrite IH | reflexivity].
Qed.

Lemma take_while_all (s : str) : forallb p (take_while p s) = true.
Proof.
  induction s as [|c s IH]; cbn; [reflexivity|].
  destruct (p c) eqn:E; cbn; [now rewrite E | reflexivity].
Qed.

Lemma drop_while_all_app (l s : str) :
  forallb p l = true -> drop_while p (l ++ s) = drop_while p s.
Proof.
  induction l as [|c l IH]; cbn; [reflexivity|].
  destruct (p c); cbn; [exact IH | discriminate].
Qed.

Lemma take_while_all_app (l s : str) :
  forallb p l = true -> take_while p (l ++ s) = l ++ take_while p s.
Proof.
  induction l as [|c l IH]; cbn; [reflexivity|].
  destruct (p c); cbn; [intros H; now rewrite IH | discriminate].
Qed.

Lemma drop_while_stop (c : ascii) (s : str) :
  p c = false -> drop_while p (c :: s) = c :: s.
Proof. cbn. now intros ->. Qed.

Lemma take_while_stop (c : ascii) (s : str) :
  p c = false -> take_while p (c :: s) = [].
Proof. cbn. now intros ->. Qed.

Lemma drop_while_head (s : str) (c : ascii) (s' : str) :
  drop_while p s = c :: s' -> p c = false.
Proof.
  induction s as [|d s IH]; cbn; [discriminate|].
  destruct (p d) eqn:E; [exact IH|]. now intros [= <- _].
Qed.

Lemma forallb_rev (l : str) : forallb p (rev l) = forallb p l.
Proof.
  induction l as [|c l IH]; cbn; [reflexivity|].
  rewrite forallb_app, IH. cbn. rewrite andb_true_r. apply andb_comm.
Qed.

Lemma strip_decompose (s : str) :
  exists l r, s = l ++ strip p s ++ r /\
              forallb p l = true /\ forallb p r = true.
Proof.
  exists (take_while p s), (rev (take_while p (rev (drop_while p s)))).
  split; [|split].
  - unfold strip. rewrite <- rev_app_distr, take_drop_while, rev_involutive.
    now rewrite take_drop_while.
  - apply take_while_all.
  - rewrite forallb_rev. apply take_while_all.
Qed.

Lemma drop_while_all (s : str) : forallb p s = true -> drop_while p s = [].
Proof.
  intros H. rewrite <- (app_nil_r s), drop_while_all_app by exact H. reflexivity.
Qed.

Lemma drop_while_keeps (s : str) :
  (forall c, hd_error s = Some c -> p c = false) -> drop_while p s = s.
Proof.
  destruct s as [|c s]; [reflexivity|]. intros H.
  apply drop_while_stop, H. reflexivity.
Qed.

(** A core that begins and ends with characters outside [p] is what
    stripping leaves. *)
Lemma strip_core (l r core : str) :
  forallb p l = true -> forallb p r = true ->
  (forall c, hd_error core = Some c -> p c = false) ->
  (forall c, hd_error (rev core) = Some c -> p c = false) ->
  strip p (l ++ core ++ r) = core.
Proof.
  intros Hl Hr Hfirst Hlast. unfold strip.
  rewrite drop_while_all_app by exact Hl.
  destruct core as [|c core].
  - cbn. rewrite (drop_while_all r Hr). reflexivity.
  - rewrite (drop_while_keeps ((c :: core) ++ r)).
    + rewrite rev_app_distr, drop_while_all_app by (now rewrite forallb_rev).
      rewrite (drop_while_keeps _ Hlast). apply rev_involutive.
    + intros d [= <-]. apply Hfirst. reflexivity.
Qed.

Lemma drop_while_app (a b : str) :
  drop_while p (a ++ b) =
  match drop_while p a with
  | [] => drop_while p b
  | c :: rest => (c :: rest) ++ b
  end.
Proof.
  induction a as [|c a IH]; cbn [app drop_while]; [now destruct (drop_while p b)|].
  destruct (p c); [exact IH | reflexivity].
Qed.

Lemma drop_while_idem (s : str) : drop_while p (drop_while p s) = drop_while p s.
Proof.
  apply drop_while_keeps. destruct (drop_while p s) as [|c s'] eqn:E; [discriminate|].
  intros d [= <-]. eapply drop_while_head. exact E.
Qed.

Lemma length_drop_while (s : str) : length (drop_while p s) <= length s.
Proof.
  induction s as [|c s IH]; cbn; [lia|]. destruct (p c); cbn; lia.
Qed.

Lemma take_while_all_id (s : str) : forallb p s = true -> take_while p s = s.
Proof.
  intros H. rewrite <- (app_nil_r s) at 1.
  rewrite take_while_all_app by exact H. cbn. apply app_nil_r.
Qed.

Lemma strip_drop_while (s : str) : strip p (drop_while p s) = strip p s.
Proof. unfold strip. now rewrite drop_while_idem. Qed.

Lemma strip_app_all (s r : str) : forallb p r = true -> strip p (s ++ r) = strip p s.
Proof.
  intros Hr. unfold strip. rewrite drop_while_app.
  destruct (drop_while p s) as [|c rest].
  - now rewrite (drop_while_all r Hr).
  - rewrite rev_app_distr, drop_while_all_app by (now rewrite forallb_rev).
    reflexivity.
Qed.

Lemma length_strip (s : str) : length (strip p s) <= length (drop_while p s).
Proof.
  unfold strip. rewrite length_rev.
  etransitivity; [apply length_drop_while|]. now rewrite length_rev.
Qed.

(** A text that stripping leaves alone does not begin with a character
    of [p]. *)
Lemma strip_fixed_head (c : ascii) (s : str) :
  strip p (c :: s) = c :: s -> p c = false.
Proof.
  intros H. destruct (p c) eqn:E; [|reflexivity]. exfalso.
  pose proof (length_strip (c :: s)) as L. rewrite H in L.
  cbn [drop_while] in L. rewrite E in L.
  pose proof (length_drop_while s). cbn in L. lia.
Qed.

End Scan.

End StrFacts.

(** ** Decimal numerals *)

Module DecimalFacts.

Import JS Regex InterviewResults StrFacts.

Local Open Scope N_scope.

Lemma digit_char_spec (d : N) :
  d < 10 -> is_digit (digit_char d) = true /\ digit_value (digit_char d) = d.
Proof.
  intros H.
  assert (C : d = 0 \/ d = 1 \/ d = 2 \/ d = 3 \/ d = 4 \/ d = 5 \/ d = 6 \/
              d = 7 \/ d = 8 \/ d = 9) by lia.
  repeat (destruct C as [-> | C]; [split; reflexivity|]). subst. split; reflexivity.
Qed.

Lemma decimal_loop_acc (fuel : nat) (n : N) (acc : str) :
  decimal_loop fuel n acc = decimal_loop fuel n [] ++ acc.
Proof.
  revert n acc. induction fuel as [|fuel IH]; intros n acc; cbn [decimal_loop]; [reflexivity|].
  destruct (n <? 10); [reflexivity|].
  rewrite (IH _ (_ :: acc)), (IH _ [_]), <- app_assoc. reflexivity.
Qed.

Lemma decimal_loop_step (fuel : nat) (n : N) :
  decimal_loop (S fuel) n [] =
  (if n <? 10 then [] else decimal_loop fuel (n / 10) []) ++ [digit_char (n mod 10)].
Proof.
  cbn [decimal_loop]. destruct (n <? 10); [reflexivity|]. apply decimal_loop_acc.
Qed.

Lemma decimal_loop_digits (fuel : nat) (n : N) :
  forallb is_digit (decimal_loop fuel n []) = true.
Proof.
  revert n. induction fuel as [|fuel IH]; intros n; [reflexivity|].
  rewrite decimal_loop_step, forallb_app. cbn [forallb].
  assert (Hd : n mod 10 < 10) by (apply N.mod_lt; lia).
  rewrite (proj1 (digit_char_spec _ Hd)).
  destruct (n <? 10); [reflexivity|]. now rewrite IH.
Qed.

Lemma value_snoc (digits : str) (c : ascii) :
  value (digits ++ [c]) = 10 * value digits + digit_value c.
Proof. unfold value. now rewrite fold_left_app. Qed.

Lemma decimal_loop_value (fuel : nat) (n : N) :
  n < 2 ^ N.of_nat fuel -> value (decimal_loop fuel n []) = n.
Proof.
  revert n. induction fuel as [|fuel IH]; intros n Hn.
  - cbn in Hn. cbn. lia.
  - rewrite decimal_loop_step, value_snoc.
    assert (Hd : n mod 10 < 10) by (apply N.mod_lt; lia).
    rewrite (proj2 (digit_char_spec _ Hd)).
    destruct (N.ltb_spec n 10) as [Hlt | Hge].
    + cbn. rewrite N.mod_small by exact Hlt. lia.
    + rewrite IH.
      * pose proof (N.div_mod n 10 ltac:(lia)). lia.
      * rewrite Nat2N.inj_succ, N.pow_succ_r' in Hn.
        apply N.Div0.div_lt_upper_bound. lia.
Qed.

Lemma decimal_bound (n : N) : n < 2 ^ N.of_nat (S (N.to_nat (N.log2 n))).
Proof.
  rewrite Nat2N.inj_succ, N2Nat.id.
  destruct (N.eq_dec n 0) as [-> | Hn]; [reflexivity|].
  apply N.log2_spec. lia.
Qed.

Lemma decimal_digits (n : N) : forallb is_digit (decimal n) = true.
Proof. apply decimal_loop_digits. Qed.

Lemma decimal_nonempty (n : N) : decimal n <> [].
Proof.
  unfold decimal. rewrite decimal_loop_step. intros E.
  apply (f_equal (@length ascii)) in E. rewrite length_app in E. cbn in E. lia.
Qed.

(** Reading back a printed number. *)
Lemma parseInt_decimal (n : N) : parseInt (decimal n) = n.
Proof.
  unfold parseInt. rewrite (take_while_all_id _ _ (decimal_digits n)).
  apply (decimal_loop_value _ _ (decimal_bound n)).
Qed.

End DecimalFacts.

(** ** The approval step *)

Module ApprovalFacts.

Import JS Approval StrFacts.

Lemma py_strip_is_strip (s : str) : py_strip s = strip py_isspace s.
Proof. reflexivity. Qed.

Lemma lower_char_y (c : ascii) :
  py_lower_char c = "y"%char <-> c = "y"%char \/ c = "Y"%char.
Proof.
  split.
  - destruct c as [[] [] [] [] [] [] [] []]; vm_compute; intros H;
      try discriminate H; auto.
  - intros [-> | ->]; reflexivity.
Qed.

Lemma lower_char_e (c : ascii) :
  py_lower_char c = "e"%char <-> c = "e"%char \/ c = "E"%char.
Proof.
  split.
  - destruct c as [[] [] [] [] [] [] [] []]; vm_compute; intros H;
      try discriminate H; auto.
  - intros [-> | ->]; reflexivity.
Qed.

Lemma lower_char_s (c : ascii) :
  py_lower_char c = "s"%char <-> c = "s"%char \/ c = "S"%char.
Proof.
  split.
  - destruct c as [[] [] [] [] [] [] [] []]; vm_compute; intros H;
      try discriminate H; auto.
  - intros [-> | ->]; reflexivity.
Qed.

(** The strings that [lower] sends to "yes". *)
Lemma lower_yes (core : str) :
  py_lower core = lit "yes" <->
  exists y e s, core = [y; e; s] /\
    (y = "y"%char \/ y = "Y"%char) /\
    (e = "e"%char \/ e = "E"%char) /\
    (s = "s"%char \/ s = "S"%char).
Proof.
  split.
  - destruct core as [|y [|e [|s [|]]]]; try discriminate.
    cbn. intros [= Hy He Hs]. exists y, e, s.
    rewrite <- lower_char_y, <- lower_char_e, <- lower_char_s. auto.
  - intros (y & e & s & -> & Hy & He & Hs).
    apply lower_char_y in Hy. apply lower_char_e in He. apply lower_char_s in Hs.
    cbn. now rewrite Hy, He, Hs.
Qed.

(** The answer is yes exactly on the affirmative payloads. *)
Lemma yes_iff_affirmative (payload : str) :
  py_lower (py_strip payload) = lit "yes" <-> affirmative payload.
Proof.
  rewrite lower_yes, py_strip_is_strip. split.
  - intros (y & e & s & Hcore & Hy & He & Hs).
    destruct (strip_decompose py_isspace payload) as (l & r & Hp & Hl & Hr).
    rewrite Hcore in Hp. now exists l, r, y, e, s.
  - intros (l & r & y & e & s & -> & Hl & Hr & Hy & He & Hs).
    exists y, e, s. split; [|auto].
    apply strip_core; auto.
    + intros c [= <-]. destruct Hy as [-> | ->]; reflexivity.
    + intros c [= <-]. destruct Hs as [-> | ->]; reflexivity.
Qed.

(** C4. The gate approves exactly when the trimmed, lower-cased payload
    is "yes", that is on the payloads that spell yes in either case with
    white space around; every other payload is rejected, with the payload
    kept as the reason; a fault of the signal source is a bypass, recorded
    with [bypassed = true] and no rejection reason. *)
Theorem approval_gate_outcome :
  (forall payload : str,
     fst (await_approval (inr payload)) = approved <->
     py_lower (py_strip payload) = lit "yes") /\
  (forall payload : str,
     fst (await_approval (inr payload)) = approved <-> affirmative payload) /\
  (forall payload : str,
     py_lower (py_strip payload) <> lit "yes" ->
     await_approval (inr payload) =
       (rejected, {| approval := Some false; rejection_reason := Some payload;
                     bypassed_flag := false |})) /\
  (forall fault : Fault,
     await_approval (inl fault) =
       (bypassed, {| approval := None; rejection_reason := None;
                     bypassed_flag := true |})).
Proof.
  assert (A : forall payload : str,
             fst (await_approval (inr payload)) = approved <->
             py_lower (py_strip payload) = lit "yes").
  { intros payload. unfold await_approval, workflow_human_approval_step, str_eqb.
    destruct (bool_decide_reflect (py_lower (py_strip payload) = lit "yes"));
      cbn; split; intros; try discriminate; tauto. }
  split; [exact A|]. split; [|split].
  - intros payload. rewrite A. apply yes_iff_affirmative.
  - intros payload H. unfold await_approval, workflow_human_approval_step, str_eqb.
    destruct (bool_decide_reflect (py_lower (py_strip payload) = lit "yes"));
      [contradiction | reflexivity].
  - reflexivity.
Qed.

(** Two payloads through the gate. *)
Example approval_examples :
  fst (await_approval (inr (lit "  YES
"))) = approved /\
  fst (await_approval (inr (lit "yes please"))) = rejected.
Proof. split; reflexivity. Qed.

End ApprovalFacts.
(** ** Score bands (interview-results.tsx, score-chart.tsx) *)

Module ScoreBandsFacts.

Import ScoreBands ScoreChart FloatOrder.

(** Below a threshold [c] means not at or above any threshold [d >= c]. *)
Lemma below_excludes (c d s : float) :
  (c <? d)%float = true \/ c = d ->
  (s <? c)%float = true -> (d <=? s)%float = false.
Proof.
  intros [Hcd | ->] Hs.
  - apply ltb_leb_false. exact (ltb_trans _ _ _ Hs Hcd).
  - now apply ltb_leb_false.
Qed.

(** The facts about the three thresholds that the band proofs use. *)
Lemma threshold_facts (s : float) :
  (0 <=? s)%float = true ->
  ((s <? 8)%float = negb (8 <=? s)%float) /\
  ((s <? 6)%float = negb (6 <=? s)%float) /\
  ((s <? 4)%float = negb (4 <=? s)%float) /\
  ((8 <=? s)%float = true -> (6 <=? s)%float = true) /\
  ((6 <=? s)%float = true -> (4 <=? s)%float = true).
Proof.
  intros H0.
  assert (T : forall c, (c =? c)%float = true ->
                        (s <? c)%float = negb (c <=? s)%float).
  { intros c Hc. destruct (c <=? s)%float eqn:E; cbn.
    - destruct (s <? c)%float eqn:E'; [|reflexivity].
      rewrite (below_excludes c c s (or_intror eq_refl) E') in E. discriminate.
    - exact (leb_false_ltb 0 c s H0 Hc E). }
  repeat split; try (apply T; reflexivity).
  - intros H8. destruct (6 <=? s)%float eqn:E; [reflexivity|].
    assert (L : (s <? 6)%float = true) by (rewrite T, E; reflexivity).
    rewrite (below_excludes 6 8 s (or_introl eq_refl) L) in H8. discriminate.
  - intros H6. destruct (4 <=? s)%float eqn:E; [reflexivity|].
    assert (L : (s <? 4)%float = true) by (rewrite T, E; reflexivity).
    rewrite (below_excludes 4 6 s (or_introl eq_refl) L) in H6. discriminate.
Qed.

(** C2. For every score [s] between 0 and 10 the label is fixed by the
    bands: [s >= 8] gives "Excellent", [6 <= s < 8] gives "Good",
    [4 <= s < 6] gives "Satisfactory" and [s < 4] gives "Needs Improvement"
    (and the label is given in no other case); [getColor] of the score chart
    switches at the same thresholds 8, 6 and 4. *)
Theorem score_bands (s : float) :
  in_range s ->
  (getScoreLabel s = "Excellent" <-> (8 <=? s)%float = true) /\
  (getScoreLabel s = "Good" <-> (6 <=? s)%float = true /\ (s <? 8)%float = true) /\
  (getScoreLabel s = "Satisfactory" <-> (4 <=? s)%float = true /\ (s <? 6)%float = true) /\
  (getScoreLabel s = "Needs Improvement" <-> (s <? 4)%float = true) /\
  (getColor s = "#10b981" <-> (8 <=? s)%float = true) /\
  (getColor s = "#f59e0b" <-> (6 <=? s)%float = true /\ (s <? 8)%float = true) /\
  (getColor s = "#f97316" <-> (4 <=? s)%float = true /\ (s <? 6)%float = true) /\
  (getColor s = "#ef4444" <-> (s <? 4)%float = true).
Proof.
  intros [H0 _].
  destruct (threshold_facts s H0) as (L8 & L6 & L4 & M86 & M64).
  unfold getScoreLabel, getColor. rewrite L8, L6, L4.
  destruct (8 <=? s)%float, (6 <=? s)%float, (4 <=? s)%float; cbn;
    repeat split; intros; try discriminate; try reflexivity;
    repeat match goal with
    | H : _ /\ _ |- _ => destruct H
    | H : true = true -> _ |- _ => specialize (H eq_refl)
    end; try discriminate.
Qed.

(** The band theorem at the score 7.5 of the fallback results. *)
Lemma score_bands_witness :
  in_range 7.5 /\ getScoreLabel 7.5 = "Good" /\ getColor 7.5 = "#f59e0b".
Proof.
  assert (R : in_range 7.5) by (split; reflexivity).
  split; [exact R|].
  destruct (score_bands 7.5 R) as (_ & G & _ & _ & _ & Y & _).
  split; [apply G | apply Y]; split; reflexivity.
Defined.

End ScoreBandsFacts.

(** ** The API client (api.ts) *)

Module ApiFacts.

Import Api.

Section Request.

Variable JSON : Type.
Variable base : option string.
Variable fetch : string -> RequestInit -> PlatformError + Response JSON.

Let url (endpoint : string) : string := API_BASE_URL base +:+ endpoint.

(** The three ways a request can go, read off the platform's answers. *)
Lemma request_cases (endpoint : string) (options : RequestInit) :
  request JSON base fetch endpoint options =
  match fetch (url endpoint) (request_config options) with
  | inl _ =>
      inl (ThrownApiError {| status := 0; message := "Network error or server unavailable" |})
  | inr response =>
      if ok JSON response then
        match json JSON response with
        | inr parsed => inr parsed
        | inl _ =>
            inl (ThrownApiError {| status := 0; message := "Network error or server unavailable" |})
        end
      else
        inl (ThrownApiError
               {| status := response_status JSON response;
                  message := "HTTP error! status: " +:+
                             string_of_list_ascii (JS.decimal (response_status JSON response)) |})
  end.
Proof.
  unfold request, url.
  destruct (fetch _ _) as [e | response]; cbn; [reflexivity|].
  destruct (ok JSON response); cbn; [|reflexivity].
  destruct (json JSON response); reflexivity.
Qed.

(** C9. Every call of [api.request] either returns the parsed JSON body of
    a response whose [ok] flag is set, or throws an [ApiError]: with the
    response's status when the response is not ok, with status 0 when
    [fetch] or the parsing of the body threw.  Nothing else is thrown and
    the body of a response that is not ok is never returned. *)
Theorem request_returns_ok_body_or_throws_ApiError
    (endpoint : string) (options : RequestInit) :
  match request JSON base fetch endpoint options with
  | inr parsed =>
      exists response,
        fetch (url endpoint) (request_config options) = inr response /\
        ok JSON response = true /\ json JSON response = inr parsed
  | inl (ThrownApiError e) =>
      (exists response,
         fetch (url endpoint) (request_config options) = inr response /\
         ok JSON response = false /\ status e = response_status JSON response)
      \/
      (status e = 0%N /\
       ((exists err, fetch (url endpoint) (request_config options) = inl err) \/
        (exists response err,
           fetch (url endpoint) (request_config options) = inr response /\
           ok JSON response = true /\ json JSON response = inl err)))
  | inl (ThrownOther _) => False
  end.
Proof.
  rewrite request_cases.
  destruct (fetch _ _) as [err | response] eqn:F.
  - right. split; [reflexivity|]. left. now exists err.
  - destruct (ok JSON response) eqn:O.
    + destruct (json JSON response) as [err | parsed] eqn:J.
      * right. split; [reflexivity|]. right. now exists response, err.
      * now exists response.
    + left. now exists response.
Qed.

End Request.

End ApiFacts.

(** ** The interactive interview component *)

Module InteractiveInterviewFacts.

Import InteractiveInterview Samples.

(** C10. [getStepProgress] does not look at the step name.  For given
    counters [q] and [t] it is [q / t * 100] under every name; a counter
    that is left out is 1 for the question and 6 for the total; so any
    two names give the same progress.  The progress the component
    displays depends on the counters only: two snapshots with the same
    question number and total, whatever their step names and other
    fields, are shown with the same progress, which is the question
    number (1 when it is absent, 0 or NaN) divided by the total (6 when
    it is absent, 0 or NaN), times 100; for a snapshot that carries the
    counters [q] and [t], neither 0 nor NaN, it is [q / t * 100]. *)
Theorem getStepProgress_ignores_step_name (s1 s2 : string) (q t : float) :
  getStepProgress s1 (Some q) (Some t) = (q / t * 100)%float /\
  getStepProgress s2 (Some q) (Some t) = (q / t * 100)%float /\
  getStepProgress s1 None (Some t) = (1 / t * 100)%float /\
  getStepProgress s1 (Some q) None = (q / 6 * 100)%float /\
  getStepProgress s1 None None = (1 / 6 * 100)%float /\
  (forall counter total : option float,
     getStepProgress s1 counter total = getStepProgress s2 counter total) /\
  (forall (a b : InterviewStep) (st : State),
     current_question a = current_question b ->
     total_questions a = total_questions b ->
     isLoading st = false ->
     interviewComplete st = false \/ finalResults st = None ->
     let shown :=
       (JS.or_number (current_question a) 1 / JS.or_number (total_questions a) 6
        * 100)%float in
     let total := JS.or_number (total_questions a) 6 in
     render (setCurrentStep (Some a) st) = QuestionView a shown total /\
     render (setCurrentStep (Some b) st) = QuestionView b shown total /\
     (current_question a = Some q -> total_questions a = Some t ->
      JS.falsy_number q = false -> JS.falsy_number t = false ->
      shown = (q / t * 100)%float /\ total = t)).
Proof.
  do 5 (split; [reflexivity|]). split; [intros counter total; reflexivity|].
  intros a b st Hq Ht Hl Hr shown total. subst shown total.
  unfold render. cbn [isLoading interviewComplete finalResults currentStep
                      setCurrentStep].
  rewrite Hl, <- Hq, <- Ht.
  assert (Hgiven : current_question a = Some q -> total_questions a = Some t ->
                   JS.falsy_number q = false -> JS.falsy_number t = false ->
                   (JS.or_number (current_question a) 1 /
                    JS.or_number (total_questions a) 6 * 100)%float =
                   (q / t * 100)%float /\
                   JS.or_number (total_questions a) 6 = t).
  { intros -> -> Fq Ft. unfold JS.or_number. now rewrite Fq, Ft. }
  destruct Hr as [-> | ->]; [|destruct (interviewComplete st)];
    (split; [reflexivity | split; [reflexivity | exact Hgiven]]).
Qed.

(** Question 3 of 6 is shown as 50, under the first and under the last
    step name. *)
Lemma getStepProgress_ignores_step_name_witness :
  getStepProgress "intro" (Some 3%float) (Some 6%float) = 50%float /\
  getStepProgress "advanced3" (Some 3%float) (Some 6%float) = 50%float /\
  render (setCurrentStep (Some lastStep) answeringState) =
    QuestionView lastStep 100%float 6%float.
Proof.
  destruct (getStepProgress_ignores_step_name "intro" "advanced3" 3%float 6%float)
    as (H1 & H2 & _ & _ & _ & _ & H).
  split; [exact H1|]. split; [exact H2|].
  exact (proj1 (H lastStep lastStep answeringState eq_refl eq_refl eq_refl
                  (or_intror eq_refl))).
Defined.

(** The rendered progress of two snapshots that differ in the step name
    only. *)
Lemma rendered_progress_ignores_step_name (a b : InterviewStep) :
  current_question a = current_question b ->
  total_questions a = total_questions b ->
  forall st va vb pa pb ta tb,
    render (setCurrentStep (Some a) st) = QuestionView va pa ta ->
    render (setCurrentStep (Some b) st) = QuestionView vb pb tb ->
    pa = pb /\ ta = tb.
Proof.
  intros Hq Ht st va vb pa pb ta tb. unfold render; cbn.
  destruct (isLoading st); [discriminate|].
  destruct (interviewComplete st), (finalResults st); try discriminate;
    intros [= _ <- <-] [= _ <- <-]; unfold getStepProgress; rewrite Hq, Ht; auto.
Qed.

Section Submit.

Variable base : option string.
Variable fetch : string -> Api.RequestInit -> Api.PlatformError + Api.Response InterviewStep.
Variable stringify : list (string * string) -> string.
Variable conversationId : string.

Let submit := handleSubmitResponse base fetch stringify conversationId.

(** The handler on an answered request. *)
Lemma handleSubmitResponse_result (now : string) (st : State)
    (step result : InterviewStep) :
  currentStep st = Some step ->
  JS.blank (userResponse st) = false ->
  Api.processInterviewStep InterviewStep base fetch stringify conversationId
    (userResponse st) (current_step step) = inr result ->
  submit now st =
  setIsSubmitting false (onStepResult now result (setIsSubmitting true st)).
Proof.
  intros Hs Hb Hr. unfold submit, handleSubmitResponse.
  rewrite Hs, Hb. cbn. now rewrite Hr.
Qed.

(** C3 (amended). When the backend answers a submission with a terminal
    snapshot, the component always holds final results afterwards (the
    backend's, or the fixed fallback with score 7.5 when it sent none) and
    shows their score; a snapshot that is not terminal leaves the final
    results as they were, so from a state without results they are present
    exactly for a terminal snapshot.  A rejected snapshot is reported by a
    destructive notification carrying the rejection reason (a default text
    when there is none), and the results view with its score is shown all
    the same. *)
Theorem terminal_snapshot_results (now : string) (st : State)
    (step result : InterviewStep) :
  currentStep st = Some step ->
  JS.blank (userResponse st) = false ->
  isLoading st = false ->
  finalResults st = None ->
  Api.processInterviewStep InterviewStep base fetch stringify conversationId
    (userResponse st) (current_step step) = inr result ->
  let st' := submit now st in
  let shown :=
    match final_results result with
    | Some results => results
    | None => fallbackResults now
    end in
  (finalResults st' <> None <-> is_complete result = true) /\
  (is_complete result = true ->
     finalResults st' = Some shown /\
     render st' = ResultsView shown /\
     displayed_score (render st') = Some (score (propensity_score shown))) /\
  (is_complete result = true ->
   JS.truthy_bool (human_rejected result) = true ->
     hd_error (toasts st') =
       Some {| title := "Evaluation Rejected";
               description :=
                 JS.or_string (rejection_reason result)
                   "Human reviewer did not approve the evaluation.";
               variant := "destructive" |}).
Proof.
  intros Hs Hb Hl Hf Hr st' shown. subst st' shown.
  rewrite (handleSubmitResponse_result now st step result Hs Hb Hr).
  unfold onStepResult.
  destruct (is_complete result) eqn:C.
  - destruct (JS.truthy_bool (human_rejected result)) eqn:R;
      [|destruct (JS.truthy_bool (human_approval_bypassed result))];
      (destruct (final_results result) as [results|];
       unfold render; cbn; rewrite ?Hl; cbn;
       (split; [split; [reflexivity | discriminate] |]);
       (split; [intros _; repeat split; reflexivity |]);
       intros _ ?; try discriminate; reflexivity).
  - cbn. rewrite Hf. repeat split; try discriminate; intros; congruence.
Qed.

End Submit.

(** C3, as stated, fails: for a rejected outcome with no committed results
    the component shows a propensity score all the same, the 7.5 of its
    fallback results, next to the rejection notice. *)
Lemma rejected_outcome_shows_a_score :
  JS.truthy_bool (human_rejected rejectedSnapshot) = true /\
  final_results rejectedSnapshot = None /\
  displayed_score (render afterRejection) = Some 7.5%float /\
  ~ (displayed_score (render afterRejection) = None).
Proof. repeat split; try reflexivity. discriminate. Qed.

(** The amended statement on that exchange. *)
Lemma terminal_snapshot_results_witness :
  finalResults afterRejection =
    Some (fallbackResults "2025-01-01T00:00:00.000Z") /\
  hd_error (toasts afterRejection) =
    Some {| title := "Evaluation Rejected";
            description := "Scores are not supported by the answers.";
            variant := "destructive" |}.
Proof.
  destruct (terminal_snapshot_results None rejectingServer (fun _ => "{}") "c-1"
              "2025-01-01T00:00:00.000Z" answeringState lastStep rejectedSnapshot
              eq_refl eq_refl eq_refl eq_refl eq_refl) as (_ & H1 & H2).
  split.
  - exact (proj1 (H1 eq_refl)).
  - exact (H2 eq_refl eq_refl).
Defined.

End InteractiveInterviewFacts.

(** ** The step sequencer *)

Module SequencerFacts.

Import Sequencer.

Lemma following_lookup {A} `{EqDecision A} (l : list A) (i : nat) (x : A) :
  NoDup l -> l !! i = Some x -> following l x = l !! S i.
Proof.
  intros Hnd. revert i. induction Hnd as [|a l Hnotin Hnd IH]; intros i Hi.
  - discriminate.
  - destruct i as [|i]; cbn in Hi |- *.
    + injection Hi as ->. rewrite decide_True by reflexivity.
      now destruct l.
    + rewrite decide_False.
      * now apply IH.
      * intros ->. apply Hnotin. eapply list_elem_of_lookup_2. exact Hi.
Qed.

Lemma following_outside {A} `{EqDecision A} (l : list A) (x : A) :
  x ∉ l -> following l x = None.
Proof.
  induction l as [|a l IH]; intros Hx; cbn; [reflexivity|].
  rewrite decide_False.
  - apply IH. intros Hin. apply Hx. now right.
  - intros ->. apply Hx. now left.
Qed.

Lemma STEPS_NoDup : NoDup STEPS.
Proof. apply (bool_decide_unpack _). reflexivity. Qed.

Lemma next_step_lookup (i : nat) (s : Step) :
  STEPS !! i = Some s -> next_step s = STEPS !! S i.
Proof. apply following_lookup, STEPS_NoDup. Qed.

Lemma STEPS_elem (s : Step) :
  s ∈ STEPS <->
  s = intro \/ s = theory \/ s = practical \/ s = advanced \/
  s = advanced2 \/ s = advanced3.
Proof.
  split.
  - intros H. destruct s; auto 10; exfalso;
      refine (bool_decide_unpack (_ ∉ STEPS) _ H); reflexivity.
  - intros H. apply (bool_decide_unpack _).
    repeat (destruct H as [-> | H]; [reflexivity|]). now subst.
Qed.

End SequencerFacts.

(** ** The session state machine *)

Module SessionFacts.

Import Sequencer Aggregator Session SequencerFacts.

Section Machine.

Variable combine : list Q -> Q.

Lemma create_session_invariant (cid : string) (info : CandidateInfo) (q : JS.str) :
  Invariant (create_session cid info q).
Proof. split; cbn; auto; lia. Qed.

Lemma record_answer_invariant (s s' : Session) step answer ev q now :
  Invariant s ->
  record_answer s step answer ev q now = inr s' ->
  Invariant s'.
Proof.
  intros [Ht Ho Hc Hi Hb]. unfold record_answer.
  destruct (bool_decide_reflect (current_step s ∈ STEPS)) as [Hin|]; [|discriminate].
  destruct (bool_decide_reflect (step = current_step s)) as [->|]; [|discriminate].
  cbv beta iota delta [negb orb]. destruct ev as [ev|]; [|discriminate].
  specialize (Hc Hin).
  pose proof (next_step_lookup _ _ Hc) as Hn.
  assert (Hlt : length (qa_pairs s) < length STEPS) by (eapply lookup_lt_Some; eauto).
  destruct (next_step (current_step s)) as [next|] eqn:E.
  - destruct q as [q|]; [|discriminate]. intros [= <-].
    assert (Hlt' : S (length (qa_pairs s)) < length STEPS)
      by (eapply lookup_lt_Some; eauto).
    cbn in Hlt'.
    split; cbn; rewrite ?length_app, ?map_app; cbn;
      rewrite ?Nat.add_1_r; auto;
      try (rewrite (take_S_r _ _ _ Hc), Ho; reflexivity);
      try (rewrite Hi; unfold TOTAL_QUESTIONS; lia).
  - intros [= <-].
    assert (Hge : length STEPS <= S (length (qa_pairs s)))
      by (apply lookup_ge_None; auto).
    cbn in Hge, Hlt.
    split; cbn; rewrite ?length_app, ?map_app; cbn;
      rewrite ?Nat.add_1_r; auto;
      try (rewrite (take_S_r _ _ _ Hc), Ho; reflexivity);
      try (rewrite Hi; unfold TOTAL_QUESTIONS; lia); try lia.
    intros Hev. exfalso.
    refine (bool_decide_unpack (evaluating ∉ STEPS) _ Hev). reflexivity.
Qed.

Lemma with_step_invariant (s : Session) (step : Step) approval results :
  step ∉ STEPS -> Invariant s -> Invariant (with_step s step approval results).
Proof.
  intros Hstep [Ht Ho Hc Hi Hb]. split; cbn; auto. intros H. contradiction.
Qed.

Lemma transition_invariant (s s' : Session) (e : Event) :
  Invariant s -> transition combine s e = inr s' -> Invariant s'.
Proof.
  intros Hinv. destruct e as [step answer ev q now | | signal now]; cbn.
  - apply record_answer_invariant, Hinv.
  - unfold evaluate. destruct (bool_decide _); [|discriminate].
    destruct (complete_evaluations _); [|discriminate]. intros [= <-].
    apply with_step_invariant; [|exact Hinv].
    apply (bool_decide_unpack _). reflexivity.
  - unfold resolve. destruct (bool_decide _); [|discriminate].
    destruct (Approval.await_approval signal) as [[ | | ] approval];
      try (destruct (aggregate _ _ _ _); [discriminate|]);
      intros [= <-]; (apply with_step_invariant; [|exact Hinv]);
      apply (bool_decide_unpack _); reflexivity.
Qed.

Lemma apply_event_invariant (s : Session) (e : Event) :
  Invariant s -> Invariant (apply_event combine s e).
Proof.
  intros Hinv. unfold apply_event.
  destruct (transition combine s e) eqn:E; [exact Hinv|].
  eapply transition_invariant; eauto.
Qed.

Lemma run_invariant (s : Session) (events : list Event) :
  Invariant s -> Invariant (run combine s events).
Proof.
  revert s. induction events as [|e events IH]; intros s Hinv; cbn; [exact Hinv|].
  apply IH, apply_event_invariant, Hinv.
Qed.

(** C6. [create_session] answers with [total_questions = 6], and whatever
    events a session goes through, its [total_questions] is 6 (and the
    question index never exceeds it).  The front end's progress bar takes
    the same constant for a total that was not given. *)
Theorem total_questions_is_six (cid : string) (info : CandidateInfo)
    (q : JS.str) (events : list Event) :
  created_total_questions (created (create_session cid info q)) = 6 /\
  total_questions (run combine (create_session cid info q) events) = 6 /\
  current_question_index (run combine (create_session cid info q) events) <= 6 /\
  (forall name asked,
     InteractiveInterview.getStepProgress name asked None =
     InteractiveInterview.getStepProgress name asked (Some 6%float)).
Proof.
  destruct (run_invariant _ events (create_session_invariant cid info q))
    as [Ht _ _ Hi _].
  split; [reflexivity|]. split; [exact Ht|]. split; [|reflexivity].
  rewrite Hi. unfold TOTAL_QUESTIONS. lia.
Qed.

(** C7. [next_step] follows the fixed list: the step at position [i] is
    sent to the step at position [i+1], and among the interview steps the
    answer is [None] for [advanced3] only; the list has no repetition and
    is what repeated calls visit from [intro].  So the answers recorded by
    any session are for the steps of the list in order, none repeated and
    none skipped, and a session still asking questions is at the step after
    the last one answered.  The list is that of the keys of the front
    end's [stepConfig]. *)
Theorem next_step_fixed_order :
  (forall (i : nat) (s : Step), STEPS !! i = Some s -> next_step s = STEPS !! S i) /\
  (forall s : Step, s ∈ STEPS -> (next_step s = None <-> s = advanced3)) /\
  NoDup STEPS /\
  (forall n : nat, 5 <= n -> visit n intro = STEPS) /\
  map step_name STEPS = map fst InteractiveInterview.stepConfig /\
  (forall cid info q events,
     let s := run combine (create_session cid info q) events in
     map qa_step (qa_pairs s) = take (length (qa_pairs s)) STEPS /\
     (current_step s ∈ STEPS ->
      STEPS !! length (qa_pairs s) = Some (current_step s))).
Proof.
  split; [exact next_step_lookup|]. split; [|split; [exact STEPS_NoDup|]].
  - intros s Hs. apply STEPS_elem in Hs.
    repeat (destruct Hs as [-> | Hs]; [split; [discriminate | discriminate]|]).
    subst. split; reflexivity.
  - split; [|split; [reflexivity|]].
    + intros n Hn. do 5 (destruct n as [|n]; [lia|]). destruct n; reflexivity.
    + intros cid info q events s.
      destruct (run_invariant _ events (create_session_invariant cid info q))
        as [_ Ho Hc _ _].
      split; assumption.
Qed.

End Machine.

End SessionFacts.

(** ** The evaluation aggregator *)

Module AggregatorFacts.

Import Sequencer Aggregator Samples.

Local Open Scope Q_scope.






Section Aggregate.

Variable combine : list Q -> Q.


Lemma missing_evaluation (qa : list QAPair) evaluations (now : string) (s : Step) :
  s ∈ STEPS -> evaluations !! step_name s = None ->
  aggregate combine qa evaluations now = inl ValidationError.
Proof.
  intros Hs Hnone. unfold aggregate.
  destruct (complete_evaluations evaluations) eqn:E; [|reflexivity].
  unfold complete_evaluations in E. rewrite forallb_forall in E.
  apply list_elem_of_In, E in Hs. apply bool_decide_eq_true in Hs.
  rewrite Hnone in Hs. now destruct Hs.
Qed.


End Aggregate.



End AggregatorFacts.

(** ** The matcher on the shapes of pattern the component uses *)

Module RegexFacts.

Import JS Regex StrFacts.

Lemma is_prefix_app (l s : str) : is_prefix l (l ++ s) = true.
Proof.
  induction l as [|c l IH]; cbn; [reflexivity|].
  now rewrite Ascii.eqb_refl, IH.
Qed.

Lemma is_prefix_split (l s : str) :
  is_prefix l s = true -> s = l ++ skipn (length l) s.
Proof.
  revert s. induction l as [|c l IH]; intros s; cbn; [reflexivity|].
  destruct s as [|d s]; [discriminate|].
  destruct (Ascii.eqb_spec c d) as [->|]; [|discriminate]. cbn.
  intros H. f_equal. now apply IH.
Qed.

(** A literal is matched character by character. *)
Lemma run_Lit (l : str) (total : nat) (s : str) (cap : option str) (k : Cont) :
  run (Lit l) total s cap k =
  if is_prefix l s then k (skipn (length l) s) cap else None.
Proof.
  revert s. induction l as [|c l IH]; intros s; cbn; [reflexivity|].
  destruct s as [|d s]; [reflexivity|].
  destruct (Ascii.eqb c d); cbn; [apply IH | reflexivity].
Qed.

Lemma star_greedy_class (p : ascii -> bool) (total : nat) (k : Cont)
    (s : str) (cap : option str) (fuel : nat) :
  length s <= fuel ->
  star_loop true (run (Cls p) total) k fuel s cap = greedy_scan p k cap s.
Proof.
  revert fuel. induction s as [|c s IH]; intros fuel Hfuel.
  - destruct fuel; reflexivity.
  - destruct fuel as [|fuel]; [cbn in Hfuel; lia|].
    cbn [star_loop run greedy_scan]. destruct (p c); [|reflexivity].
    replace (length s <? length (c :: s))%nat with true
      by (symmetry; apply Nat.ltb_lt; cbn; lia).
    rewrite IH by (cbn in Hfuel; lia). reflexivity.
Qed.

Lemma run_Seq (r1 r2 : re) (total : nat) (s : str) (cap : option str) (k : Cont) :
  run (Seq r1 r2) total s cap k =
  run r1 total s cap (fun s' cap' => run r2 total s' cap' k).
Proof. reflexivity. Qed.

Lemma run_Chr (c : ascii) (total : nat) (s : str) (cap : option str) (k : Cont) :
  run (Chr c) total s cap k =
  match s with
  | d :: s' => if Ascii.eqb c d then k s' cap else None
  | [] => None
  end.
Proof. reflexivity. Qed.

Lemma run_Cls (p : ascii -> bool) (total : nat) (s : str) (cap : option str) (k : Cont) :
  run (Cls p) total s cap k =
  match s with
  | d :: s' => if p d then k s' cap else None
  | [] => None
  end.
Proof. reflexivity. Qed.

Lemma run_Bos (total : nat) (s : str) (cap : option str) (k : Cont) :
  run Bos total s cap k = if (length s =? total)%nat then k s cap else None.
Proof. reflexivity. Qed.

Lemma run_Group (r : re) (total : nat) (s : str) (cap : option str) (k : Cont) :
  run (Group r) total s cap k =
  run r total s cap (fun s' _ => k s' (Some (firstn (length s - length s') s))).
Proof. reflexivity. Qed.

(** [p*] *)
Lemma run_Many_class (p : ascii -> bool) (total : nat) (s : str)
    (cap : option str) (k : Cont) :
  run (Many (Cls p)) total s cap k = greedy_scan p k cap s.
Proof.
  change (star_loop true (run (Cls p) total) k (length s) s cap = greedy_scan p k cap s).
  apply star_greedy_class. reflexivity.
Qed.

(** [p+] *)
Lemma run_Plus_class (p : ascii -> bool) (total : nat) (s : str)
    (cap : option str) (k : Cont) :
  run (Plus (Cls p)) total s cap k =
  match s with
  | c :: s' => if p c then greedy_scan p k cap s' else None
  | [] => None
  end.
Proof.
  unfold Plus. rewrite run_Seq, run_Cls. destruct s as [|c s]; [reflexivity|].
  destruct (p c); [|reflexivity]. apply (run_Many_class p total s cap k).
Qed.

Lemma star_lazy_dot (total : nat) (k : Cont) (s : str) (cap : option str)
    (fuel : nat) :
  length s <= fuel ->
  star_loop false (run dot total) k fuel s cap = lazy_scan k cap s.
Proof.
  revert fuel. induction s as [|c s IH]; intros fuel Hfuel.
  - destruct fuel; cbn; destruct (k [] cap); reflexivity.
  - destruct fuel as [|fuel]; [cbn in Hfuel; lia|].
    cbn [star_loop run dot lazy_scan any_char].
    replace (length s <? length (c :: s))%nat with true
      by (symmetry; apply Nat.ltb_lt; cbn; lia).
    rewrite IH by (cbn in Hfuel; lia). reflexivity.
Qed.

(** [.*?] under the [s] flag *)
Lemma run_Lazy_dot (total : nat) (s : str) (cap : option str) (k : Cont) :
  run (Lazy dot) total s cap k = lazy_scan k cap s.
Proof.
  change (star_loop false (run dot total) k (length s) s cap = lazy_scan k cap s).
  apply star_lazy_dot. reflexivity.
Qed.

(** A continuation that cannot start with a character of the class makes
    the greedy repetition take the whole run. *)
Lemma greedy_scan_blocked (p : ascii -> bool) (k : Cont) (cap : option str) (s : str) :
  (forall c s', p c = true -> k (c :: s') cap = None) ->
  greedy_scan p k cap s = k (drop_while p s) cap.
Proof.
  intros Hk. induction s as [|c s IH]; cbn; [reflexivity|].
  destruct (p c) eqn:E; [|reflexivity].
  rewrite IH. destruct (k (drop_while p s) cap) eqn:K; [reflexivity|].
  now apply Hk.
Qed.

(** So does a continuation that never fails. *)
Lemma greedy_scan_total (p : ascii -> bool) (k : Cont) (cap : option str) (s : str) :
  (forall s', k s' cap <> None) ->
  greedy_scan p k cap s = k (drop_while p s) cap.
Proof.
  intros Hk. induction s as [|c s IH]; cbn; [reflexivity|].
  destruct (p c) eqn:E; [|reflexivity].
  rewrite IH. destruct (k (drop_while p s) cap) eqn:K; [reflexivity|].
  now apply Hk in K.
Qed.

Lemma lazy_scan_ext (k1 k2 : Cont) (cap : option str) (s : str) :
  (forall s' c, k1 s' c = k2 s' c) -> lazy_scan k1 cap s = lazy_scan k2 cap s.
Proof.
  intros H. induction s as [|c s IH]; cbn; rewrite H; [reflexivity|].
  now rewrite IH.
Qed.

Lemma greedy_scan_ext (p : ascii -> bool) (k1 k2 : Cont) (cap : option str) (s : str) :
  (forall s' c, k1 s' c = k2 s' c) -> greedy_scan p k1 cap s = greedy_scan p k2 cap s.
Proof.
  intros H. induction s as [|c s IH]; cbn; rewrite ?H; [reflexivity|].
  now rewrite IH.
Qed.

Lemma firstn_pre (pre s : str) : firstn (length (pre ++ s) - length s) (pre ++ s) = pre.
Proof.
  rewrite length_app, Nat.add_sub. rewrite firstn_app, Nat.sub_diag, firstn_all.
  cbn. apply app_nil_r.
Qed.

(** [(?=stop|$)] *)
Lemma run_Look_stop (stop : str) (total : nat) (s : str) (cap : option str) :
  run (Look (Alt (Lit stop) Eos)) total s cap accept =
  if is_prefix stop s || match s with [] => true | _ => false end
  then Some (s, cap) else None.
Proof.
  cbn [run]. rewrite run_Lit.
  destruct (is_prefix stop s); cbn; [reflexivity|].
  destruct s; reflexivity.
Qed.

(** [.*?] in front of [(?=stop|$)] stops at the first occurrence of
    [stop]; [t] is the text from the opening of the group. *)
Lemma lazy_until (stop : str) (cap : option str) (t pre s : str) :
  t = pre ++ s ->
  lazy_scan
    (fun s' _ =>
       if is_prefix stop s' || match s' with [] => true | _ => false end
       then Some (s', Some (firstn (length t - length s') t)) else None)
    cap s =
  Some (from stop s, Some (pre ++ until stop s)).
Proof.
  revert pre. induction s as [|c s IH]; intros pre ->.
  - cbn [lazy_scan from until]. rewrite orb_true_r, firstn_pre, app_nil_r. reflexivity.
  - cbn [lazy_scan from until]. rewrite orb_false_r.
    destruct (is_prefix stop (c :: s)) eqn:E.
    + rewrite firstn_pre, app_nil_r. reflexivity.
    + rewrite (IH (pre ++ [c])) by (now rewrite <- app_assoc).
      now rewrite <- app_assoc.
Qed.

(** [(.*?)(?=stop|$)] *)
Lemma run_field_tail (stop : str) (total : nat) (t : str) (cap : option str) :
  run (Seq (Group (Lazy dot)) (Look (Alt (Lit stop) Eos))) total t cap accept =
  Some (from stop t, Some (until stop t)).
Proof.
  rewrite run_Seq, run_Group, run_Lazy_dot.
  erewrite lazy_scan_ext by (intros; apply run_Look_stop).
  now rewrite (lazy_until stop cap t [] t eq_refl).
Qed.

(** A field pattern at a given place: the label must be there; the
    capture runs from the first character that is not white space up to
    the stop text. *)
Lemma match_at_field (label stop : str) (total : nat) (s : str) :
  match_at (InterviewResults.field_re label stop) total s =
  if is_prefix label s then
    let t := drop_while is_space (skipn (length label) s) in
    Some (from stop t, Some (until stop t))
  else None.
Proof.
  unfold match_at, InterviewResults.field_re.
  rewrite run_Seq, run_Lit. destruct (is_prefix label s); [|reflexivity].
  rewrite run_Seq. unfold space. rewrite run_Many_class.
  rewrite greedy_scan_total.
  - apply run_field_tail.
  - intros s'. now rewrite run_field_tail.
Qed.

Lemma space_not_digit (c : ascii) : is_space c = true -> is_digit c = false.
Proof. destruct c as [[] [] [] [] [] [] [] []]; vm_compute; congruence. Qed.

Lemma digit_not_slash (c : ascii) : is_digit c = true -> Ascii.eqb "/" c = false.
Proof. destruct c as [[] [] [] [] [] [] [] []]; vm_compute; congruence. Qed.

Lemma take_drop_length (p : ascii -> bool) (s : str) :
  length s = length (take_while p s) + length (drop_while p s).
Proof. now rewrite <- length_app, take_drop_while. Qed.

(** [(\d+)\/10] *)
Lemma run_score_tail (total : nat) (t : str) (cap : option str) :
  run (Seq (Group (Plus digit)) (Lit (lit "/10"))) total t cap accept =
  match take_while is_digit t with
  | [] => None
  | digits =>
      if is_prefix (lit "/10") (drop_while is_digit t)
      then Some (skipn 3 (drop_while is_digit t), Some digits)
      else None
  end.
Proof.
  rewrite run_Seq, run_Group. unfold digit. rewrite run_Plus_class.
  destruct t as [|c t]; [reflexivity|]. cbn [take_while drop_while].
  destruct (is_digit c) eqn:D; [|reflexivity].
  rewrite greedy_scan_blocked.
  - rewrite run_Lit.
    destruct (is_prefix (lit "/10") (drop_while is_digit t)); [|reflexivity].
    unfold accept. do 2 f_equal. f_equal.
    rewrite <- (take_drop_while is_digit t) at 1 3.
    change (c :: take_while is_digit t ++ drop_while is_digit t)
      with ((c :: take_while is_digit t) ++ drop_while is_digit t).
    apply firstn_pre.
  - intros d s' Hd. rewrite run_Lit. cbn [is_prefix lit list_ascii_of_string].
    now rewrite (digit_not_slash d Hd).
Qed.

(** The score pattern at a given place. *)
Lemma match_at_score (total : nat) (s : str) :
  match_at InterviewResults.score_re total s =
  if is_prefix (lit "Score:") s then
    let t := drop_while is_space (skipn 6 s) in
    match take_while is_digit t with
    | [] => None
    | digits =>
        if is_prefix (lit "/10") (drop_while is_digit t)
        then Some (skipn 3 (drop_while is_digit t), Some digits)
        else None
    end
  else None.
Proof.
  unfold match_at, InterviewResults.score_re.
  rewrite run_Seq, run_Lit. destruct (is_prefix (lit "Score:") s); [|reflexivity].
  rewrite run_Seq. unfold space. rewrite run_Many_class.
  rewrite greedy_scan_blocked.
  - apply run_score_tail.
  - intros c s' Hc. rewrite run_score_tail. cbn [take_while].
    now rewrite (space_not_digit c Hc).
Qed.

(** *** Places where nothing matches *)

Lemma nowhere_app (test : str -> bool) (a b rest : str) :
  nowhere test (a ++ b) rest = nowhere test a (b ++ rest) && nowhere test b rest.
Proof.
  induction a as [|c a IH]; cbn [nowhere app]; [reflexivity|].
  rewrite IH, <- app_assoc. cbn [app]. now rewrite andb_assoc.
Qed.

Lemma nowhere_impl (test1 test2 : str -> bool) (a rest : str) :
  (forall s, test2 s = true -> test1 s = true) ->
  nowhere test1 a rest = true -> nowhere test2 a rest = true.
Proof.
  intros H. induction a as [|c a IH]; cbn [nowhere]; [reflexivity|].
  intros [H1 H2]%andb_true_iff. apply andb_true_iff. split; [|now apply IH].
  destruct (test2 ((c :: a) ++ rest)) eqn:E; [|reflexivity].
  apply H in E. now rewrite E in H1.
Qed.

Lemma nowhere_drop_while (test : str -> bool) (p : ascii -> bool) (a rest : str) :
  nowhere test a rest = true -> nowhere test (drop_while p a) rest = true.
Proof.
  induction a as [|c a IH]; cbn [nowhere drop_while]; [reflexivity|].
  intros H. destruct (p c); [|exact H].
  apply andb_true_iff in H. now apply IH.
Qed.

(** A text that starts with none of the characters of [a] is a prefix
    nowhere in [a]. *)
Lemma nowhere_head (x : ascii) (l a rest : str) :
  forallb (fun c => negb (Ascii.eqb x c)) a = true ->
  nowhere (is_prefix (x :: l)) a rest = true.
Proof.
  induction a as [|c a IH]; cbn [nowhere forallb app is_prefix]; [reflexivity|].
  intros [H1 H2]%andb_true_iff. rewrite (negb_true_iff _) in H1.
  rewrite H1. cbn. now apply IH.
Qed.

(** A prefix that lacks the character [c] cannot reach across it. *)
Lemma is_prefix_cut (l u v : str) (c : ascii) :
  forallb (fun x => negb (Ascii.eqb x c)) l = true ->
  is_prefix l (u ++ c :: v) = true -> is_prefix l u = true.
Proof.
  revert u. induction l as [|x l IH]; intros u; cbn [forallb is_prefix]; [reflexivity|].
  intros [H1 H2]%andb_true_iff. rewrite (negb_true_iff _) in H1.
  destruct u as [|d u]; cbn [app is_prefix].
  - now rewrite H1.
  - intros [E P]%andb_true_iff. rewrite E. cbn. now apply IH.
Qed.

(** A text that does not occur in [t] is a prefix nowhere in [t], whatever
    follows, as long as a character foreign to it comes first. *)
Lemma nowhere_occurs (l t rest : str) (c : ascii) :
  forallb (fun x => negb (Ascii.eqb x c)) l = true ->
  occurs l t = false ->
  nowhere (is_prefix l) t (c :: rest) = true.
Proof.
  intros Hc. induction t as [|d t IH]; cbn [nowhere occurs]; [reflexivity|].
  intros [H1 H2]%orb_false_iff. rewrite (IH H2), andb_true_r.
  apply negb_true_iff. destruct (is_prefix l ((d :: t) ++ c :: rest)) eqn:E; [|reflexivity].
  apply (is_prefix_cut _ _ _ _ Hc) in E. congruence.
Qed.

(** *** Searching *)

Lemma search_found (r : re) (total : nat) (pre s rest : str) (cap : option str) :
  match_at r total s = Some (rest, cap) ->
  search r total pre s =
  Some {| before := rev pre;
          matched := firstn (length s - length rest) s;
          capture := cap;
          after := rest |}.
Proof. intros H. destruct s; cbn [search]; now rewrite H. Qed.

Lemma search_skip (r : re) (total : nat) (pre a rest : str) :
  nowhere (matches r total) a rest = true ->
  search r total pre (a ++ rest) = search r total (rev a ++ pre) rest.
Proof.
  revert pre. induction a as [|c a IH]; intros pre; [reflexivity|].
  cbn [nowhere]. intros [H1 H2]%andb_true_iff.
  apply negb_true_iff in H1. unfold matches in H1.
  cbn [app search] in *.
  destruct (match_at r total (c :: a ++ rest)); [discriminate|].
  rewrite (IH _ H2). cbn [rev]. now rewrite <- app_assoc.
Qed.

Lemma search_none (r : re) (total : nat) (pre s : str) :
  nowhere (matches r total) s [] = true ->
  match_at r total [] = None ->
  search r total pre s = None.
Proof.
  intros H Hend. rewrite <- (app_nil_r s), (search_skip _ _ _ _ _ H).
  cbn [search]. now rewrite Hend.
Qed.

(** [s.match(r)] when the first match is known. *)
Lemma exec_first (r : re) (a s rest : str) (cap : option str) :
  nowhere (matches r (length (a ++ s))) a s = true ->
  match_at r (length (a ++ s)) s = Some (rest, cap) ->
  exec r (a ++ s) =
  Some {| before := a;
          matched := firstn (length s - length rest) s;
          capture := cap;
          after := rest |}.
Proof.
  intros Hn Hm. unfold exec.
  rewrite (search_skip _ _ _ _ _ Hn), (search_found _ _ _ _ _ _ Hm).
  now rewrite app_nil_r, rev_involutive.
Qed.

(** *** Stopping texts *)

Lemma until_app (stop u rest : str) :
  nowhere (is_prefix stop) u (stop ++ rest) = true ->
  until stop (u ++ stop ++ rest) = u.
Proof.
  induction u as [|c u IH]; cbn [nowhere app].
  - intros _. destruct (stop ++ rest) eqn:E; [reflexivity|].
    cbn [until]. rewrite <- E, is_prefix_app. reflexivity.
  - intros [H1 H2]%andb_true_iff. apply negb_true_iff in H1.
    cbn [until]. cbn [app] in H1. rewrite H1. f_equal. now apply IH.
Qed.

Lemma drop_while_app_stop (p : ascii -> bool) (a b : str) (c : ascii) (b' : str) :
  b = c :: b' -> p c = false ->
  drop_while p (a ++ b) = drop_while p a ++ b.
Proof.
  intros -> Hc. induction a as [|d a IH]; cbn [app drop_while].
  - now rewrite Hc.
  - destruct (p d); [exact IH | reflexivity].
Qed.

(** *** Patterns without [^] do not depend on where the input began *)

Lemma star_loop_ext (greedy : bool)
    (body1 body2 : str -> option str -> Cont -> option Result) (k1 k2 : Cont) :
  (forall s cap c1 c2, (forall s' c, c1 s' c = c2 s' c) ->
                       body1 s cap c1 = body2 s cap c2) ->
  (forall s c, k1 s c = k2 s c) ->
  forall fuel s cap,
    star_loop greedy body1 k1 fuel s cap = star_loop greedy body2 k2 fuel s cap.
Proof.
  intros Hbody Hk. induction fuel as [|fuel IH]; intros s cap; cbn [star_loop].
  - apply Hk.
  - rewrite (Hbody s cap _
               (fun s' cap' =>
                  if (length s' <? length s)%nat
                  then star_loop greedy body2 k2 fuel s' cap' else None)).
    + now rewrite Hk.
    + intros s' c. destruct (length s' <? length s)%nat; [apply IH | reflexivity].
Qed.

Lemma run_unanchored (r : re) :
  unanchored r = true ->
  forall (t1 t2 : nat) (s : str) (cap : option str) (k1 k2 : Cont),
    (forall s' c, k1 s' c = k2 s' c) ->
    run r t1 s cap k1 = run r t2 s cap k2.
Proof.
  induction r as [c | p | | r1 IH1 r2 IH2 | r1 IH1 r2 IH2 | g r1 IH1 | r1 IH1 | r1 IH1 | | ];
    cbn [unanchored]; intros Hr t1 t2 s cap k1 k2 Hk; cbn [run]; try discriminate.
  - destruct s as [|d s]; [reflexivity|]. destruct (Ascii.eqb c d); [apply Hk | reflexivity].
  - destruct s as [|d s]; [reflexivity|]. destruct (p d); [apply Hk | reflexivity].
  - apply Hk.
  - apply andb_true_iff in Hr as [H1 H2].
    apply (IH1 H1). intros s' c. now apply (IH2 H2).
  - apply andb_true_iff in Hr as [H1 H2].
    rewrite (IH1 H1 t1 t2 s cap k1 k2 Hk), (IH2 H2 t1 t2 s cap k1 k2 Hk). reflexivity.
  - apply star_loop_ext; [|exact Hk]. intros s0 cap0 c1 c2 Hc. now apply (IH1 Hr).
  - apply (IH1 Hr). intros s' c. apply Hk.
  - rewrite (IH1 Hr t1 t2 s cap _ (fun s' cap' => Some (s', cap')))
      by reflexivity.
    destruct (run r1 t2 s cap _) as [[? cap']|]; [apply Hk | reflexivity].
  - destruct s; [apply Hk | reflexivity].
Qed.

Lemma match_at_unanchored (r : re) (t1 t2 : nat) (s : str) :
  unanchored r = true -> match_at r t1 s = match_at r t2 s.
Proof. intros H. unfold match_at. now apply run_unanchored. Qed.

Lemma nowhere_ext (test1 test2 : str -> bool) (a rest : str) :
  (forall s, test1 s = test2 s) -> nowhere test1 a rest = nowhere test2 a rest.
Proof.
  intros H. induction a as [|c a IH]; cbn [nowhere]; [reflexivity|].
  now rewrite H, IH.
Qed.

Lemma nowhere_unanchored (r : re) (t1 t2 : nat) (a rest : str) :
  unanchored r = true ->
  nowhere (matches r t1) a rest = nowhere (matches r t2) a rest.
Proof.
  intros H. apply nowhere_ext. intros s. unfold matches.
  now rewrite (match_at_unanchored r t1 t2 s H).
Qed.

End RegexFacts.

(** ** Parsing the summary (interview-results.tsx) *)

Module InterviewResultsFacts.

Import JS Regex InterviewResults Report Contract StrFacts RegexFacts DecimalFacts.

Lemma class_not_colon (c : ascii) :
  upper_space_amp c = true -> Ascii.eqb ":" c = false.
Proof. destruct c as [[] [] [] [] [] [] [] []]; vm_compute; congruence. Qed.

Lemma digit_not_dot (c : ascii) : is_digit c = true -> Ascii.eqb "." c = false.
Proof. destruct c as [[] [] [] [] [] [] [] []]; vm_compute; congruence. Qed.

Lemma digit_not_space (c : ascii) : is_digit c = true -> is_space c = false.
Proof. destruct c as [[] [] [] [] [] [] [] []]; vm_compute; congruence. Qed.

(** The header pattern matches a section header, all of it. *)
Lemma match_at_header (total : nat) (digits title rest : str) :
  digits <> [] -> forallb is_digit digits = true -> good_title title ->
  match_at header_re total (digits ++ lit ". " ++ title ++ lit ":" ++ rest) =
  Some (rest, Some (digits ++ lit ". " ++ title ++ lit ":")).
Proof.
  intros Hne Hd (Hcls & c & title' & -> & Hc).
  destruct digits as [|d digits]; [contradiction|].
  cbn [forallb] in Hd, Hcls.
  apply andb_true_iff in Hd as [Hd Hds]. apply andb_true_iff in Hcls as [Hcc Hcls].
  unfold match_at, header_re. rewrite run_Group, run_Seq.
  unfold digit. rewrite run_Plus_class. cbn [app]. rewrite Hd.
  rewrite greedy_scan_blocked.
  2:{ intros x s' Hx. rewrite run_Seq, run_Chr. now rewrite (digit_not_dot x Hx). }
  rewrite (drop_while_all_app _ _ _ Hds).
  cbn [lit list_ascii_of_string app drop_while is_digit].
  change (is_digit ".") with false. cbv iota.
  rewrite run_Seq, run_Chr. cbn [Ascii.eqb Bool.eqb].
  rewrite run_Seq. unfold space. rewrite run_Plus_class.
  change (is_space " ") with true. cbv iota.
  cbn [greedy_scan app]. rewrite Hc.
  rewrite run_Seq, run_Plus_class, Hcc.
  rewrite greedy_scan_blocked.
  2:{ intros x s' Hx. rewrite run_Chr. now rewrite (class_not_colon x Hx). }
  rewrite (drop_while_all_app _ _ _ Hcls). cbn [drop_while].
  change (upper_space_amp ":") with false. cbv iota.
  rewrite run_Chr. cbn [Ascii.eqb Bool.eqb]. unfold accept. do 2 f_equal. f_equal.
  change (d :: digits ++ "."%char :: " "%char :: c :: title' ++ ":"%char :: rest)
    with ((d :: digits) ++ "."%char :: " "%char :: (c :: title') ++ ":"%char :: rest).
  replace ((d :: digits) ++ "."%char :: " "%char :: (c :: title') ++ ":"%char :: rest)
    with (((d :: digits) ++ "."%char :: " "%char :: (c :: title') ++ [":"%char]) ++ rest).
  - rewrite firstn_pre. reflexivity.
  - rewrite <- !app_assoc. cbn [app]. do 3 f_equal. now rewrite <- app_assoc.
Qed.

Lemma skipn_label (label rest : str) : skipn (length label) (label ++ rest) = rest.
Proof. now rewrite skipn_app, Nat.sub_diag, skipn_all. Qed.

Lemma matches_field_prefix (label stop : str) (total : nat) (s : str) :
  matches (field_re label stop) total s = true -> is_prefix label s = true.
Proof.
  unfold matches. rewrite match_at_field. now destruct (is_prefix label s).
Qed.

Lemma matches_score_prefix (total : nat) (s : str) :
  matches score_re total s = true -> is_prefix (lit "Score:") s = true.
Proof.
  unfold matches. rewrite match_at_score. now destruct (is_prefix (lit "Score:") s).
Qed.

(** A field whose label is first found in front of [v], and whose stop text
    is first found after it: the parser gets [v], trimmed. *)
Lemma exec_field_capture (label stop a v rest : str) (c : ascii) (stop' : str) :
  stop = c :: stop' -> is_space c = false ->
  nowhere (is_prefix label) a (label ++ " "%char :: v ++ nl ++ stop ++ rest) = true ->
  nowhere (is_prefix stop) (v ++ nl) (stop ++ rest) = true ->
  captured_trim
    (exec (field_re label stop) (a ++ label ++ " "%char :: v ++ nl ++ stop ++ rest)) =
  trim v.
Proof.
  intros Hstop Hc Ha Hv.
  erewrite exec_first.
  2:{ eapply nowhere_impl; [apply matches_field_prefix | exact Ha]. }
  2:{ rewrite match_at_field, is_prefix_app, skipn_label. reflexivity. }
  cbn [captured_trim capture drop_while].
  change (is_space " ") with true. cbv iota.
  replace (v ++ nl ++ stop ++ rest) with ((v ++ nl) ++ stop ++ rest)
    by (now rewrite <- app_assoc).
  rewrite (drop_while_app_stop is_space (v ++ nl) (stop ++ rest) c (stop' ++ rest))
    by (subst; auto).
  rewrite until_app by (now apply nowhere_drop_while).
  change (trim ?x) with (strip is_space x).
  rewrite strip_drop_while. apply strip_app_all. reflexivity.
Qed.

(** The feedback runs to the end of its line. *)
Lemma exec_feedback_capture (a v rest : str) (c : ascii) (v' : str) :
  v = c :: v' -> is_space c = false ->
  forallb (fun x => negb (Ascii.eqb "010" x)) v = true ->
  nowhere (is_prefix (lit "Feedback:")) a
          (lit "Feedback:" ++ " "%char :: v ++ nl ++ rest) = true ->
  captured_trim
    (exec feedback_re (a ++ lit "Feedback:" ++ " "%char :: v ++ nl ++ rest)) =
  trim v.
Proof.
  intros Hv Hc Hline Ha. unfold feedback_re.
  erewrite exec_first.
  2:{ eapply nowhere_impl; [apply matches_field_prefix | exact Ha]. }
  2:{ rewrite match_at_field, is_prefix_app, skipn_label. reflexivity. }
  cbn [captured_trim capture drop_while].
  change (is_space " ") with true. cbv iota.
  rewrite Hv at 1. cbn [app drop_while]. rewrite Hc.
  change (c :: v' ++ nl ++ rest) with ((c :: v') ++ nl ++ rest). rewrite <- Hv.
  change (lit "
") with nl.
  rewrite until_app; [reflexivity|].
  apply nowhere_head. exact Hline.
Qed.

(** The score is read where the first [Score:] is followed by digits and
    [/10]. *)
Lemma exec_score_capture (a digits rest : str) :
  digits <> [] -> forallb is_digit digits = true ->
  nowhere (is_prefix (lit "Score:")) a
          (lit "Score:" ++ " "%char :: digits ++ lit "/10" ++ rest) = true ->
  parseInt (captured_or
              (exec score_re (a ++ lit "Score:" ++ " "%char :: digits ++ lit "/10" ++ rest))
              (lit "0")) =
  value digits.
Proof.
  intros Hne Hd Ha.
  rewrite (exec_first _ _ _ rest (Some digits)).
  - cbn [captured_or capture].
    destruct digits as [|d digits]; [contradiction|].
    unfold parseInt. now rewrite (take_while_all_id _ _ Hd).
  - eapply nowhere_impl; [apply matches_score_prefix | exact Ha].
  - rewrite match_at_score, is_prefix_app.
    change 6%nat with (length (lit "Score:")). rewrite skipn_label.
    cbn [drop_while]. change (is_space " ") with true. cbv iota.
    destruct digits as [|d digits]; [contradiction|].
    cbn [forallb] in Hd. apply andb_true_iff in Hd as [Hd Hds].
    cbn [app drop_while]. rewrite (digit_not_space d Hd).
    cbn [take_while drop_while]. rewrite Hd.
    rewrite (take_while_all_app _ _ _ Hds), (drop_while_all_app _ _ _ Hds).
    cbn. now rewrite app_nil_r.
Qed.

(** The numbering pattern takes the number, the full stop and the white
    space off a header. *)
Lemma match_at_numbering (digits t : str) (c : ascii) (t' : str) :
  digits <> [] -> forallb is_digit digits = true ->
  t = c :: t' -> is_space c = false ->
  match_at numbering_re (length (digits ++ lit ". " ++ t)) (digits ++ lit ". " ++ t) =
  Some (t, None).
Proof.
  intros Hne Hd -> Hc.
  destruct digits as [|d digits]; [contradiction|].
  cbn [forallb] in Hd. apply andb_true_iff in Hd as [Hd Hds].
  unfold match_at, numbering_re. rewrite run_Seq, run_Bos, Nat.eqb_refl.
  rewrite run_Seq. unfold digit. rewrite run_Plus_class. cbn [app]. rewrite Hd.
  rewrite greedy_scan_blocked.
  2:{ intros x s' Hx. rewrite run_Seq, run_Chr. now rewrite (digit_not_dot x Hx). }
  rewrite (drop_while_all_app _ _ _ Hds).
  cbn [lit list_ascii_of_string app drop_while is_digit].
  change (is_digit ".") with false. cbv iota.
  rewrite run_Seq, run_Chr. cbn [Ascii.eqb Bool.eqb].
  unfold space. rewrite run_Plus_class.
  change (is_space " ") with true. cbv iota.
  cbn [greedy_scan]. now rewrite Hc.
Qed.

Lemma remove_char_end (c : ascii) (t : str) :
  forallb (fun x => negb (Ascii.eqb c x)) t = true ->
  remove_char c (t ++ [c]) = t.
Proof.
  induction t as [|d t IH]; cbn [forallb app remove_char].
  - now rewrite Ascii.eqb_refl.
  - intros [H1 H2]%andb_true_iff. apply negb_true_iff in H1. rewrite H1.
    f_equal. now apply IH.
Qed.

Lemma title_no_colon (title : str) :
  forallb upper_space_amp title = true ->
  forallb (fun x => negb (Ascii.eqb ":" x)) title = true.
Proof.
  induction title as [|c t IH]; cbn [forallb]; [reflexivity|].
  intros [H1 H2]%andb_true_iff. rewrite (class_not_colon c H1). cbn. now apply IH.
Qed.

(** The type read off a section header is the section's title. *)
Lemma questionType_header (k : N) (s : Section_) :
  good_title (section_title s) ->
  questionType_of (Some (section_header k s)) = section_title s.
Proof.
  intros (Hcls & c & t' & Ht & Hc).
  unfold questionType_of, section_header, remove_first, exec.
  replace (decimal k ++ lit ". " ++ section_title s ++ lit ":")
    with (decimal k ++ lit ". " ++ (section_title s ++ lit ":")) by reflexivity.
  rewrite (search_found _ _ _ _ (section_title s ++ lit ":") None).
  - cbn [before after rev app]. apply remove_char_end, title_no_colon, Hcls.
  - apply (match_at_numbering _ _ c (t' ++ lit ":")).
    + apply decimal_nonempty.
    + apply decimal_digits.
    + now rewrite Ht.
    + exact Hc.
Qed.

Lemma exec_field_found (label stop a rest : str) :
  nowhere (is_prefix label) a (label ++ rest) = true ->
  exec (field_re label stop) (a ++ label ++ rest) <> None.
Proof.
  intros Ha. erewrite exec_first.
  - discriminate.
  - eapply nowhere_impl; [apply matches_field_prefix | exact Ha].
  - rewrite match_at_field, is_prefix_app. reflexivity.
Qed.

Lemma digits_not_F (digits : str) :
  forallb is_digit digits = true ->
  forallb (fun c => negb (Ascii.eqb "F" c)) digits = true.
Proof.
  induction digits as [|d digits IH]; cbn [forallb]; [reflexivity|].
  intros [H1 H2]%andb_true_iff. rewrite (IH H2), andb_true_r.
  revert H1. destruct d as [[] [] [] [] [] [] [] []]; vm_compute; congruence.
Qed.

(** Brings both sides of an equation between texts to the same
    right-nested form. *)
Ltac text_eq :=
  repeat first [ rewrite <- !app_assoc
               | progress cbn [app lit list_ascii_of_string nl] ];
  reflexivity.

Lemma nowhere_chunk (l : str) (x : ascii) (l' a rest : str) :
  l = x :: l' ->
  forallb (fun c => negb (Ascii.eqb x c)) a = true ->
  nowhere (is_prefix l) a rest = true.
Proof. intros ->. apply nowhere_head. Qed.

Lemma nowhere_text (l t follow : str) (c : ascii) (follow' : str) :
  follow = c :: follow' ->
  forallb (fun x => negb (Ascii.eqb x c)) l = true ->
  occurs l t = false ->
  nowhere (is_prefix l) t follow = true.
Proof. intros ->. apply nowhere_occurs. Qed.

(** Shows that a label starts nowhere in a text made of fixed chunks, of
    field texts that do not contain it, and of digits. *)
Ltac no_label :=
  rewrite ?nowhere_app;
  repeat (apply andb_true_iff; split);
  first
    [ reflexivity
    | eapply nowhere_chunk; [reflexivity | reflexivity]
    | eapply nowhere_text; [reflexivity | reflexivity | assumption]
    | eapply nowhere_chunk; [reflexivity | apply digits_not_F; assumption] ].

(** One section, with whatever follows its body in the same piece: the
    parser gives the section back. *)
Lemma parse_section_body (k : N) (s : Section_) (X : str) :
  well_formed s ->
  parse_section (Some (section_header k s)) (section_body s ++ X) = Some (expected s).
Proof.
  intros [Ht Hq Hr Hf Hfne Hfl (Hq1 & Hq2 & Hq3) (Hr1 & Hr2) (Hsne & Hsd)].
  unfold parse_section. rewrite (questionType_header k s Ht).
  destruct Ht as (Hcls & c & t' & Htitle & Hc).
  set (q := section_question s) in *. set (r := section_response s) in *.
  set (sc := section_score s) in *. set (fb := section_feedback s) in *.
  set (rest4 := nl ++ X).
  set (rest3 := lit "/10" ++ nl ++ lit "Feedback:" ++ " "%char :: fb ++ nl ++ rest4).
  set (rest2 := " "%char :: sc ++ rest3).
  set (rest1 := " "%char :: r ++ nl ++ lit "Score:" ++ rest2).
  set (content := section_body s ++ X).
  assert (E1 : content =
               nl ++ lit "Question:" ++ " "%char :: q ++ nl ++ lit "Your Response:" ++ rest1).
  { unfold content, section_body, rest1, rest2, rest3, rest4. fold q r sc fb. text_eq. }
  assert (E2 : content =
               ((nl ++ lit "Question: ") ++ q ++ nl) ++
               lit "Your Response:" ++ " "%char :: r ++ nl ++ lit "Score:" ++ rest2).
  { rewrite E1. unfold rest1. text_eq. }
  assert (E3 : content =
               ((nl ++ lit "Question: ") ++ q ++ (nl ++ lit "Your Response: ") ++ r ++ nl) ++
               lit "Score:" ++ " "%char :: sc ++ lit "/10" ++
               (nl ++ lit "Feedback:" ++ " "%char :: fb ++ nl ++ rest4)).
  { rewrite E2. unfold rest2, rest3. text_eq. }
  assert (E4 : content =
               ((nl ++ lit "Question: ") ++ q ++ (nl ++ lit "Your Response: ") ++ r ++
                (nl ++ lit "Score: ") ++ sc ++ (lit "/10" ++ nl)) ++
               lit "Feedback:" ++ " "%char :: fb ++ nl ++ rest4).
  { rewrite E3. text_eq. }
  (* the question *)
  assert (Q : captured_trim (exec question_re content) = q).
  { rewrite E1. unfold question_re.
    rewrite (exec_field_capture _ _ _ _ _ "Y" (lit "our Response:")); try reflexivity.
    - exact Hq.
    - no_label. }
  assert (Qf : exec question_re content <> None).
  { rewrite E1. apply exec_field_found. reflexivity. }
  (* the response *)
  assert (R : captured_trim (exec response_re content) = r).
  { rewrite E2. unfold response_re.
    rewrite (exec_field_capture _ _ _ _ _ "S" (lit "core:")); try reflexivity.
    - exact Hr.
    - no_label.
    - no_label. }
  (* the score *)
  assert (S : parseInt (captured_or (exec score_re content) (lit "0")) = value sc).
  { rewrite E3. apply exec_score_capture; auto. no_label. }
  (* the feedback *)
  assert (F : captured_trim (exec feedback_re content) = fb).
  { rewrite E4.
    destruct fb as [|f fb'] eqn:Efb; [contradiction|].
    rewrite (exec_feedback_capture _ _ _ f fb'); auto.
    - apply (strip_fixed_head is_space f fb' Hf).
    - no_label. }
  unfold expected. fold q r sc fb. rewrite Q, R, S, F, Htitle.
  destruct (exec question_re content); [reflexivity | contradiction].
Qed.

(** *** Splitting at the headers *)

Lemma split_from_skip (r : re) (total : nat) (piece h s : str) :
  split_from r total piece (length h) (h ++ s) = split_from r total piece 0 s.
Proof. induction h as [|c h IH]; [reflexivity | exact IH]. Qed.

Lemma split_from_quiet (r : re) (total : nat) (piece a rest : str) :
  nowhere (matches r total) a rest = true ->
  split_from r total piece 0 (a ++ rest) = split_from r total (piece ++ a) 0 rest.
Proof.
  revert piece. induction a as [|c a IH]; intros piece.
  - intros _. now rewrite app_nil_r.
  - cbn [nowhere]. intros [H1 H2]%andb_true_iff.
    apply negb_true_iff in H1. unfold matches in H1.
    cbn [app split_from] in *.
    destruct (match_at r total (c :: a ++ rest)); [discriminate|].
    rewrite (IH _ H2), <- app_assoc. reflexivity.
Qed.

Lemma split_from_match (r : re) (total : nat) (piece h rest : str) (cap : option str) :
  h <> [] ->
  match_at r total (h ++ rest) = Some (rest, cap) ->
  split_from r total piece 0 (h ++ rest) =
  Some piece :: cap :: split_from r total [] 0 rest.
Proof.
  intros Hne Hm. destruct h as [|c h]; [contradiction|].
  cbn [app split_from] in *. rewrite Hm.
  replace (length (c :: h ++ rest) - length rest)%nat with (S (length h))
    by (cbn [length]; rewrite length_app; lia).
  now rewrite split_from_skip.
Qed.

Lemma split_header (s : str) :
  split header_re s = split_from header_re (length s) [] 0 s.
Proof. destruct s; reflexivity. Qed.

Lemma section_header_nonempty (k : N) (s : Section_) : section_header k s <> [].
Proof.
  unfold section_header. intros E. apply app_eq_nil in E as [E _].
  now apply decimal_nonempty in E.
Qed.

(** The rendered sections are cut at their headers. *)
Lemma split_pieces (total : nat) (sections : list Section_) (tail : str) :
  Forall well_formed sections ->
  forall (k : N) (piece : str),
    headers_only k sections tail = true ->
    split_from header_re total piece 0 (render_sections k sections ++ tail) =
    pieces piece k sections tail.
Proof.
  induction 1 as [|s rest Hs _ IH]; intros k piece Hh; cbn [headers_only] in Hh.
  - cbn [render_sections pieces app].
    rewrite <- (app_nil_r tail) at 1.
    rewrite split_from_quiet
      by (now rewrite (nowhere_unanchored header_re total 0)).
    reflexivity.
  - apply andb_true_iff in Hh as [Hbody Hrest].
    cbn [render_sections pieces]. unfold render_section.
    rewrite <- !app_assoc.
    rewrite (split_from_match _ _ _ _ _ (Some (section_header k s))).
    + rewrite split_from_quiet
        by (now rewrite (nowhere_unanchored header_re total 0)).
      cbn [app]. f_equal. f_equal. now apply IH.
    + apply section_header_nonempty.
    + unfold section_header. rewrite <- !app_assoc.
      apply match_at_header; [apply decimal_nonempty | apply decimal_digits |].
      apply (wf_title s Hs).
Qed.

(** The loop over the pieces gives the sections back. *)
Lemma parse_pieces (sections : list Section_) (tail : str) :
  Forall well_formed sections ->
  forall (k : N) (piece : str),
    parse_sections (tl (pieces piece k sections tail)) = map expected sections.
Proof.
  induction 1 as [|s rest Hs _ IH]; intros k piece; [reflexivity|].
  cbn [pieces tl map]. rewrite <- (IH (N.succ k) (section_body s)).
  destruct rest as [|s' rest]; cbn [pieces tl parse_sections].
  - now rewrite (parse_section_body k s tail Hs).
  - rewrite <- (app_nil_r (section_body s)) at 1.
    now rewrite (parse_section_body k s [] Hs).
Qed.

(** C5 (amended). A summary in the contract format, whose sections are
    well formed (titles in capitals, trimmed texts free of the later
    labels, a one-line feedback, an integer score) and in which the header
    pattern matches at the section headers only, is parsed back into its
    sections: type, question, response, score and feedback of each, in
    order.  (Nothing is said here of the strengths and improvements.) *)
Theorem summary_sections_round_trip (score : float) (sections : list Section_)
    (strengths improvements : list str) :
  Forall well_formed sections ->
  headers_only 1 sections (render_lists strengths improvements) = true ->
  questions (parseInterviewSummary score
               (build_summary sections strengths improvements)) =
  map expected sections.
Proof.
  intros Hwf Hh. unfold parseInterviewSummary, build_summary.
  cbn [questions]. rewrite split_header.
  rewrite (split_pieces _ _ _ Hwf 1%N [] Hh).
  now apply parse_pieces.
Qed.

(** *** The bullet lists *)

Lemma star_loop_greedy_total (body : str -> option str -> Cont -> option Result)
    (k : Cont) (fuel : nat) (s : str) (cap : option str) :
  (forall s' c, k s' c <> None) ->
  star_loop true body k fuel s cap <> None.
Proof.
  intros Hk. destruct fuel; cbn [star_loop]; [apply Hk|].
  destruct (body s cap _); [discriminate | apply Hk].
Qed.

Lemma matches_bullets_prefix (label : str) (total : nat) (s : str) :
  matches (bullets_re label) total s = true -> is_prefix label s = true.
Proof.
  unfold matches, match_at, bullets_re. rewrite run_Seq, run_Lit.
  now destruct (is_prefix label s).
Qed.

Lemma star_loop_step (greedy : bool)
    (body : str -> option str -> Cont -> option Result) (k : Cont)
    (fuel : nat) (s : str) (cap : option str) :
  star_loop greedy body k (S fuel) s cap =
  let again :=
    body s cap (fun s' cap' =>
                  if (length s' <? length s)%nat
                  then star_loop greedy body k fuel s' cap' else None) in
  if greedy then
    match again with
    | Some result => Some result
    | None => k s cap
    end
  else
    match k s cap with
    | Some result => Some result
    | None => again
    end.
Proof. destruct greedy; reflexivity. Qed.

(** One bullet of the pattern, [-.*?\n?]: after the dash, the lazy [.*?]
    hands over at once to a continuation that accepts. *)
Lemma run_bullet (total : nat) (c : ascii) (rest : str) (cap : option str)
    (k : Cont) (result : Result) :
  Ascii.eqb "010" c = false ->
  k (c :: rest) cap = Some result ->
  run (Seq (Chr "-") (Seq (Lazy dot) (Opt (Chr "010")))) total
      ("-"%char :: c :: rest) cap k = Some result.
Proof.
  intros Hnl Hk. rewrite run_Seq, run_Chr. cbn [Ascii.eqb Bool.eqb].
  rewrite run_Seq, run_Lazy_dot. cbn [lazy_scan].
  unfold Opt. cbn [run]. now rewrite Hnl, Hk.
Qed.

Lemma run_bullet_fails (total : nat) (c : ascii) (rest : str) (cap : option str)
    (k : Cont) :
  Ascii.eqb "-" c = false ->
  run (Seq (Chr "-") (Seq (Lazy dot) (Opt (Chr "010")))) total (c :: rest) cap k = None.
Proof. intros H. now rewrite run_Seq, run_Chr, H. Qed.

(** After the label and the white space, the bullet pattern takes a dash
    and stops: its lazy [.*?] is followed by nothing that has to match, so
    it takes no character, and the next round wants a dash at once. *)
Lemma match_at_bullets (label ws rest : str) (c : ascii) (total : nat) :
  forallb is_space ws = true ->
  Ascii.eqb "-" c = false -> Ascii.eqb "010" c = false ->
  match_at (bullets_re label) total (label ++ ws ++ "-"%char :: c :: rest) =
  Some (c :: rest, Some ["-"%char]).
Proof.
  intros Hws Hdash Hnl. unfold match_at, bullets_re.
  rewrite run_Seq, run_Lit, is_prefix_app, skipn_label.
  rewrite run_Seq. unfold space. rewrite run_Many_class.
  rewrite greedy_scan_total.
  2:{ intros s'. rewrite run_Group. apply star_loop_greedy_total. discriminate. }
  rewrite (drop_while_all_app _ _ _ Hws). cbn [drop_while].
  change (is_space "-") with false. cbv iota.
  rewrite run_Group. unfold Many.
  change (run (Star true ?b) total ?s ?cap ?k)
    with (star_loop true (run b total) k (length s) s cap).
  cbn [length]. rewrite star_loop_step. cbv zeta iota.
  erewrite run_bullet; [reflexivity | exact Hnl |].
  replace (length (c :: rest) <? length ("-"%char :: c :: rest))%nat with true
    by (symmetry; apply Nat.ltb_lt; cbn; lia).
  rewrite star_loop_step. cbv zeta iota.
  rewrite (run_bullet_fails _ _ _ _ _ Hdash).
  unfold accept. do 3 f_equal.
  cbn [length]. rewrite Nat.sub_succ_l, Nat.sub_diag by lia. reflexivity.
Qed.

(** So a list whose first bullet is written [- item] comes back as one
    empty item, whatever the items were. *)
Lemma bullets_come_back_empty (label a ws rest : str) (c : ascii) :
  forallb is_space ws = true ->
  Ascii.eqb "-" c = false -> Ascii.eqb "010" c = false ->
  nowhere (is_prefix label) a (label ++ ws ++ "-"%char :: c :: rest) = true ->
  bullets_of (exec (bullets_re label) (a ++ label ++ ws ++ "-"%char :: c :: rest)) =
  [[]].
Proof.
  intros Hws Hdash Hnl Ha.
  rewrite (exec_first _ _ _ (c :: rest) (Some ["-"%char])).
  - reflexivity.
  - eapply nowhere_impl; [apply matches_bullets_prefix | exact Ha].
  - now apply match_at_bullets.
Qed.

(** The strengths of a summary in the contract format are lost: whenever
    there is at least one, the parser returns a single empty item. *)
Lemma strengths_come_back_empty (score : float) (sections : list Section_)
    (item : str) (items improvements : list str) :
  nowhere (is_prefix (lit "Strengths:")) (render_sections 1 sections)
          (render_lists (item :: items) improvements) = true ->
  strengths (parseInterviewSummary score
               (build_summary sections (item :: items) improvements)) = [[]].
Proof.
  intros H. unfold parseInterviewSummary, build_summary. cbn [strengths].
  unfold strengths_re. revert H. unfold render_lists, render_bullets.
  cbn [map concat]. rewrite <- !app_assoc. intros H.
  exact (bullets_come_back_empty (lit "Strengths:") _ nl _ " " eq_refl eq_refl eq_refl H).
Qed.

(** The sample sections keep to the contract. *)
Lemma sample_sections_well_formed :
  Forall well_formed [Samples.intro_section; Samples.theory_section].
Proof.
  repeat constructor; try reflexivity; try discriminate;
    eexists _, _; split; reflexivity.
Defined.

Lemma summary_sections_round_trip_witness :
  questions (parseInterviewSummary 8 Samples.sample_summary) =
  [ {| type := lit "INTRODUCTION";
       question := lit "Which Excel features do you use? E.g. cell A1. Or ranges?";
       response := lit "Daily: formulas such as =SUM(A1:A3), and pivot tables.";
       score := 8;
       feedback := lit "Clear and concrete." |};
    {| type := lit "THEORY";
       question := lit "What does VLOOKUP do?";
       response := lit "It looks a value up in the first column of a range.";
       score := 7;
       feedback := lit "Correct, if brief." |} ].
Proof.
  exact (summary_sections_round_trip 8
           [Samples.intro_section; Samples.theory_section]
           Samples.sample_strengths Samples.sample_improvements
           sample_sections_well_formed eq_refl).
Defined.

(** C5, as stated, fails: in a summary in the contract format the score
    written 7.5 is read as 0, and the two strengths and the improvement
    come back as one empty item each. *)
Lemma summary_round_trip_fails :
  let parsed := parseInterviewSummary 8 Samples.sample_summary_decimal in
  section_score Samples.theory_section_decimal = lit "7.5" /\
  map score (questions parsed) = [8; 0]%N /\
  strengths parsed = [[]] /\
  strengths parsed <> Samples.sample_strengths /\
  improvements parsed = [[]] /\
  improvements parsed <> Samples.sample_improvements.
Proof. vm_compute. repeat split; discriminate. Qed.

(** *** What the score pattern finds *)

Lemma search_some (r : re) (total : nat) (pre s : str) (found : MatchResult) :
  search r total pre s = Some found ->
  exists a s',
    s = a ++ s' /\ match_at r total s' = Some (after found, capture found).
Proof.
  revert pre. induction s as [|c s IH]; intros pre; cbn [search].
  - destruct (match_at r total []) as [[rest cap]|] eqn:E; [|discriminate].
    intros [= <-]. exists [], []. now rewrite E.
  - destruct (match_at r total (c :: s)) as [[rest cap]|] eqn:E.
    + intros [= <-]. exists [], (c :: s). now rewrite E.
    + intros H. destruct (IH _ H) as (a & s' & -> & Hm).
      now exists (c :: a), s'.
Qed.


Lemma occurs_app (l pre post : str) : occurs l (pre ++ l ++ post) = true.
Proof.
  induction pre as [|c pre IH]; cbn [app].
  - destruct (l ++ post) eqn:E; cbn [occurs]; rewrite <- E, is_prefix_app; reflexivity.
  - cbn [occurs]. rewrite IH. apply orb_true_r.
Qed.

Lemma nowhere_absent (l t : str) :
  occurs l t = false -> nowhere (is_prefix l) t [] = true.
Proof.
  induction t as [|c t IH]; cbn [nowhere occurs]; [reflexivity|].
  intros [H1 H2]%orb_false_iff. now rewrite app_nil_r, H1, IH.
Qed.

(** A field whose label is absent is not found. *)
Lemma exec_field_absent (label stop content : str) (c : ascii) (label' : str) :
  label = c :: label' ->
  occurs label content = false ->
  exec (field_re label stop) content = None.
Proof.
  intros Hl H. apply search_none.
  - eapply nowhere_impl; [apply matches_field_prefix | now apply nowhere_absent].
  - rewrite match_at_field, Hl. reflexivity.
Qed.






End InterviewResultsFacts.

(** ** What a pattern needs of the input *)

Module RegexAnalysisFacts.

Import JS Regex RegexAnalysis RegexFacts InterviewResultsFacts.

Lemma all_chars_complete (c : ascii) : In c all_chars.
Proof.
  unfold all_chars. rewrite <- (ascii_nat_embedding c).
  apply in_map, in_seq. pose proof (nat_ascii_bounded c). lia.
Qed.

Lemma without_suffix (P : ascii -> bool) (s' s : str) :
  s' `suffix_of` s -> without P s = true -> without P s' = true.
Proof.
  intros [pre ->]. unfold without. rewrite forallb_app.
  now intros [_ H]%andb_true_iff.
Qed.

(** The matcher succeeds through its continuation only, which it calls
    on what is left of the input. *)
Lemma star_loop_none (greedy : bool)
    (body : str -> option str -> Cont -> option Result) (k : Cont) (fuel : nat) :
  (forall s0 cap0 k0,
     (forall s' cap', s' `suffix_of` s0 -> k0 s' cap' = None) ->
     body s0 cap0 k0 = None) ->
  forall s cap,
    (forall s' cap', s' `suffix_of` s -> k s' cap' = None) ->
    star_loop greedy body k fuel s cap = None.
Proof.
  intros Hbody. induction fuel as [|fuel IH]; intros s cap Hk.
  - cbn. now apply Hk.
  - rewrite star_loop_step. cbv zeta.
    rewrite (Hk s cap) by reflexivity. rewrite Hbody; [now destruct greedy|].
    intros s' cap' Hs'. destruct (length s' <? length s)%nat; [|reflexivity].
    apply IH. intros s'' cap'' Hs''. apply Hk. now transitivity s'.
Qed.

Lemma run_none (r : re) (total : nat) :
  forall s cap k,
    (forall s' cap', s' `suffix_of` s -> k s' cap' = None) ->
    run r total s cap k = None.
Proof.
  induction r as [c|p| |r1 IH1 r2 IH2|r1 IH1 r2 IH2|g r1 IH1|r1 IH1|r1 IH1| |];
    intros s cap k Hk; cbn [run].
  - destruct s as [|d s]; [reflexivity|].
    destruct (Ascii.eqb c d); [|reflexivity]. apply Hk, suffix_cons_r. reflexivity.
  - destruct s as [|d s]; [reflexivity|].
    destruct (p d); [|reflexivity]. apply Hk, suffix_cons_r. reflexivity.
  - now apply Hk.
  - apply IH1. intros s' cap' Hs'. apply IH2.
    intros s'' cap'' Hs''. apply Hk. now transitivity s'.
  - now rewrite IH1, IH2.
  - apply star_loop_none; [|exact Hk]. intros s0 cap0 k0. apply IH1.
  - apply IH1. intros s' _ Hs'. now apply Hk.
  - destruct (run r1 total s cap _) as [[? cap']|]; [|reflexivity]. now apply Hk.
  - destruct (length s =? total)%nat; [|reflexivity]. now apply Hk.
  - destruct s; [|reflexivity]. now apply Hk.
Qed.

(** A pattern that needs a character of [P] fails on an input without
    one, whatever follows the pattern. *)
Lemma run_needs (P : ascii -> bool) (r : re) (total : nat) :
  needs P r = true ->
  forall s cap k, without P s = true -> run r total s cap k = None.
Proof.
  induction r as [c|p| |r1 IH1 r2 IH2|r1 IH1 r2 IH2|g r1 IH1|r1 IH1|r1 IH1| |];
    cbn [needs]; intros Hn s cap k Hs; try discriminate; cbn [run].
  - destruct s as [|d s]; [reflexivity|].
    destruct (Ascii.eqb_spec c d) as [<-|]; [|reflexivity].
    cbn in Hs. now rewrite Hn in Hs.
  - destruct s as [|d s]; [reflexivity|].
    rewrite forallb_forall in Hn. specialize (Hn d (all_chars_complete d)).
    cbn in Hs. apply andb_true_iff in Hs as [Hd _].
    destruct (p d); [|reflexivity]. cbn in Hn. now rewrite Hn in Hd.
  - apply orb_true_iff in Hn as [Hn|Hn]; [now apply IH1|].
    apply run_none. intros s' cap' Hs'. apply IH2; [exact Hn|].
    now apply (without_suffix P s' s).
  - apply andb_true_iff in Hn as [Hn1 Hn2]. now rewrite IH1, IH2.
  - now apply IH1.
  - now rewrite IH1.
Qed.

Lemma matches_needs (P : ascii -> bool) (r : re) (total : nat) (s : str) :
  needs P r = true -> without P s = true -> matches r total s = false.
Proof.
  intros Hn Hs. unfold matches, match_at. now rewrite (run_needs P r total Hn).
Qed.

Lemma nowhere_needs (P : ascii -> bool) (r : re) (total : nat) (a rest : str) :
  needs P r = true -> without P (a ++ rest) = true ->
  nowhere (matches r total) a rest = true.
Proof.
  intros Hn Hs. induction a as [|c a IH]; cbn [nowhere]; [reflexivity|].
  rewrite (matches_needs P r total _ Hn Hs). cbn.
  apply IH. cbn in Hs. now apply andb_true_iff in Hs as [_ Hs].
Qed.

(** A pattern that starts with a character of [P] fails where the input
    starts otherwise. *)
Lemma run_starts (P : ascii -> bool) (r : re) (total : nat) :
  starts P r = true ->
  forall s cap k,
    match s with c :: _ => P c = false | [] => True end ->
    run r total s cap k = None.
Proof.
  induction r as [c|p| |r1 IH1 r2 IH2|r1 IH1 r2 IH2|g r1 IH1|r1 IH1|r1 IH1| |];
    cbn [starts]; intros Hn s cap k Hs; try discriminate; cbn [run].
  - destruct s as [|d s]; [reflexivity|].
    destruct (Ascii.eqb_spec c d) as [<-|]; [|reflexivity]. congruence.
  - destruct s as [|d s]; [reflexivity|].
    rewrite forallb_forall in Hn. specialize (Hn d (all_chars_complete d)).
    destruct (p d); [|reflexivity]. cbn in Hn. congruence.
  - now apply IH1.
  - apply andb_true_iff in Hn as [Hn1 Hn2]. now rewrite IH1, IH2.
  - now apply IH1.
  - now rewrite IH1.
Qed.

Lemma nowhere_starts (P : ascii -> bool) (r : re) (total : nat) (a rest : str) :
  starts P r = true -> without P a = true ->
  nowhere (matches r total) a rest = true.
Proof.
  intros Hn. induction a as [|c a IH]; cbn [nowhere without forallb]; [reflexivity|].
  intros [Hc Ha]%andb_true_iff. apply negb_true_iff in Hc.
  unfold matches, match_at. rewrite (run_starts P r total Hn) by exact Hc.
  cbn. now apply IH.
Qed.

(** Such a pattern is found nowhere in the input. *)
Lemma exec_needs (P : ascii -> bool) (r : re) (s : str) :
  needs P r = true -> without P s = true -> exec r s = None.
Proof.
  intros Hn Hs. apply search_none.
  - apply (nowhere_needs P); [exact Hn | now rewrite app_nil_r].
  - apply (run_needs P); [exact Hn | reflexivity].
Qed.

End RegexAnalysisFacts.

(** ** [parseInterviewSummary] on summaries of any shape *)

Module SummaryFacts.

Import JS Regex RegexAnalysis InterviewResults.
Import StrFacts RegexFacts InterviewResultsFacts RegexAnalysisFacts.

(** A summary without a colon has no section, no strength and no
    improvement for the parser: every pattern of [parseInterviewSummary]
    ends a label or a header with one.  The fallback summary of the
    interactive interview is such a text. *)
Theorem summary_without_colon (score : float) (summary : str) :
  without is_colon summary = true ->
  parseInterviewSummary score summary =
  {| questions := []; strengths := []; improvements := [];
     overallScore := score |}.
Proof.
  intros H. unfold parseInterviewSummary.
  rewrite split_header.
  pose proof (split_from_quiet header_re (length summary) [] summary []) as Hs.
  rewrite app_nil_r in Hs. rewrite Hs.
  2:{ apply (nowhere_needs is_colon); [reflexivity | now rewrite app_nil_r]. }
  unfold strengths_re, improvements_re.
  rewrite !(exec_needs is_colon) by (reflexivity || exact H).
  reflexivity.
Qed.

Lemma summary_without_colon_witness :
  parseInterviewSummary 7.5
    (lit (InteractiveInterview.overall_summary
            (InteractiveInterview.fallbackResults "2025-01-01T00:00:00.000Z"))) =
  {| questions := []; strengths := []; improvements := [];
     overallScore := 7.5 |}.
Proof. apply summary_without_colon. reflexivity. Defined.

(** *** The bullet lists, whatever the summary *)

Lemma bullet_run_newline (s : str) :
  bullet_run ("-"%char :: "010"%char :: s) = "-"%char :: "010"%char :: bullet_run s.
Proof. reflexivity. Qed.

Lemma bullet_run_dash (s : str) :
  after_dash s = s -> bullet_run ("-"%char :: s) = "-"%char :: bullet_run s.
Proof.
  destruct s as [|d s]; [reflexivity|].
  destruct (Ascii.eqb_spec d "010") as [->|Hd].
  - cbn [after_dash]. intros E. apply (f_equal (@length ascii)) in E. cbn in E. lia.
  - intros _. destruct d as [[] [] [] [] [] [] [] []]; try reflexivity. now elim Hd.
Qed.

Lemma bullet_run_other (c : ascii) (s : str) :
  is_dash c = false -> bullet_run (c :: s) = [].
Proof.
  unfold is_dash. intros Hc.
  destruct c as [[] [] [] [] [] [] [] []]; try reflexivity. discriminate Hc.
Qed.

Lemma after_dash_cases (s : str) :
  (exists s', s = "010"%char :: s' /\ after_dash s = s') \/ after_dash s = s.
Proof.
  destruct s as [|d s]; [now right|].
  destruct (Ascii.eqb_spec d "010") as [->|Hd]; [left; now exists s|right].
  destruct d as [[] [] [] [] [] [] [] []]; try reflexivity. now elim Hd.
Qed.

Lemma length_after_dash (s : str) : length (after_dash s) <= length s.
Proof.
  destruct (after_dash_cases s) as [(s' & -> & ->)| ->]; cbn; lia.
Qed.

(** What is left after the run is what is left after the first dash and
    the run that follows it. *)
Lemma bullet_run_rest (s : str) :
  skipn (length (bullet_run ("-"%char :: s))) ("-"%char :: s) =
  skipn (length (bullet_run (after_dash s))) (after_dash s).
Proof.
  destruct (after_dash_cases s) as [(s' & -> & ->)|E].
  - reflexivity.
  - rewrite (bullet_run_dash s E), E. reflexivity.
Qed.

Lemma bullet_run_dashes (s : str) :
  forallb dash_or_newline (bullet_run s) = true /\
  firstn (length (bullet_run s)) s = bullet_run s.
Proof.
  induction s as [s IH] using (induction_ltof1 _ (@length ascii)).
  unfold ltof in IH.
  destruct s as [|c s]; [now split|].
  destruct (is_dash c) eqn:Hc.
  - apply Ascii.eqb_eq in Hc as ->.
    destruct (after_dash_cases s) as [(s' & -> & _)|E].
    + rewrite bullet_run_newline. destruct (IH s') as [H1 H2]; [cbn; lia|].
      cbn [forallb length firstn]. now rewrite H1, H2.
    + rewrite (bullet_run_dash s E). destruct (IH s) as [H1 H2]; [cbn; lia|].
      cbn [forallb length firstn]. now rewrite H1, H2.
  - now rewrite (bullet_run_other c s Hc).
Qed.

(** One round of the group on an input that starts with a dash: the lazy
    [.*?] hands over at once, and the optional line feed is taken when it
    is there. *)
Lemma run_bullet_round (total : nat) (s : str) (cap : option str)
    (k : Cont) (result : Result) :
  k (after_dash s) cap = Some result ->
  run (Seq (Chr "-") (Seq (Lazy dot) (Opt (Chr "010")))) total
      ("-"%char :: s) cap k = Some result.
Proof.
  intros Hk. rewrite run_Seq, run_Chr. cbn [Ascii.eqb Bool.eqb].
  rewrite run_Seq, run_Lazy_dot.
  assert (H : run (Opt (Chr "010")) total s cap k = Some result).
  { unfold Opt. cbn [run].
    destruct (after_dash_cases s) as [(s' & -> & E)|E]; rewrite E in Hk.
    - cbn [Ascii.eqb Bool.eqb]. now rewrite Hk.
    - destruct s as [|d s]; [now rewrite Hk|].
      destruct (Ascii.eqb "010" d) eqn:Hd; [|now rewrite Hk].
      apply Ascii.eqb_eq in Hd as <-. cbn [after_dash] in E.
      apply (f_equal (@length ascii)) in E. cbn in E. lia. }
  destruct s; cbn [lazy_scan]; now rewrite H.
Qed.

Lemma run_bullet_none (total : nat) (s : str) (cap : option str) (k : Cont) :
  match s with c :: _ => is_dash c = false | [] => True end ->
  run (Seq (Chr "-") (Seq (Lazy dot) (Opt (Chr "010")))) total s cap k = None.
Proof.
  intros H. rewrite run_Seq, run_Chr. destruct s as [|c s]; [reflexivity|].
  unfold is_dash in H. rewrite Ascii.eqb_sym, H. reflexivity.
Qed.

(** The greedy repetition of the group takes [bullet_run], when what
    follows the repetition cannot fail. *)
Lemma star_bullets (total : nat) (k : Cont) :
  (forall s c, k s c <> None) ->
  forall fuel s cap,
    length s <= fuel ->
    star_loop true (run (Seq (Chr "-") (Seq (Lazy dot) (Opt (Chr "010")))) total)
              k fuel s cap =
    k (skipn (length (bullet_run s)) s) cap.
Proof.
  intros Hk. induction fuel as [|fuel IH]; intros s cap Hfuel.
  - destruct s; [reflexivity | cbn in Hfuel; lia].
  - rewrite star_loop_step. cbv zeta iota.
    destruct s as [|c s].
    + now rewrite run_bullet_none.
    + destruct (is_dash c) eqn:Hc.
      * apply Ascii.eqb_eq in Hc as ->.
        rewrite bullet_run_rest.
        pose proof (length_after_dash s) as Hl. cbn in Hfuel.
        destruct (k (skipn (length (bullet_run (after_dash s))) (after_dash s)) cap)
          as [result|] eqn:E; [|now apply Hk in E].
        erewrite run_bullet_round; [reflexivity|].
        replace (length (after_dash s) <? length ("-"%char :: s))%nat with true
          by (symmetry; apply Nat.ltb_lt; cbn; lia).
        rewrite IH by lia. exact E.
      * rewrite run_bullet_none by exact Hc.
        now rewrite (bullet_run_other c s Hc).
Qed.

(** The bullet pattern where it matches: after the label and the white
    space it captures [bullet_run] of what follows, nothing more. *)
Lemma match_at_bullets_run (label : str) (total : nat) (s : str) :
  match_at (bullets_re label) total s =
  if is_prefix label s then
    let t := drop_while is_space (skipn (length label) s) in
    Some (skipn (length (bullet_run t)) t, Some (bullet_run t))
  else None.
Proof.
  unfold match_at, bullets_re. rewrite run_Seq, run_Lit.
  destruct (is_prefix label s); [|reflexivity].
  rewrite run_Seq. unfold space. rewrite run_Many_class.
  rewrite greedy_scan_total.
  2:{ intros s'. rewrite run_Group. apply star_loop_greedy_total. discriminate. }
  cbv zeta. set (t := drop_while is_space (skipn (length label) s)).
  rewrite run_Group. unfold Many.
  change (run (Star true ?b) total ?s ?cap ?k)
    with (star_loop true (run b total) k (length s) s cap).
  rewrite star_bullets by (discriminate || reflexivity).
  unfold accept. do 3 f_equal.
  destruct (bullet_run_dashes t) as [_ Hp]. rewrite <- Hp at 2.
  f_equal. rewrite length_skipn.
  assert (length (bullet_run t) <= length t).
  { rewrite <- Hp. rewrite length_firstn. lia. }
  lia.
Qed.

Lemma forallb_drop_while (p q : ascii -> bool) (s : str) :
  forallb p s = true -> forallb p (drop_while q s) = true.
Proof.
  induction s as [|c s IH]; cbn; [reflexivity|].
  intros [Hc Hs]%andb_true_iff. destruct (q c); [now apply IH|].
  cbn. now rewrite Hc, Hs.
Qed.

Lemma forallb_trim (p : ascii -> bool) (s : str) :
  forallb p s = true -> forallb p (trim s) = true.
Proof.
  intros H. unfold trim, trimEnd, trimStart.
  rewrite forallb_rev. apply forallb_drop_while.
  rewrite forallb_rev. now apply forallb_drop_while.
Qed.

Lemma forallb_remove_char (p : ascii -> bool) (c : ascii) (s : str) :
  forallb p s = true -> forallb p (remove_char c s) = true.
Proof.
  induction s as [|d s IH]; cbn; [reflexivity|].
  intros [Hd Hs]%andb_true_iff. destruct (Ascii.eqb c d); [exact Hs|].
  cbn. now rewrite Hd, IH.
Qed.

Lemma split_char_dashes (piece text : str) :
  forallb is_dash piece = true -> forallb dash_or_newline text = true ->
  Forall (fun line => forallb is_dash line = true) (split_char "010" piece text).
Proof.
  revert piece. induction text as [|d text IH]; intros piece Hp; cbn [split_char forallb].
  - intros _. now constructor.
  - intros [Hd Ht]%andb_true_iff.
    destruct (Ascii.eqb "010" d) eqn:E.
    + constructor; [exact Hp | now apply IH].
    + apply IH; [|exact Ht]. rewrite forallb_app, Hp. cbn.
      unfold dash_or_newline in Hd. rewrite (Ascii.eqb_sym d), E, orb_false_r in Hd.
      now rewrite Hd.
Qed.

Lemma bullet_items_dashes (text : str) :
  forallb dash_or_newline text = true ->
  Forall (fun item => forallb is_dash item = true) (bullet_items text).
Proof.
  intros H. unfold bullet_items. apply List.Forall_forall.
  intros item (line & <- & [Hin _]%filter_In)%in_map_iff.
  apply forallb_trim, forallb_remove_char.
  pose proof (split_char_dashes [] text eq_refl H) as Hall.
  rewrite List.Forall_forall in Hall. now apply Hall.
Qed.

Lemma bullets_of_dashes (label s : str) :
  Forall (fun item => forallb is_dash item = true)
         (bullets_of (exec (bullets_re label) s)).
Proof.
  unfold bullets_of, exec.
  destruct (search _ _ _ _) as [found|] eqn:E; [|constructor].
  apply search_some in E as (a & s' & _ & Hm).
  rewrite match_at_bullets_run in Hm.
  destruct (is_prefix label s'); [|discriminate].
  cbv zeta in Hm. injection Hm as _ <-.
  apply bullet_items_dashes, bullet_run_dashes.
Qed.

(** The text of a bullet is never returned.  Whatever the summary, every
    strength and every improvement the parser reports is a string of
    dashes (the empty string for a list written [- item]): in the
    repeated group of the pattern nothing after the lazy [.*?] has to
    match, so it takes no character and the capture stops at the first
    character that is not a dash or the line feed after one. *)
Theorem bullet_text_is_never_returned (score : float) (summary : str) :
  let parsed := parseInterviewSummary score summary in
  Forall (fun item => forallb is_dash item = true) (strengths parsed) /\
  Forall (fun item => forallb is_dash item = true) (improvements parsed).
Proof.
  split; apply bullets_of_dashes.
Qed.

End SummaryFacts.

(** ** Numbers that are not NaN *)

Module NumberFacts.

Import SpecFloat FloatOrder.

Lemma SFcompare_refl (x : spec_float) :
  x <> S754_nan -> SFcompare x x = Some Eq.
Proof.
  destruct x as [ [|] | [|] | | [|] m e ]; cbn; try congruence; intros _;
    rewrite Z.compare_refl, ?compare_cont_Eq, Pos.compare_refl; reflexivity.
Qed.

Lemma is_nan_spec (x : float) :
  PrimFloat.is_nan x = true <-> Prim2SF x = S754_nan.
Proof.
  unfold PrimFloat.is_nan. rewrite negb_true_iff, FloatAxioms.eqb_spec.
  unfold SFeqb. split.
  - intros H. destruct (Prim2SF x) as [ [|] | [|] | | [|] m e ] eqn:E;
      try reflexivity; rewrite SFcompare_refl in H; discriminate.
  - intros ->. reflexivity.
Qed.

(** Every comparison with NaN is false. *)
Lemma nan_compares_false (x c : float) :
  PrimFloat.is_nan x = true ->
  (c <=? x)%float = false /\ (x <? c)%float = false /\ (x <=? c)%float = false.
Proof.
  intros H%is_nan_spec. rewrite !leb_spec, ltb_spec. unfold SFleb, SFltb.
  rewrite H. repeat split; destruct (Prim2SF c); reflexivity.
Qed.

Lemma leb_refl (x : float) :
  PrimFloat.is_nan x = false -> (x <=? x)%float = true.
Proof.
  unfold PrimFloat.is_nan. rewrite negb_false_iff, leb_spec, FloatAxioms.eqb_spec.
  unfold SFeqb, SFleb. now destruct (SFcompare _ _) as [[]|].
Qed.

(** On a number that is not NaN, [<] is the negation of [>=]. *)
Lemma ltb_negb_leb (x c : float) :
  PrimFloat.is_nan x = false -> PrimFloat.is_nan c = false ->
  (x <? c)%float = negb (c <=? x)%float.
Proof.
  intros Hx Hc. destruct (c <=? x)%float eqn:E; cbn.
  - destruct (x <? c)%float eqn:E'; [|reflexivity].
    apply ltb_leb_false in E'. congruence.
  - apply (leb_false_ltb x c x (leb_refl x Hx)); [|exact E].
    unfold PrimFloat.is_nan in Hc. now apply negb_false_iff in Hc.
Qed.

Lemma leb_lower (c d x : float) :
  (c <? d)%float = true -> PrimFloat.is_nan x = false ->
  (d <=? x)%float = true -> (c <=? x)%float = true.
Proof.
  intros Hcd Hx Hd. destruct (c <=? x)%float eqn:E; [reflexivity|].
  assert (Hc : PrimFloat.is_nan c = false).
  { destruct (PrimFloat.is_nan c) eqn:N; [|reflexivity].
    destruct (nan_compares_false c d N) as (_ & H & _). congruence. }
  assert (L : (x <? c)%float = true) by now rewrite ltb_negb_leb, E.
  apply ltb_leb_false in Hcd as Hdc.
  pose proof (ltb_trans _ _ _ L Hcd) as L'. apply ltb_leb_false in L'. congruence.
Qed.

End NumberFacts.

(** ** The results view *)

Module ResultsViewFacts.

Import ScoreBands ResultsView NumberFacts.

(** For every score that is a number, one card of advice is shown with
    the learning resources, the one that goes with the score's label:
    "Advanced Skills" for "Excellent", "Enhancement Opportunities" for
    "Good", "Areas for Improvement" below.  A score that is NaN gets the
    label "Needs Improvement" and the destructive badge, and no advice
    at all: each of the three guards is false. *)
Theorem next_steps_follow_the_label (score : float) :
  (PrimFloat.is_nan score = false ->
     nextSteps score = [advice_for (getScoreLabel score); "Learning Resources"]) /\
  (PrimFloat.is_nan score = true ->
     nextSteps score = ["Learning Resources"] /\
     getScoreLabel score = "Needs Improvement" /\
     badgeVariant score = "destructive").
Proof.
  unfold nextSteps, getScoreLabel, badgeVariant. split; intros H.
  - rewrite !(ltb_negb_leb score) by (exact H || reflexivity).
    pose proof (leb_lower 6 8 score eq_refl H) as M.
    destruct (8 <=? score)%float.
    + rewrite (M eq_refl). reflexivity.
    + destruct (6 <=? score)%float; [reflexivity|].
      destruct (4 <=? score)%float; reflexivity.
  - destruct (nan_compares_false score 6 H) as (-> & -> & _).
    destruct (nan_compares_false score 8 H) as (-> & -> & _).
    destruct (nan_compares_false score 4 H) as (-> & _).
    repeat split.
Qed.

Lemma next_steps_follow_the_label_witness :
  nextSteps 7.5 = ["Enhancement Opportunities"; "Learning Resources"] /\
  nextSteps PrimFloat.nan = ["Learning Resources"].
Proof.
  split.
  - exact (proj1 (next_steps_follow_the_label 7.5) eq_refl).
  - exact (proj1 (proj2 (next_steps_follow_the_label PrimFloat.nan) eq_refl)).
Defined.

End ResultsViewFacts.

(** ** The interactive interview component over its events *)

Module InterviewFlowFacts.

Import InteractiveInterview InterviewFlow Samples.

Lemma onStepResult_toasts (now : string) (result : InterviewStep) (st : State) :
  length (toasts (onStepResult now result st)) = S (length (toasts st)).
Proof.
  unfold onStepResult. destruct (is_complete result); [|reflexivity].
  destruct (JS.truthy_bool (human_rejected result));
    [|destruct (JS.truthy_bool (human_approval_bypassed result))];
    destruct (final_results result); reflexivity.
Qed.

Lemma onStepResult_settled (now : string) (result : InterviewStep) (st : State) :
  (interviewComplete st = true <-> finalResults st <> None) ->
  let st' := onStepResult now result st in
  (interviewComplete st' = true <-> finalResults st' <> None) /\
  isLoading st' = isLoading st /\ isSubmitting st' = isSubmitting st /\
  (interviewComplete st = true -> interviewComplete st' = true).
Proof.
  intros H. unfold onStepResult. destruct (is_complete result).
  - destruct (JS.truthy_bool (human_rejected result));
      [|destruct (JS.truthy_bool (human_approval_bypassed result))];
      destruct (final_results result); cbn; repeat split; auto; discriminate.
  - cbn. repeat split; auto; apply H.
Qed.

Section Component.

Variable base : option string.
Variable stringify : list (string * string) -> string.
Variable conversationId userMessage : string.

Let submit := handleSubmitResponse base.
Let step := InterviewFlow.step base stringify conversationId userMessage.
Let run := InterviewFlow.run base stringify conversationId userMessage.

(** The handler when the guard lets the submission through. *)
Lemma handleSubmitResponse_sent (fetch : Server) (now : string) (st : State)
    (current : InterviewStep) :
  currentStep st = Some current ->
  JS.blank (userResponse st) = false ->
  submit fetch stringify conversationId now st =
  setIsSubmitting false
    match Api.processInterviewStep InterviewStep base fetch stringify conversationId
            (userResponse st) (current_step current) with
    | inr result => onStepResult now result (setIsSubmitting true st)
    | inl _ => toast submitErrorToast (setIsSubmitting true st)
    end.
Proof.
  intros Hs Hb. unfold submit, handleSubmitResponse. rewrite Hs, Hb. reflexivity.
Qed.

Lemma handleSubmitResponse_settled (fetch : Server) (now : string) (st : State) :
  Settled st ->
  Settled (submit fetch stringify conversationId now st) /\
  (interviewComplete st = true ->
   interviewComplete (submit fetch stringify conversationId now st) = true).
Proof.
  intros [Hr Hl Hs].
  destruct (currentStep st) as [current|] eqn:Hc.
  2:{ unfold submit, handleSubmitResponse. rewrite Hc.
      split; [constructor; assumption | auto]. }
  destruct (JS.blank (userResponse st)) eqn:Hb.
  { unfold submit, handleSubmitResponse. rewrite Hc, Hb.
    split; [constructor; assumption | auto]. }
  rewrite (handleSubmitResponse_sent fetch now st current Hc Hb).
  destruct (Api.processInterviewStep _ _ _ _ _ _ _) as [e|result].
  - split; [constructor; cbn; auto | cbn; auto].
  - destruct (onStepResult_settled now result (setIsSubmitting true st) Hr)
      as (H1 & H2 & _ & H4).
    cbn in H1, H2, H4. rewrite Hl in H2.
    split; [constructor; cbn; auto | cbn; auto].
Qed.

Lemma step_settled (st : State) (e : Event) :
  Settled st ->
  Settled (step st e) /\
  (interviewComplete st = true -> interviewComplete (step st e) = true).
Proof.
  intros H. destruct e as [fetch|value|key shiftKey fetch now|fetch now];
    cbn [step InterviewFlow.step].
  - destruct H as [Hr Hl Hs]. unfold startInterview.
    destruct (ConversationService.startInteractiveInterview _ _ _ _ _ _);
      cbn; (split; [constructor; cbn; auto | auto]).
  - destruct H as [Hr Hl Hs]. split; [constructor; cbn; auto | auto].
  - unfold handleKeyPress. destruct (String.eqb key "Enter" && negb shiftKey).
    + now apply handleSubmitResponse_settled.
    + now split.
  - now apply handleSubmitResponse_settled.
Qed.

Lemma run_settled (events : list Event) (st : State) :
  Settled st ->
  Settled (run events st) /\
  (interviewComplete st = true -> interviewComplete (run events st) = true).
Proof.
  revert st. induction events as [|e events IH]; intros st H; [now split|].
  cbn [run InterviewFlow.run fold_left].
  destruct (step_settled st e H) as [H1 H2].
  destruct (IH _ H1) as [H3 H4]. split; [exact H3 | auto].
Qed.

Lemma initial_settled : Settled initialState.
Proof. split; [split; [discriminate | intros H; now elim H] | reflexivity..]. Qed.

(** In every state the component reaches, whatever the backend answers
    and in whatever order the handlers run, final results are held
    exactly when the interview is marked complete, and the loading and
    submitting flags are down again: no handler can leave the page on its
    spinner. *)
Theorem results_held_iff_complete (events : list Event) :
  let st := run events initialState in
  (interviewComplete st = true <-> finalResults st <> None) /\
  isLoading st = false /\ isSubmitting st = false.
Proof.
  destruct (run_settled events initialState initial_settled) as [[H1 H2 H3] _].
  split; [exact H1 | split; [exact H2 | exact H3]].
Qed.

(** Completion is final: once the interview is complete, the component
    shows the results view after every further event; no handler brings
    the questions back. *)
Theorem completion_is_final (before after : list Event) :
  let st := run before initialState in
  interviewComplete st = true ->
  exists results, render (run after st) = ResultsView results.
Proof.
  intros st Hc.
  destruct (run_settled before initialState initial_settled) as [Hst _].
  destruct (run_settled after st Hst) as [[Hr Hl _] Hkeep].
  specialize (Hkeep Hc). apply Hr in Hkeep as Hf.
  unfold render. rewrite Hl, Hkeep.
  destruct (finalResults (run after st)) as [results|]; [now exists results|].
  now elim Hf.
Qed.

(** A key in the text area sends a request exactly when it is Enter
    without Shift, the answer is not blank and a question is shown: then
    one notification is raised, whatever the backend answers; in every
    other case nothing changes. *)
Theorem key_press_submits (key : string) (shiftKey : bool) (fetch : Server)
    (now : string) (st : State) :
  let st' := handleKeyPress base stringify conversationId key shiftKey fetch now st in
  if String.eqb key "Enter" && negb shiftKey
     && negb (JS.blank (userResponse st))
     && match currentStep st with Some _ => true | None => false end
  then length (toasts st') = S (length (toasts st)) /\ isSubmitting st' = false
  else st' = st.
Proof.
  cbv zeta. unfold handleKeyPress.
  destruct (String.eqb key "Enter" && negb shiftKey); [|reflexivity].
  cbn [andb].
  destruct (currentStep st) as [current|] eqn:Hc.
  2:{ rewrite andb_false_r. unfold handleSubmitResponse. now rewrite Hc. }
  destruct (JS.blank (userResponse st)) eqn:Hb; cbn [negb andb].
  { unfold handleSubmitResponse. now rewrite Hc, Hb. }
  fold submit. rewrite (handleSubmitResponse_sent fetch now st current Hc Hb).
  destruct (Api.processInterviewStep _ _ _ _ _ _ _) as [e|result].
  - now split.
  - split; [|reflexivity]. cbn [toasts setIsSubmitting].
    now rewrite onStepResult_toasts.
Qed.

(** A submission posts the answer as typed, not trimmed, with the
    conversation id and the name of the current step, to
    [/process-interview-step]; unless the reply is an ok response with a
    JSON body, the step and the typed answer are kept and one
    "Failed to submit response" notification is raised. *)
Theorem submission_sends_answer_as_typed (fetch : Server) (now : string)
    (st : State) (current : InterviewStep) :
  currentStep st = Some current ->
  JS.blank (userResponse st) = false ->
  let url := (Api.API_BASE_URL base +:+ "/process-interview-step")%string in
  let config :=
    {| Api.method := Some "POST";
       Api.body := Some (stringify [ ("conversation_id", conversationId);
                                     ("user_response", userResponse st);
                                     ("current_step", current_step current) ]);
       Api.headers := Some [("Content-Type", "application/json")] |} in
  let failed := toast submitErrorToast (setIsSubmitting false st) in
  submit fetch stringify conversationId now st =
  match fetch url config with
  | inr response =>
      if Api.ok _ response then
        match Api.json _ response with
        | inr result =>
            setIsSubmitting false (onStepResult now result (setIsSubmitting true st))
        | inl _ => failed
        end
      else failed
  | inl _ => failed
  end.
Proof.
  intros Hc Hb url config failed.
  rewrite (handleSubmitResponse_sent fetch now st current Hc Hb).
  unfold Api.processInterviewStep, Api.post. rewrite ApiFacts.request_cases.
  fold url. change (Api.request_config _) with config.
  destruct (fetch url config) as [e|response]; [reflexivity|].
  destruct (Api.ok _ response); [|reflexivity].
  destruct (Api.json _ response); reflexivity.
Qed.

(** When the component is mounted it posts the conversation id and the
    user message to [/start-interactive-interview].  An ok reply with a
    JSON body is shown as the current question, whether or not the
    snapshot is marked complete: [startInterview] does not read
    [is_complete].  In every other case the component shows its
    "Failed to start the interview" view. *)
Theorem first_snapshot_is_shown_as_a_question (fetch : Server) :
  let st' := startInterview base stringify conversationId userMessage fetch
               initialState in
  match Reply.reply
          (fetch (Api.API_BASE_URL base +:+ "/start-interactive-interview")%string
                 (Reply.posted (stringify [ ("conversation_id", conversationId);
                                            ("user_message", userMessage) ]))) with
  | Some first =>
      render st' =
        QuestionView first
          (getStepProgress (current_step first) (Some (questionShown first))
                           (Some (totalShown first)))
          (totalShown first) /\
      hd_error (toasts st') = Some startedToast
  | None =>
      render st' = StartErrorView /\
      hd_error (toasts st') = Some startErrorToast
  end.
Proof.
  cbv zeta. unfold startInterview, ConversationService.startInteractiveInterview,
    Api.post. rewrite ApiFacts.request_cases. unfold Reply.reply.
  change (Api.request_config _)
    with (Reply.posted (stringify [ ("conversation_id", conversationId);
                                    ("user_message", userMessage) ])).
  destruct (fetch _ _) as [e|response]; [now split|].
  destruct (Api.ok _ response); [|now split].
  destruct (Api.json _ response); now split.
Qed.

End Component.

Lemma completion_is_final_witness :
  exists results,
    render (InterviewFlow.run None (fun _ => "{}") "c-1" "Name: A"
              [Change "again"; Click rejectingServer "2025-01-02T00:00:00.000Z"]
              (InterviewFlow.run None (fun _ => "{}") "c-1" "Name: A"
                 [Mount rejectingServer; Change "With a macro.";
                  Click rejectingServer "2025-01-01T00:00:00.000Z"]
                 initialState)) = ResultsView results.
Proof.
  apply (completion_is_final None (fun _ => "{}") "c-1" "Name: A"). reflexivity.
Defined.

Lemma submission_sends_answer_as_typed_witness :
  handleSubmitResponse None rejectingServer (fun _ => "{}") "c-1"
    "2025-01-01T00:00:00.000Z" answeringState =
  setIsSubmitting false
    (onStepResult "2025-01-01T00:00:00.000Z" rejectedSnapshot
       (setIsSubmitting true answeringState)).
Proof.
  exact (submission_sends_answer_as_typed None (fun _ => "{}") "c-1"
           rejectingServer "2025-01-01T00:00:00.000Z" answeringState lastStep
           eq_refl eq_refl).
Defined.

(** The numbers of the progress card are never zero and never NaN: a
    count that the backend leaves out, or sends as 0 or NaN, is replaced
    by the default (question 1, of 6, 5 remaining).  So the progress is
    never divided by zero, and on the last question, when no question
    remains, the card reads "5 questions remaining". *)
Theorem progress_card_never_shows_zero (current : InterviewStep) :
  JS.falsy_number (questionShown current) = false /\
  JS.falsy_number (totalShown current) = false /\
  JS.falsy_number (remainingShown current) = false /\
  (questions_remaining current = Some 0%float ->
   remainingShown current = 5%float).
Proof.
  unfold questionShown, totalShown, remainingShown, JS.or_number.
  repeat split.
  - destruct (current_question current) as [v|]; [|reflexivity].
    destruct (JS.falsy_number v) eqn:E; [reflexivity | exact E].
  - destruct (total_questions current) as [v|]; [|reflexivity].
    destruct (JS.falsy_number v) eqn:E; [reflexivity | exact E].
  - destruct (questions_remaining current) as [v|]; [|reflexivity].
    destruct (JS.falsy_number v) eqn:E; [reflexivity | exact E].
  - intros ->. reflexivity.
Qed.

Lemma progress_card_never_shows_zero_witness :
  remainingShown lastStep = 5%float.
Proof.
  exact (proj2 (proj2 (proj2 (progress_card_never_shows_zero lastStep))) eq_refl).
Defined.

End InterviewFlowFacts.

(** ** The home page *)

Module HomePageFacts.

Import HomePage Reply.

Section Page.

Variable base : option string.
Variable stringify : list (string * string) -> string.

Let handleSubmit := HomePage.handleSubmit base stringify.
Let run := HomePage.run base stringify.

Lemma message_not_empty (form : FormData) : empty (message form) = false.
Proof. reflexivity. Qed.

(** [createConversation] in terms of what [fetch] gives. *)
Lemma createConversation_reply (fetch : Server) (address : string) :
  match ConversationService.createConversation Conversation base fetch stringify
          address with
  | inr conversation =>
      reply (fetch (Api.API_BASE_URL base +:+ "/")%string
                   (posted (stringify [("email", address)]))) = Some conversation
  | inl _ =>
      reply (fetch (Api.API_BASE_URL base +:+ "/")%string
                   (posted (stringify [("email", address)]))) = None
  end.
Proof.
  unfold ConversationService.createConversation, Api.post.
  rewrite ApiFacts.request_cases. unfold reply.
  change (Api.request_config _) with (posted (stringify [("email", address)])).
  destruct (fetch _ _) as [e|response]; [reflexivity|].
  destruct (Api.ok _ response); [|reflexivity].
  destruct (Api.json _ response); reflexivity.
Qed.

(** What the page keeps through every event: it is never left loading,
    its own [results] are never set, and the message it holds is empty
    or built from a form. *)
Lemma step_keeps (st : State) (e : Event) :
  isLoading st = false /\ results st = None ->
  isLoading (step base stringify st e) = false /\
  results (step base stringify st e) = None.
Proof.
  intros [Hl Hr].
  destruct e as [v|v|v|v|fetch|]; cbn [step]; try (now split).
  unfold HomePage.handleSubmit.
  destruct (empty _ || empty _ || empty _); [now split|].
  destruct (ConversationService.createConversation _ _ _ _ _); now split.
Qed.

Lemma run_keeps (events : list Event) (st : State) :
  isLoading st = false /\ results st = None ->
  isLoading (run events st) = false /\ results (run events st) = None.
Proof.
  revert st. induction events as [|e events IH]; intros st H; [exact H|].
  apply IH, step_keeps, H.
Qed.

(** After a submit of the form, the page shows the interactive interview
    exactly when the three required fields are not empty and the backend
    answered the POST of the e-mail address with an ok JSON reply that
    carries a conversation id that is not empty; the interview gets that
    id and the message built from the form.  In every other case (a
    field left empty, a failed request, a reply without an id) the form
    is shown again with what was typed. *)
Theorem submit_outcome (fetch : Server) (st : State) :
  render st = FormView (formData st) ->
  let form := formData st in
  render (handleSubmit fetch st) =
  if empty (email form) || empty (experienceLevel form) || empty (description form)
  then FormView form
  else
    match reply (fetch (Api.API_BASE_URL base +:+ "/")%string
                       (posted (stringify [("email", email form)]))) with
    | Some {| conversation_id := Some id |} =>
        if empty id then FormView form else InterviewView id (message form)
    | _ => FormView form
    end.
Proof.
  intros Hform form. unfold handleSubmit, HomePage.handleSubmit. fold form.
  destruct (empty _ || empty _ || empty _); [exact Hform|].
  pose proof (createConversation_reply fetch (email form)) as Hreply.
  assert (Hl : isLoading st = false /\ results st = None).
  { unfold render in Hform. destruct (isLoading st); [discriminate|].
    destruct (results st); [|now split].
    destruct (interviewMode st) as [[]|], (conversationId st); try discriminate.
    destruct (negb _ && negb _); discriminate. }
  destruct Hl as [Hl Hr].
  destruct (ConversationService.createConversation _ _ _ _ _) as [e|[id]];
    rewrite Hreply.
  - unfold render in *. cbn. rewrite Hl, Hr in *. exact Hform.
  - unfold render. cbn. rewrite Hr. destruct id as [id|]; [|reflexivity].
    destruct (empty id); reflexivity.
Qed.

(** The home page never shows the results view or stays on the loading
    view: its [results] are never set (the interactive interview renders
    the results itself), and every submit lowers the loading flag
    again.  After any events it shows the form, or the interview with a
    conversation id that is not empty. *)
Theorem home_page_shows_form_or_interview (events : list Event) :
  match render (run events initialState) with
  | FormView form => form = formData (run events initialState)
  | InterviewView id _ =>
      conversationId (run events initialState) = Some id /\ empty id = false
  | LoadingView | ResultsView _ => False
  end.
Proof.
  destruct (run_keeps events initialState (conj eq_refl eq_refl)) as [Hl Hr].
  unfold render. rewrite Hl, Hr.
  destruct (interviewMode _) as [[]|]; try reflexivity;
    destruct (conversationId _) as [id|]; try reflexivity.
  destruct (empty id) eqn:E; cbn; [reflexivity|].
  destruct (empty (userMessage _)); cbn; [reflexivity | now split].
Qed.

(** "Take Another Interview" brings the empty form back, whatever
    happened before. *)
Theorem retry_shows_the_empty_form (events : list Event) :
  render (run (events ++ [Retry]) initialState) = FormView emptyForm.
Proof.
  assert (E : run (events ++ [Retry]) initialState =
              resetInterview (run events initialState)).
  { unfold run, HomePage.run. now rewrite fold_left_app. }
  rewrite E.
  destruct (run_keeps events initialState (conj eq_refl eq_refl)) as [Hl Hr].
  unfold render, resetInterview. cbn. now rewrite Hl.
Qed.

End Page.

Lemma submit_outcome_witness :
  render (HomePage.handleSubmit None (fun _ => "{}")
            (fun _ _ =>
               inr {| Api.ok := true; Api.response_status := 200;
                      Api.json := inr {| conversation_id := Some "c-1" |} |})
            (setFormData {| name := ""; email := "a@b.c";
                            experienceLevel := "Basic";
                            description := "Pivot tables" |} initialState)) =
  InterviewView "c-1"
    "Name: Not provided, Experience Level: Basic, Description: Pivot tables".
Proof.
  exact (submit_outcome None (fun _ => "{}")
           (fun _ _ =>
              inr {| Api.ok := true; Api.response_status := 200;
                     Api.json := inr {| conversation_id := Some "c-1" |} |})
           (setFormData {| name := ""; email := "a@b.c";
                           experienceLevel := "Basic";
                           description := "Pivot tables" |} initialState)
           eq_refl).
Defined.

End HomePageFacts.

(** ** The interview history page *)

Module HistoryPageFacts.

Import JS HistoryPage InterviewResults.
Import SpecFloat FloatOrder.

Lemma filter_sublist {A} (p : A -> bool) (l : list A) :
  sublist (List.filter p l) l.
Proof.
  induction l as [|x l IH]; cbn; [constructor|].
  destruct (p x); now constructor.
Qed.

Lemma filter_sublist_impl {A} (p q : A -> bool) (l : list A) :
  (forall x, p x = true -> q x = true) ->
  sublist (List.filter p l) (List.filter q l).
Proof.
  intros H. induction l as [|x l IH]; cbn; [constructor|].
  destruct (p x) eqn:P.
  - rewrite (H x P). now constructor.
  - destruct (q x); [now constructor | exact IH].
Qed.

Lemma filter_all {A} (p : A -> bool) (l : list A) :
  (forall x, p x = true) -> List.filter p l = l.
Proof.
  intros H. induction l as [|x l IH]; cbn; [reflexivity|]. now rewrite H, IH.
Qed.

Lemma filter_comm {A} (p q : A -> bool) (l : list A) :
  List.filter p (List.filter q l) = List.filter q (List.filter p l).
Proof.
  induction l as [|x l IH]; cbn; [reflexivity|].
  destruct (p x) eqn:P, (q x) eqn:Q; cbn; rewrite ?P, ?Q, IH; reflexivity.
Qed.

Lemma filter_split_length {A} (p : A -> bool) (l : list A) :
  length (List.filter p l) + length (List.filter (fun x => negb (p x)) l) = length l.
Proof.
  induction l as [|x l IH]; cbn; [reflexivity|].
  destruct (p x); cbn; lia.
Qed.

Lemma leb_upper (x c d : float) :
  (x <=? c)%float = true -> (c <? d)%float = true -> (x <=? d)%float = true.
Proof.
  rewrite !leb_spec, ltb_spec. unfold SFltb. intros Hx Hc.
  destruct (SFcompare (Prim2SF c) (Prim2SF d)) as [[]|] eqn:E; try discriminate.
  unfold SFleb. now rewrite (SFcompare_le_lt_trans _ _ _ Hx E).
Qed.

Lemma occurs_refl_app (l pre post : str) : occurs l (pre ++ l ++ post) = true.
Proof.
  induction pre as [|c pre IH]; cbn [app].
  - destruct (l ++ post) eqn:E; cbn [occurs]; rewrite <- E;
      rewrite RegexFacts.is_prefix_app; reflexivity.
  - cbn [occurs]. rewrite IH. apply orb_true_r.
Qed.

Lemma split_char_lacks (c : ascii) (piece s : str) :
  lacks c s = true -> split_char c piece s = [piece ++ s].
Proof.
  revert piece. induction s as [|d s IH]; intros piece; cbn [split_char lacks forallb].
  - now rewrite app_nil_r.
  - intros [Hd Hs]%andb_true_iff. apply negb_true_iff in Hd. rewrite Hd.
    rewrite (IH _ Hs), <- app_assoc. reflexivity.
Qed.

Lemma split_char_sep (c : ascii) (piece a rest : str) :
  lacks c a = true ->
  split_char c piece (a ++ c :: rest) = (piece ++ a) :: split_char c [] rest.
Proof.
  revert piece. induction a as [|d a IH]; intros piece; cbn [split_char lacks forallb app].
  - intros _. now rewrite Ascii.eqb_refl, app_nil_r.
  - intros [Hd Ha]%andb_true_iff. apply negb_true_iff in Hd. rewrite Hd.
    rewrite (IH _ Ha), <- app_assoc. reflexivity.
Qed.

(** Splitting at a separator undoes joining with it, for parts that do
    not contain it. *)
Lemma split_join (c : ascii) (part : str) (parts : list str) :
  Forall (fun p => lacks c p = true) (part :: parts) ->
  split_char c [] (join [c] (part :: parts)) = part :: parts.
Proof.
  revert part. induction parts as [|next parts IH]; intros part H.
  - apply Forall_inv in H. cbn [join]. now rewrite split_char_lacks.
  - inversion H as [|? ? Hp Hrest]; subst.
    change (join [c] (part :: next :: parts))
      with (part ++ c :: join [c] (next :: parts)).
    rewrite (split_char_sep c [] part _ Hp). cbn [app]. now rewrite IH.
Qed.

Lemma lacks_join (c sep : ascii) (parts : list str) :
  Ascii.eqb c sep = false ->
  Forall (fun p => lacks c p = true) parts ->
  lacks c (join [sep] parts) = true.
Proof.
  intros Hsep. induction parts as [|part parts IH]; intros H; [reflexivity|].
  inversion H as [|? ? Hp Hrest]; subst.
  destruct parts as [|next parts]; [exact Hp|].
  change (join [sep] (part :: next :: parts))
    with (part ++ sep :: join [sep] (next :: parts)).
  unfold lacks. rewrite forallb_app. cbn [forallb].
  rewrite Hsep. cbn [negb andb]. apply andb_true_iff. split; [exact Hp|].
  now apply IH.
Qed.

Lemma plain_cell_lacks (s : str) :
  plain_cell s = true -> lacks "," s = true /\ lacks "010" s = true.
Proof.
  unfold plain_cell, lacks. induction s as [|d s IH]; cbn [forallb]; [now split|].
  intros [[H1 H2]%andb_true_iff Hs]%andb_true_iff.
  destruct (IH Hs) as [I1 I2]. now rewrite H1, H2, I1, I2.
Qed.

Lemma digits_plain (s : str) : forallb Regex.is_digit s = true -> plain_cell s = true.
Proof.
  unfold plain_cell. induction s as [|d s IH]; cbn [forallb]; [reflexivity|].
  intros [Hd Hs]%andb_true_iff. rewrite (IH Hs), andb_true_r.
  destruct d as [[] [] [] [] [] [] [] []]; try discriminate Hd; reflexivity.
Qed.

Lemma occurs_self (l : str) : occurs l l = true.
Proof.
  pose proof (occurs_refl_app l [] []) as H. cbn [app] in H.
  now rewrite app_nil_r in H.
Qed.

Section Platform.

Variable toLowerCase : str -> str.
Variable now : float.
Variable getTime : string -> float.
Variable ceil : float -> float.
Variable toLocaleDateString : string -> str.

Let shown := filterConversations toLowerCase now getTime ceil.
Let matchesDate := HistoryPage.matchesDate now getTime ceil.
Let cells := HistoryPage.cells toLocaleDateString.
Let csvContent := HistoryPage.csvContent toLocaleDateString.

(** The list before the date filter. *)
Lemma shown_by_date (conversations : list Conversation)
    (searchTerm statusFilter dateFilter : string) :
  shown conversations searchTerm statusFilter dateFilter =
  List.filter (matchesDate dateFilter)
    (shown conversations searchTerm statusFilter "all").
Proof.
  unfold shown, filterConversations. cbv zeta.
  change (negb (String.eqb "all" "all")) with false. cbv iota.
  destruct (String.eqb_spec dateFilter "all") as [->|Hd]; cbn [negb]; [|reflexivity].
  symmetry. apply filter_all. reflexivity.
Qed.

(** The list before the status filter. *)
Lemma shown_by_status (conversations : list Conversation)
    (searchTerm statusFilter dateFilter : string) :
  statusFilter <> "all" ->
  shown conversations searchTerm statusFilter dateFilter =
  List.filter (matchesStatus statusFilter)
    (shown conversations searchTerm "all" dateFilter).
Proof.
  intros Hs. unfold shown, filterConversations. cbv zeta.
  apply String.eqb_neq in Hs. rewrite Hs. cbn [negb String.eqb Ascii.eqb Bool.eqb].
  destruct (negb (String.eqb dateFilter "all")); [|reflexivity].
  apply filter_comm.
Qed.

(** What the page lists is always a sub-list of the loaded
    conversations, in their order, so the count in "Showing n of m" never
    exceeds the total; with the default filters (no search term, "all",
    "all") it is the whole list. *)
Theorem shown_is_a_sublist (conversations : list Conversation)
    (searchTerm statusFilter dateFilter : string) :
  sublist (shown conversations searchTerm statusFilter dateFilter) conversations /\
  length (shown conversations searchTerm statusFilter dateFilter)
    <= length conversations /\
  shown conversations "" "all" "all" = conversations.
Proof.
  assert (H : sublist (shown conversations searchTerm statusFilter dateFilter)
                      conversations).
  { unfold shown, filterConversations. cbv zeta.
    destruct (negb (String.eqb dateFilter "all"));
      destruct (negb (String.eqb statusFilter "all"));
      destruct (negb (String.eqb searchTerm ""));
      repeat (try reflexivity; etransitivity; [apply filter_sublist|]);
      reflexivity. }
  split; [exact H|]. split; [now apply sublist_length | reflexivity].
Qed.

(** The status filters "completed" and "pending" split what "all" shows:
    under the same search term and date filter each conversation of the
    "all" list is in exactly one of the two lists, by its
    [interview_completed] flag, and the counts add up. *)
Theorem completed_and_pending_split (conversations : list Conversation)
    (searchTerm dateFilter : string) :
  let all := shown conversations searchTerm "all" dateFilter in
  let completed := shown conversations searchTerm "completed" dateFilter in
  let pending := shown conversations searchTerm "pending" dateFilter in
  completed = List.filter interview_completed all /\
  pending = List.filter (fun conv => negb (interview_completed conv)) all /\
  length completed + length pending = length all.
Proof.
  cbv zeta.
  rewrite (shown_by_status conversations searchTerm "completed" dateFilter)
    by discriminate.
  rewrite (shown_by_status conversations searchTerm "pending" dateFilter)
    by discriminate.
  repeat split. apply filter_split_length.
Qed.

(** The date filters nest: under the same search term and status filter,
    what "today" shows is among what "week" shows, that among what
    "month" shows, and that among what "all" shows. *)
Theorem date_filters_nest (conversations : list Conversation)
    (searchTerm statusFilter : string) :
  sublist (shown conversations searchTerm statusFilter "today")
          (shown conversations searchTerm statusFilter "week") /\
  sublist (shown conversations searchTerm statusFilter "week")
          (shown conversations searchTerm statusFilter "month") /\
  sublist (shown conversations searchTerm statusFilter "month")
          (shown conversations searchTerm statusFilter "all").
Proof.
  rewrite (shown_by_date conversations searchTerm statusFilter "today"),
          (shown_by_date conversations searchTerm statusFilter "week"),
          (shown_by_date conversations searchTerm statusFilter "month").
  repeat split.
  - apply filter_sublist_impl. intros conv. unfold matchesDate, HistoryPage.matchesDate.
    cbn [String.eqb Ascii.eqb Bool.eqb]. intros H. now apply (leb_upper _ 1 7).
  - apply filter_sublist_impl. intros conv. unfold matchesDate, HistoryPage.matchesDate.
    cbn [String.eqb Ascii.eqb Bool.eqb]. intros H. now apply (leb_upper _ 7 30).
  - apply filter_sublist.
Qed.

(** The search finds a conversation by its whole e-mail address and by
    its whole id, typed in any letter case: a term whose lower-case form
    is that of the address, or that of the id, keeps the conversation,
    whatever the platform's [toLowerCase] makes of the two. *)
Theorem search_finds_whole_address (conversations : list Conversation)
    (conv : Conversation) (searchTerm : string) :
  In conv conversations ->
  toLowerCase (lit searchTerm) = toLowerCase (lit (email conv)) \/
  toLowerCase (lit searchTerm) = toLowerCase (lit (conversation_id conv)) ->
  In conv (shown conversations searchTerm "all" "all").
Proof.
  intros Hin Hterm. unfold shown, filterConversations. cbv zeta.
  cbn [String.eqb negb].
  destruct (negb (String.eqb searchTerm "")); [|exact Hin].
  apply filter_In. split; [exact Hin|].
  unfold matchesSearch. apply orb_true_iff.
  destruct Hterm as [-> | ->]; [left | right]; apply occurs_self.
Qed.

Lemma cells_plain (conv : Conversation) :
  plain_cell (toLocaleDateString (created_at conv)) = true ->
  plain_cell (lit (email conv)) = true ->
  plain_cell (lit (interview_type conv)) = true ->
  Forall (fun cell => plain_cell cell = true) (cells conv).
Proof.
  intros Hd He Ht. unfold cells, HistoryPage.cells.
  repeat constructor; try assumption.
  - unfold statusLabel. now destruct (interview_completed conv).
  - apply digits_plain, DecimalFacts.decimal_digits.
Qed.

Lemma row_reads_back (row : list str) :
  row <> [] ->
  Forall (fun cell => plain_cell cell = true) row ->
  split_char "," [] (join [","%char] row) = row /\
  lacks "010" (join [","%char] row) = true.
Proof.
  intros Hne H. destruct row as [|cell row]; [now elim Hne|]. split.
  - apply split_join. eapply List.Forall_impl; [|exact H].
    intros s Hs. now apply plain_cell_lacks.
  - apply lacks_join; [reflexivity|]. eapply List.Forall_impl; [|exact H].
    intros s Hs. now apply plain_cell_lacks.
Qed.

(** The export can be read back: when no date, e-mail address or
    interview type holds a comma or a line feed, splitting the CSV text
    into lines and the lines at the commas gives the header and, for
    each listed conversation in order, its five cells.  (Cells are
    written as they are, without quoting, so a comma in one of them would
    shift the columns.) *)
Theorem export_reads_back (filtered : list Conversation) :
  Forall (fun conv =>
            plain_cell (toLocaleDateString (created_at conv)) = true /\
            plain_cell (lit (email conv)) = true /\
            plain_cell (lit (interview_type conv)) = true) filtered ->
  map (split_char "," []) (split_char "010" [] (csvContent filtered)) =
  headerCells :: map cells filtered.
Proof.
  intros H. unfold csvContent, HistoryPage.csvContent.
  assert (Hrows : Forall (fun row => row <> [] /\
                            Forall (fun cell => plain_cell cell = true) row)
                         (headerCells :: map cells filtered)).
  { constructor; [split; [discriminate | repeat constructor]|].
    apply List.Forall_map. eapply List.Forall_impl; [|exact H].
    intros conv (Hd & He & Ht). split; [discriminate | now apply cells_plain]. }
  assert (E : join (lit ",") headerCells
                :: map (fun conv => join (lit ",")
                                      (HistoryPage.cells toLocaleDateString conv))
                       filtered =
              map (join [","%char]) (headerCells :: map cells filtered)).
  { cbn [map]. now rewrite List.map_map. }
  rewrite E. clear E.
  set (rows := headerCells :: map cells filtered) in *.
  change (lit "
") with ["010"%char].
  assert (Hsplit : split_char "010" [] (join ["010"%char] (map (join [","%char]) rows))
                   = map (join [","%char]) rows).
  { subst rows. cbn [map]. apply split_join.
    change (Forall (fun p => lacks "010" p = true)
                   (map (join [","%char]) (headerCells :: map cells filtered))).
    apply List.Forall_map. eapply List.Forall_impl; [|exact Hrows].
    intros row [Hne Hrow]. now apply row_reads_back. }
  rewrite Hsplit, map_map.
  clear Hsplit. induction Hrows as [|row rows' [Hne Hrow] _ IH]; [reflexivity|].
  cbn [map]. rewrite IH. f_equal. now apply row_reads_back.
Qed.

End Platform.

Lemma search_finds_whole_address_witness :
  In HistorySamples.ada
     (filterConversations HistorySamples.ascii_lower 0%float (fun _ => 0%float)
        (fun x => x) [HistorySamples.ada; HistorySamples.bob]
        "ADA@EXAMPLE.ORG" "all" "all").
Proof.
  apply (search_finds_whole_address HistorySamples.ascii_lower 0%float
           (fun _ => 0%float) (fun x => x)
           [HistorySamples.ada; HistorySamples.bob] HistorySamples.ada
           "ADA@EXAMPLE.ORG").
  - left. reflexivity.
  - left. reflexivity.
Defined.

Lemma export_reads_back_witness :
  map (split_char "," [])
      (split_char "010" []
         (csvContent (fun s => lit s) [HistorySamples.ada; HistorySamples.bob])) =
  [ headerCells;
    [lit "2025-01-01"; lit "Ada@Example.org"; lit "Completed"; lit "excel"; lit "12"];
    [lit "2025-01-02"; lit "bob@example.org"; lit "Pending"; lit "excel"; lit "3"] ].
Proof.
  apply (export_reads_back (fun s => lit s) [HistorySamples.ada; HistorySamples.bob]).
  repeat constructor.
Defined.

End HistoryPageFacts.

(** ** The loading view *)

Module LoadingStateFacts.

Import LoadingState.

Lemma ticks_S (n : nat) : ticks (S n) = tick (ticks n).
Proof. reflexivity. Qed.

(** The first hundred turns, one by one. *)
Lemma ticks_small (n : nat) :
  n <= 100 ->
  ticks n =
  {| progress := number n;
     currentStep := if (n <? 33)%nat then 0 else if (n <? 66)%nat then 1 else 2 |}.
Proof.
  intros H.
  do 101 (destruct n as [|n]; [vm_compute; reflexivity|]).
  lia.
Qed.

(** From the hundredth turn on nothing changes. *)
Lemma ticks_full (k : nat) :
  ticks (100 + k) = {| progress := 100%float; currentStep := 2 |}.
Proof.
  induction k as [|k IH].
  - rewrite Nat.add_0_r, ticks_small by lia. vm_compute. reflexivity.
  - rewrite Nat.add_succ_r, ticks_S, IH. vm_compute. reflexivity.
Qed.

(** After [n] turns of the timer the progress is [n], capped at 100: it
    never exceeds 100 and the bar is full from the hundredth turn on (three
    minutes at 1.8 s a turn).  The step shown is the first one before the
    33rd turn, the second one before the 66th and the third one from
    then on, so the index always names one of the three steps. *)
Theorem progress_after_ticks (n : nat) :
  progress (ticks n) = number (Nat.min n 100) /\
  currentStep (ticks n) =
    (if (n <? 33)%nat then 0 else if (n <? 66)%nat then 1 else 2) /\
  nth_error steps (currentStep (ticks n)) <> None.
Proof.
  destruct (Nat.le_gt_cases n 100) as [H|H].
  - rewrite (ticks_small n H), Nat.min_l by exact H. cbn [progress currentStep].
    repeat split. destruct (n <? 33)%nat; [cbn; discriminate|].
    destruct (n <? 66)%nat; cbn; discriminate.
  - assert (E : n = 100 + (n - 100)) by lia. rewrite E. clear E H.
    generalize (n - 100). intros k. rewrite ticks_full.
    rewrite Nat.min_r by lia. cbn [progress currentStep].
    replace (100 + k <? 33)%nat with false by (symmetry; apply Nat.ltb_ge; lia).
    replace (100 + k <? 66)%nat with false by (symmetry; apply Nat.ltb_ge; lia).
    repeat split. cbn. discriminate.
Qed.

End LoadingStateFacts.

(** ** The header *)

Module HeaderFacts.

Import Header.

(** The theme button always leaves the theme "light" or "dark", and two
    presses bring the theme back exactly when it was one of the two to
    begin with: from any other theme (none yet, or "system") the first
    press selects "dark".  The label of the mobile button names the theme
    a press selects. *)
Theorem theme_button (st : State) :
  let once := step st ThemeButton in
  let twice := step once ThemeButton in
  (theme once = Some "light" \/ theme once = Some "dark") /\
  (theme twice = theme st <-> theme st = Some "light" \/ theme st = Some "dark") /\
  (themeLabel (theme st) = "Light Mode" <-> theme once = Some "light") /\
  (themeLabel (theme st) = "Dark Mode" <-> theme once = Some "dark").
Proof.
  cbv zeta. cbn [step theme]. unfold toggled, themeLabel.
  destruct (is_dark (theme st)) eqn:D.
  - assert (E : theme st = Some "dark").
    { unfold is_dark in D. destruct (theme st) as [t|]; [|discriminate].
      now apply String.eqb_eq in D as ->. }
    rewrite E. cbn. repeat split; auto; discriminate.
  - cbn. split; [now right|]. split; [|split; split; (discriminate || reflexivity)].
    split.
    + intros E. left. exact (eq_sym E).
    + intros [E|E]; [exact (eq_sym E)|]. rewrite E in D. discriminate.
Qed.

End HeaderFacts.

(** ** [cleanMarkdownText] *)

Module MarkdownFacts.

Import JS Regex RegexAnalysis Markdown.
Import StrFacts RegexFacts InterviewResultsFacts RegexAnalysisFacts SummaryFacts.

(** *** Global replacement *)

Section Replace.

Variable r : re.
Variable anchored : bool.
Variable template : option str -> str.
Variable total : nat.

Let replace := replace_from r anchored template total.

(** Where the pattern matches at no position, nothing is replaced. *)
Lemma replace_from_quiet (s : str) (prev : option ascii) :
  (forall s', s' `suffix_of` s -> match_at r total s' = None) ->
  replace prev 0 s = s.
Proof.
  revert prev. induction s as [|c s IH]; intros prev H.
  - cbn. rewrite (H [] (reflexivity _)). now destruct (negb anchored || _).
  - cbn [replace replace_from]. rewrite (H (c :: s) (reflexivity _)).
    destruct (negb anchored || _); f_equal; apply IH;
      intros s' Hs'; apply H; now apply suffix_cons_r.
Qed.

(** The text in front of the first match is kept. *)
Lemma replace_from_prefix (a rest : str) (prev : option ascii) :
  nowhere (matches r total) a rest = true ->
  replace prev 0 (a ++ rest) = a ++ replace (prev_after a prev) 0 rest.
Proof.
  revert prev. induction a as [|c a IH]; intros prev; [reflexivity|].
  cbn [nowhere]. intros [H1 H2]%andb_true_iff.
  apply negb_true_iff in H1. unfold matches in H1.
  destruct (match_at r total ((c :: a) ++ rest)) eqn:E; [discriminate|].
  cbn [app] in *. cbn [replace replace_from]. rewrite E.
  destruct (negb anchored || _); cbn [app]; f_equal; now apply IH.
Qed.

(** The characters of a match are passed over. *)
Lemma replace_from_skip (h s : str) (prev : option ascii) :
  replace prev (length h) (h ++ s) = replace (prev_after h prev) 0 s.
Proof.
  revert prev. induction h as [|c h IH]; intros prev; [reflexivity|].
  cbn [length app]. cbn [replace replace_from]. apply IH.
Qed.

(** A match that is not empty is replaced by the template, and the
    search goes on behind it. *)
Lemma replace_from_match (c : ascii) (m rest : str) (cap : option str)
    (prev : option ascii) :
  negb anchored || at_line_start prev = true ->
  match_at r total (c :: m ++ rest) = Some (rest, cap) ->
  replace prev 0 (c :: m ++ rest) =
  template cap ++ replace (prev_after (c :: m) prev) 0 rest.
Proof.
  intros Hstart Hm. cbn [replace replace_from]. rewrite Hstart, Hm.
  replace (length (c :: m ++ rest) - length rest) with (S (length m))
    by (cbn [length]; rewrite length_app; lia).
  f_equal. apply (replace_from_skip m rest (Some c)).
Qed.

End Replace.

(** A pattern that needs a character the text does not have leaves the
    text as it is. *)
Lemma replace_all_needs (P : ascii -> bool) (r : re) (anchored : bool)
    (template : option str -> str) (s : str) :
  needs P r = true -> without P s = true ->
  replace_all r anchored template s = s.
Proof.
  intros Hn Hs. apply replace_from_quiet. intros s' Hs'.
  apply (run_needs P r _ Hn). now apply (without_suffix P s' s).
Qed.

Lemma without_impl (P Q : ascii -> bool) (s : str) :
  (forall c, Q c = true -> P c = true) ->
  without P s = true -> without Q s = true.
Proof.
  intros H. unfold without. induction s as [|c s IH]; cbn; [reflexivity|].
  intros [Hc Hs]%andb_true_iff. rewrite (IH Hs), andb_true_r.
  destruct (Q c) eqn:E; [|reflexivity]. now rewrite (H c E) in Hc.
Qed.

Lemma later_replacements_plain (t : str) :
  without is_markup t = true -> later_replacements t = t.
Proof.
  intros H. unfold later_replacements.
  rewrite (replace_all_needs is_markup italic_re) by (reflexivity || exact H).
  rewrite (replace_all_needs is_markup link_re) by (reflexivity || exact H).
  rewrite (replace_all_needs is_markup code_re) by (reflexivity || exact H).
  rewrite (replace_all_needs is_markup heading_re) by (reflexivity || exact H).
  rewrite (replace_all_needs is_markup list_re) by (reflexivity || exact H).
  now rewrite (replace_all_needs is_markup numbered_re) by (reflexivity || exact H).
Qed.

(** The function in one piece: the empty text goes through the
    replacements unchanged. *)
Lemma cleanMarkdownText_steps (t : str) :
  cleanMarkdownText t = trim (later_replacements (unwrap_bold t)).
Proof. destruct t; reflexivity. Qed.

(** A text without markup comes back trimmed and otherwise unchanged:
    when it has no asterisk, backquote, opening bracket, hash sign,
    hyphen, plus sign or digit, none of the seven patterns matches
    anywhere in it. *)
Theorem plain_text_is_only_trimmed (t : str) :
  without is_markup t = true -> cleanMarkdownText t = trim t.
Proof.
  intros H. rewrite cleanMarkdownText_steps. unfold unwrap_bold.
  rewrite (replace_all_needs is_markup bold_re) by (reflexivity || exact H).
  now rewrite later_replacements_plain.
Qed.

Lemma plain_text_is_only_trimmed_witness :
  cleanMarkdownText (lit "  What does VLOOKUP do?
 ") = lit "What does VLOOKUP do?".
Proof.
  exact (plain_text_is_only_trimmed (lit "  What does VLOOKUP do?
 ") eq_refl).
Defined.

(** *** Bold text *)

(** A lazy repetition of a class in front of a continuation: it passes
    the characters on which the continuation fails and stops where it
    succeeds first. *)
Lemma star_lazy_class_until (p : ascii -> bool) (total : nat) (k : Cont)
    (rest : str) (cap : option str) (result : Result) (x : str) :
  forall fuel,
    length (x ++ rest) <= fuel ->
    forallb p x = true ->
    (forall pre c s', x = pre ++ c :: s' -> k (c :: s' ++ rest) cap = None) ->
    k rest cap = Some result ->
    star_loop false (run (Cls p) total) k fuel (x ++ rest) cap = Some result.
Proof.
  induction x as [|c x IH]; intros fuel Hfuel Hp Hfail Hk.
  - destruct fuel; cbn [app star_loop]; now rewrite Hk.
  - destruct fuel as [|fuel]; [cbn in Hfuel; lia|].
    cbn [forallb] in Hp. apply andb_true_iff in Hp as [Hc Hx].
    rewrite star_loop_step. cbv zeta iota. cbn [app].
    rewrite (Hfail [] c x eq_refl). rewrite run_Cls, Hc.
    replace (length (x ++ rest) <? length (c :: x ++ rest))%nat with true
      by (symmetry; apply Nat.ltb_lt; cbn; lia).
    apply IH; [cbn in Hfuel; lia | exact Hx | | exact Hk].
    intros pre d s' ->. apply (Hfail (c :: pre) d s'). reflexivity.
Qed.

Lemma without_head (P : ascii -> bool) (x pre : str) (c : ascii) (s' : str) :
  without P x = true -> x = pre ++ c :: s' -> P c = false.
Proof.
  intros H ->. unfold without in H. rewrite forallb_app in H.
  apply andb_true_iff in H as [_ H]. cbn in H.
  apply andb_true_iff in H as [H _]. now apply negb_true_iff.
Qed.

(** The bold pattern on a text between two pairs of asterisks. *)
Lemma match_at_bold (total : nat) (x b : str) :
  without is_star x = true -> without is_line_terminator x = true ->
  match_at bold_re total (lit "**" ++ x ++ lit "**" ++ b) = Some (b, Some x).
Proof.
  intros Hstar Hline. unfold match_at, bold_re.
  rewrite run_Seq, run_Lit, is_prefix_app, skipn_label.
  rewrite run_Seq, run_Group. unfold Lazy, dotline.
  change (run (Star false ?r) total ?s ?cap ?k)
    with (star_loop false (run r total) k (length s) s cap).
  apply star_lazy_class_until.
  - reflexivity.
  - exact Hline.
  - intros pre c s' E. rewrite run_Lit.
    pose proof (without_head is_star x pre c s' Hstar E) as Hc.
    unfold is_star in Hc. cbn [lit list_ascii_of_string is_prefix].
    now rewrite Ascii.eqb_sym, Hc.
  - rewrite run_Lit, is_prefix_app, skipn_label. unfold accept.
    now rewrite firstn_pre.
Qed.

Lemma without_app (P : ascii -> bool) (a b : str) :
  without P (a ++ b) = without P a && without P b.
Proof. apply forallb_app. Qed.

(** The first replacement on a text with one bold part. *)
Lemma unwrap_bold_once (a x b : str) :
  without is_star a = true -> without is_star x = true ->
  without is_star b = true -> without is_line_terminator x = true ->
  unwrap_bold (a ++ lit "**" ++ x ++ lit "**" ++ b) = a ++ x ++ b.
Proof.
  intros Ha Hx Hb Hline. unfold unwrap_bold, replace_all.
  set (total := length _).
  rewrite replace_from_prefix
    by (apply (nowhere_starts is_star); [reflexivity | exact Ha]).
  f_equal.
  change (lit "**" ++ x ++ lit "**" ++ b)
    with ("*"%char :: ("*"%char :: x ++ lit "**" ++ b)).
  replace ("*"%char :: x ++ lit "**" ++ b) with (("*"%char :: x ++ lit "**") ++ b)
    by (cbn [app]; now rewrite <- !app_assoc).
  rewrite replace_from_match with (cap := Some x).
  - cbn [group1]. f_equal. apply replace_from_quiet. intros s' Hs'.
    apply (run_needs is_star bold_re total eq_refl).
    now apply (without_suffix is_star s' b).
  - reflexivity.
  - replace ("*"%char :: ("*"%char :: x ++ lit "**") ++ b)
      with (lit "**" ++ x ++ lit "**" ++ b)
      by (cbn [app lit list_ascii_of_string]; now rewrite <- !app_assoc).
    now apply match_at_bold.
Qed.

Lemma markup_star (c : ascii) : is_star c = true -> is_markup c = true.
Proof. unfold is_star, is_markup. now intros ->. Qed.

(** A part of a line set in bold comes back without its asterisks, and
    nothing else changes but the trimming: for texts [a], [x] and [b]
    without markup characters, [x] within one line. *)
Theorem bold_is_unwrapped (a x b : str) :
  without is_markup a = true -> without is_markup x = true ->
  without is_markup b = true -> without is_line_terminator x = true ->
  cleanMarkdownText (a ++ lit "**" ++ x ++ lit "**" ++ b) = trim (a ++ x ++ b).
Proof.
  intros Ha Hx Hb Hline. rewrite cleanMarkdownText_steps.
  rewrite unwrap_bold_once;
    try (apply (without_impl is_markup is_star); [exact markup_star | assumption]);
    try assumption.
  rewrite later_replacements_plain; [reflexivity|].
  now rewrite !without_app, Ha, Hx, Hb.
Qed.

Lemma bold_is_unwrapped_witness :
  cleanMarkdownText (lit "Use **absolute references** here. ") =
  lit "Use absolute references here.".
Proof.
  exact (bold_is_unwrapped (lit "Use ") (lit "absolute references") (lit " here. ")
           eq_refl eq_refl eq_refl eq_refl).
Defined.

(** *** Two asterisks on a line *)

Lemma replace_from_miss (r : re) (anchored : bool) (template : option str -> str)
    (total : nat) (prev : option ascii) (c : ascii) (s : str) :
  match_at r total (c :: s) = None ->
  replace_from r anchored template total prev 0 (c :: s) =
  c :: replace_from r anchored template total (Some c) 0 s.
Proof.
  intros H. cbn [replace_from]. rewrite H. now destruct (negb anchored || _).
Qed.

(** The bold pattern does not start at an asterisk that is not followed
    by another one. *)
Lemma match_at_bold_single (total : nat) (s : str) :
  match s with c :: _ => is_star c = false | [] => True end ->
  match_at bold_re total ("*"%char :: s) = None.
Proof.
  intros H. unfold match_at, bold_re. rewrite run_Seq, run_Lit.
  destruct s as [|c s]; [reflexivity|].
  unfold is_star in H. cbn [lit list_ascii_of_string is_prefix].
  now rewrite Ascii.eqb_refl, Ascii.eqb_sym, H.
Qed.

Lemma without_first (P : ascii -> bool) (s : str) :
  without P s = true ->
  match s with c :: _ => P c = false | [] => True end.
Proof.
  destruct s as [|c s]; [exact (fun _ => I)|]. cbn [without forallb].
  intros [H _]%andb_true_iff. now apply negb_true_iff.
Qed.

(** The bold pattern finds nothing in a text with two single asterisks. *)
Lemma unwrap_bold_singles (a x b : str) :
  without is_star a = true -> without is_star x = true ->
  without is_star b = true -> x <> [] ->
  unwrap_bold (a ++ "*"%char :: x ++ "*"%char :: b) = a ++ "*"%char :: x ++ "*"%char :: b.
Proof.
  intros Ha Hx Hb Hne. unfold unwrap_bold, replace_all. set (total := length _).
  rewrite replace_from_prefix
    by (apply (nowhere_starts is_star); [reflexivity | exact Ha]).
  f_equal. rewrite replace_from_miss.
  2:{ apply match_at_bold_single. destruct x as [|c x]; [contradiction|].
      exact (without_first is_star (c :: x) Hx). }
  f_equal. rewrite replace_from_prefix
    by (apply (nowhere_starts is_star); [reflexivity | exact Hx]).
  f_equal. rewrite replace_from_miss
    by (apply match_at_bold_single; exact (without_first is_star b Hb)).
  f_equal. apply replace_from_quiet. intros s' Hs'.
  apply (run_needs is_star bold_re total eq_refl).
  now apply (without_suffix is_star s' b).
Qed.

(** The italic pattern on a text between two asterisks. *)
Lemma match_at_italic (total : nat) (x b : str) :
  without is_star x = true -> without is_line_terminator x = true ->
  match_at italic_re total ("*"%char :: x ++ "*"%char :: b) = Some (b, Some x).
Proof.
  intros Hstar Hline. unfold match_at, italic_re.
  rewrite run_Seq, run_Chr. cbn [Ascii.eqb Bool.eqb].
  rewrite run_Seq, run_Group. unfold Lazy, dotline.
  change (run (Star false ?r) total ?s ?cap ?k)
    with (star_loop false (run r total) k (length s) s cap).
  apply star_lazy_class_until.
  - reflexivity.
  - exact Hline.
  - intros pre c s' E. rewrite run_Chr.
    pose proof (without_head is_star x pre c s' Hstar E) as Hc.
    unfold is_star in Hc. now rewrite Ascii.eqb_sym, Hc.
  - rewrite run_Chr. cbn [Ascii.eqb Bool.eqb]. unfold accept.
    now rewrite firstn_pre.
Qed.

Lemma unwrap_italic_once (a x b : str) :
  without is_star a = true -> without is_star x = true ->
  without is_star b = true -> without is_line_terminator x = true ->
  replace_all italic_re false group1 (a ++ "*"%char :: x ++ "*"%char :: b) =
  a ++ x ++ b.
Proof.
  intros Ha Hx Hb Hline. unfold replace_all. set (total := length _).
  rewrite replace_from_prefix
    by (apply (nowhere_starts is_star); [reflexivity | exact Ha]).
  f_equal.
  replace ("*"%char :: x ++ "*"%char :: b) with ("*"%char :: (x ++ ["*"%char]) ++ b)
    by now rewrite <- app_assoc.
  rewrite replace_from_match with (cap := Some x).
  - cbn [group1]. f_equal. apply replace_from_quiet. intros s' Hs'.
    apply (run_needs is_star italic_re total eq_refl).
    now apply (without_suffix is_star s' b).
  - reflexivity.
  - rewrite <- app_assoc. now apply match_at_italic.
Qed.

Lemma syntax_star (c : ascii) : is_star c = true -> is_syntax c = true.
Proof. unfold is_star, is_syntax. now intros ->. Qed.

(** Two asterisks on one line are taken for emphasis and removed, also
    where they multiply: for texts [a], [x] and [b] without asterisk,
    backquote, opening bracket, hash sign, hyphen, plus sign or full
    stop, [x] not empty and within one line, the text [a*x*b] comes back
    as [axb], trimmed.  The formula [=A1*B1*C1] comes back as
    [=A1B1C1]. *)
Theorem two_asterisks_are_removed (a x b : str) :
  without is_syntax a = true -> without is_syntax x = true ->
  without is_syntax b = true -> without is_line_terminator x = true ->
  x <> [] ->
  cleanMarkdownText (a ++ "*"%char :: x ++ "*"%char :: b) = trim (a ++ x ++ b).
Proof.
  intros Ha Hx Hb Hline Hne. rewrite cleanMarkdownText_steps.
  assert (Sa := without_impl is_syntax is_star a syntax_star Ha).
  assert (Sx := without_impl is_syntax is_star x syntax_star Hx).
  assert (Sb := without_impl is_syntax is_star b syntax_star Hb).
  rewrite unwrap_bold_singles by assumption.
  unfold later_replacements. rewrite unwrap_italic_once by assumption.
  assert (H : without is_syntax (a ++ x ++ b) = true)
    by now rewrite !without_app, Ha, Hx, Hb.
  rewrite (replace_all_needs is_syntax link_re) by (reflexivity || exact H).
  rewrite (replace_all_needs is_syntax code_re) by (reflexivity || exact H).
  rewrite (replace_all_needs is_syntax heading_re) by (reflexivity || exact H).
  rewrite (replace_all_needs is_syntax list_re) by (reflexivity || exact H).
  now rewrite (replace_all_needs is_syntax numbered_re) by (reflexivity || exact H).
Qed.

Lemma two_asterisks_are_removed_witness :
  cleanMarkdownText (lit "=A1*B1*C1") = lit "=A1B1C1".
Proof.
  exact (two_asterisks_are_removed (lit "=A1") (lit "B1") (lit "C1")
           eq_refl eq_refl eq_refl eq_refl ltac:(discriminate)).
Defined.

(** *** List items *)

(** The list pattern on a hyphen followed by white space. *)
Lemma match_at_list (total : nat) (w : ascii) (x : str) :
  is_space w = true ->
  match_at list_re total ("-"%char :: w :: x) = Some (drop_while is_space x, None).
Proof.
  intros Hw. unfold match_at, list_re.
  rewrite run_Seq. unfold space. rewrite run_Many_class.
  cbn [greedy_scan]. change (is_space "-") with false. cbv iota.
  rewrite run_Seq, run_Cls. change (is_list_mark "-") with true. cbv iota.
  rewrite run_Plus_class, Hw.
  rewrite greedy_scan_total by discriminate. reflexivity.
Qed.

Lemma space_not_mark (w : ascii) :
  is_space w = true -> is_inline_mark w = false /\ is_digit w = false.
Proof.
  destruct w as [[] [] [] [] [] [] [] []]; try discriminate; now split.
Qed.

Lemma without_drop_while (P q : ascii -> bool) (s : str) :
  without P s = true -> without P (drop_while q s) = true.
Proof. apply (forallb_drop_while (fun c => negb (P c))). Qed.

(** A text that starts with a hyphen and white space comes back with a
    bullet and one space in their place: for a text [x] without markup
    characters the result is the bullet, a space and [x] without its
    leading white space, trimmed. *)
Theorem list_mark_becomes_bullet (w : ascii) (x : str) :
  is_space w = true -> without is_markup x = true ->
  cleanMarkdownText ("-"%char :: w :: x) = trim (bullet ++ trimStart x).
Proof.
  intros Hw Hx. destruct (space_not_mark w Hw) as [Hw1 Hw2].
  assert (Hinline : without is_inline_mark ("-"%char :: w :: x) = true).
  { cbn [without forallb]. rewrite Hw1. cbn.
    apply (without_impl is_markup); [|exact Hx].
    unfold is_inline_mark, is_markup. intros c H.
    repeat (apply orb_true_iff in H as [H|H]); rewrite H; cbn;
      rewrite ?orb_true_r; reflexivity. }
  assert (Hmark : without is_list_mark (drop_while is_space x) = true).
  { apply without_drop_while. apply (without_impl is_markup); [|exact Hx].
    unfold is_list_mark, is_markup. intros c H.
    repeat (apply orb_true_iff in H as [H|H]); rewrite H; cbn;
      rewrite ?orb_true_r; reflexivity. }
  assert (Hdigit : without is_digit (bullet ++ drop_while is_space x) = true).
  { rewrite without_app. apply andb_true_iff. split; [reflexivity|].
    apply without_drop_while. apply (without_impl is_markup); [|exact Hx].
    unfold is_markup. intros c H. rewrite H. now rewrite !orb_true_r. }
  rewrite cleanMarkdownText_steps. unfold unwrap_bold, later_replacements.
  rewrite (replace_all_needs is_inline_mark bold_re) by (reflexivity || exact Hinline).
  rewrite (replace_all_needs is_inline_mark italic_re) by (reflexivity || exact Hinline).
  rewrite (replace_all_needs is_inline_mark link_re) by (reflexivity || exact Hinline).
  rewrite (replace_all_needs is_inline_mark code_re) by (reflexivity || exact Hinline).
  rewrite (replace_all_needs is_inline_mark heading_re) by (reflexivity || exact Hinline).
  assert (Hlist : replace_all list_re true (text bullet) ("-"%char :: w :: x) =
                  bullet ++ drop_while is_space x).
  { unfold replace_all. set (total := length _).
    replace ("-"%char :: w :: x)
      with ("-"%char :: (w :: take_while is_space x) ++ drop_while is_space x)
      by (cbn [app]; now rewrite take_drop_while).
    rewrite replace_from_match with (cap := None).
    - unfold text. f_equal. apply replace_from_quiet. intros s' Hs'.
      apply (run_needs is_list_mark list_re total eq_refl).
      now apply (without_suffix is_list_mark s' (drop_while is_space x)).
    - reflexivity.
    - cbn [app]. rewrite take_drop_while. now apply match_at_list. }
  rewrite Hlist.
  now rewrite (replace_all_needs is_digit numbered_re) by (reflexivity || exact Hdigit).
Qed.

Lemma list_mark_becomes_bullet_witness :
  cleanMarkdownText (lit "-   Explain pivot tables") =
  bullet ++ lit "Explain pivot tables".
Proof.
  exact (list_mark_becomes_bullet " " (lit "  Explain pivot tables") eq_refl eq_refl).
Defined.

(** *** Links *)

Lemma forallb_weaken (p q : ascii -> bool) (s : str) :
  (forall c, p c = true -> q c = true) -> forallb p s = true -> forallb q s = true.
Proof.
  intros H. induction s as [|c s IH]; cbn; [reflexivity|].
  intros [Hc Hs]%andb_true_iff. now rewrite (H c Hc), IH.
Qed.

Lemma forallb_head (p : ascii -> bool) (x pre : str) (c : ascii) (s' : str) :
  forallb p x = true -> x = pre ++ c :: s' -> p c = true.
Proof.
  intros H ->. rewrite forallb_app in H. apply andb_true_iff in H as [_ H].
  cbn in H. now apply andb_true_iff in H as [H _].
Qed.

(** The link pattern on a link. *)
Lemma match_at_link (total : nat) (x u b : str) :
  link_text x = true -> link_target u = true ->
  match_at link_re total ("["%char :: x ++ lit "](" ++ u ++ ")"%char :: b) =
  Some (b, Some x).
Proof.
  intros Hx Hu. unfold match_at, link_re.
  rewrite run_Seq, run_Chr. cbn [Ascii.eqb Bool.eqb].
  rewrite run_Seq, run_Group. unfold Lazy, dotline.
  change (run (Star false ?r) total ?s ?cap ?k)
    with (star_loop false (run r total) k (length s) s cap).
  apply star_lazy_class_until.
  - reflexivity.
  - revert Hx. apply forallb_weaken. now intros c [H _]%andb_true_iff.
  - intros pre c s' E. rewrite run_Seq, run_Lit.
    pose proof (forallb_head _ x pre c s' Hx E) as Hc.
    apply andb_true_iff in Hc as [_ Hc]. apply negb_true_iff in Hc.
    cbn [lit list_ascii_of_string is_prefix]. now rewrite Ascii.eqb_sym, Hc.
  - rewrite run_Seq, run_Lit, is_prefix_app, skipn_label.
    rewrite run_Seq.
    change (run (Star false ?r) total ?s ?cap ?k)
      with (star_loop false (run r total) k (length s) s cap).
    apply star_lazy_class_until.
    + reflexivity.
    + revert Hu. apply forallb_weaken.
      now intros c [[H _]%andb_true_iff _]%andb_true_iff.
    + intros pre c s' E. rewrite run_Chr.
      pose proof (forallb_head _ u pre c s' Hu E) as Hc.
      apply andb_true_iff in Hc as [Hc _]. apply andb_true_iff in Hc as [_ Hc].
      apply negb_true_iff in Hc. now rewrite Ascii.eqb_sym, Hc.
    + rewrite run_Chr. cbn [Ascii.eqb Bool.eqb]. unfold accept.
      now rewrite firstn_pre.
Qed.

Lemma markup_bracket (c : ascii) : is_bracket c = true -> is_markup c = true.
Proof. unfold is_bracket, is_markup. intros ->. now rewrite !orb_true_r. Qed.

Lemma link_target_no_star (u : str) : link_target u = true -> without is_star u = true.
Proof.
  apply forallb_weaken. unfold is_star. now intros c [_ H]%andb_true_iff.
Qed.

(** A link comes back as its text, and its target is dropped: for texts
    [a], [x] and [b] without markup characters, [x] one line without a
    closing bracket, and a target [u] that is one line without an
    asterisk or a closing parenthesis. *)
Theorem link_keeps_its_text (a x u b : str) :
  without is_markup a = true -> without is_markup x = true ->
  without is_markup b = true -> link_text x = true -> link_target u = true ->
  cleanMarkdownText (a ++ "["%char :: x ++ lit "](" ++ u ++ ")"%char :: b) =
  trim (a ++ x ++ b).
Proof.
  intros Ha Hx Hb Htext Htarget. rewrite cleanMarkdownText_steps.
  assert (Hstar : without is_star
                    (a ++ "["%char :: x ++ lit "](" ++ u ++ ")"%char :: b) = true).
  { rewrite without_app. cbn [without forallb]. fold (without is_star).
    change (forallb (fun c => negb (is_star c))) with (without is_star).
    rewrite !without_app. cbn [without forallb lit list_ascii_of_string].
    change (forallb (fun c => negb (is_star c))) with (without is_star).
    rewrite (without_impl is_markup is_star a markup_star Ha).
    rewrite (without_impl is_markup is_star x markup_star Hx).
    rewrite (without_impl is_markup is_star b markup_star Hb).
    now rewrite (link_target_no_star u Htarget). }
  unfold unwrap_bold, later_replacements.
  rewrite (replace_all_needs is_star bold_re) by (reflexivity || exact Hstar).
  rewrite (replace_all_needs is_star italic_re) by (reflexivity || exact Hstar).
  assert (Hlink : replace_all link_re false group1
                    (a ++ "["%char :: x ++ lit "](" ++ u ++ ")"%char :: b) =
                  a ++ x ++ b).
  { unfold replace_all. set (total := length _).
    rewrite replace_from_prefix.
    2:{ apply (nowhere_starts is_bracket); [reflexivity|].
        exact (without_impl is_markup is_bracket a markup_bracket Ha). }
    f_equal.
    replace ("["%char :: x ++ lit "](" ++ u ++ ")"%char :: b)
      with ("["%char :: (x ++ lit "](" ++ u ++ [")"%char]) ++ b)
      by (now rewrite <- !app_assoc).
    rewrite replace_from_match with (cap := Some x).
    - cbn [group1]. f_equal. apply replace_from_quiet. intros s' Hs'.
      apply (run_needs is_markup link_re total eq_refl).
      now apply (without_suffix is_markup s' b).
    - reflexivity.
    - rewrite <- !app_assoc. now apply match_at_link. }
  rewrite Hlink.
  assert (H : without is_markup (a ++ x ++ b) = true)
    by now rewrite !without_app, Ha, Hx, Hb.
  rewrite (replace_all_needs is_markup code_re) by (reflexivity || exact H).
  rewrite (replace_all_needs is_markup heading_re) by (reflexivity || exact H).
  rewrite (replace_all_needs is_markup list_re) by (reflexivity || exact H).
  now rewrite (replace_all_needs is_markup numbered_re) by (reflexivity || exact H).
Qed.

Lemma link_keeps_its_text_witness :
  cleanMarkdownText (lit "See [the help page](https://example.org/help-1#top).") =
  lit "See the help page.".
Proof.
  exact (link_keeps_its_text (lit "See ") (lit "the help page")
           (lit "https://example.org/help-1#top") (lit ".")
           eq_refl eq_refl eq_refl eq_refl eq_refl).
Defined.

(** *** Numbered items *)

(** The numbering pattern on a number, a full stop and white space. *)
Lemma match_at_numbered (total : nat) (number : str) (w : ascii) (x : str) :
  number <> [] -> forallb is_digit number = true -> is_space w = true ->
  match_at numbered_re total (number ++ "."%char :: w :: x) =
  Some (drop_while is_space x, None).
Proof.
  intros Hn Hd Hw. destruct number as [|d number]; [contradiction|].
  cbn [forallb] in Hd. apply andb_true_iff in Hd as [Hd Hds].
  unfold match_at, numbered_re.
  rewrite run_Seq. unfold space. rewrite run_Many_class.
  cbn [app greedy_scan]. rewrite (digit_not_space d Hd).
  rewrite run_Seq. unfold digit. rewrite run_Plus_class, Hd.
  rewrite greedy_scan_blocked.
  2:{ intros c s' Hc. rewrite run_Seq, run_Chr. now rewrite (digit_not_dot c Hc). }
  rewrite (drop_while_all_app _ _ _ Hds). cbn [drop_while].
  change (is_digit ".") with false. cbv iota.
  rewrite run_Seq, run_Chr. cbn [Ascii.eqb Bool.eqb].
  rewrite run_Plus_class, Hw.
  rewrite greedy_scan_total by discriminate. reflexivity.
Qed.

Lemma digits_not_inline (s : str) :
  forallb is_digit s = true ->
  without is_inline_mark s = true /\ without is_list_mark s = true.
Proof.
  induction s as [|c s IH]; cbn [forallb without]; [now split|].
  intros [Hc Hs]%andb_true_iff. destruct (IH Hs) as [I1 I2].
  unfold without in I1, I2. rewrite I1, I2, !andb_true_r.
  destruct c as [[] [] [] [] [] [] [] []]; try discriminate Hc; now split.
Qed.

Lemma replace_numbered_once (number : str) (w : ascii) (x : str) :
  number <> [] -> forallb is_digit number = true -> is_space w = true ->
  without is_digit x = true ->
  replace_all numbered_re true (text []) (number ++ "."%char :: w :: x) =
  drop_while is_space x.
Proof.
  intros Hn Hd Hw Hx. unfold replace_all. set (total := length _).
  pose proof (match_at_numbered total number w x Hn Hd Hw) as Hm.
  destruct number as [|d ds]; [contradiction|].
  assert (Hshape : (d :: ds) ++ "."%char :: w :: x =
                   d :: (ds ++ "."%char :: w :: take_while is_space x)
                     ++ drop_while is_space x).
  { cbn [app]. rewrite <- app_assoc. cbn [app]. now rewrite take_drop_while. }
  rewrite Hshape in *.
  rewrite replace_from_match with (cap := None).
  - unfold text. cbn [app]. apply replace_from_quiet. intros s' Hs'.
    apply (run_needs is_digit numbered_re total eq_refl).
    apply (without_suffix is_digit s' (drop_while is_space x) Hs').
    now apply without_drop_while.
  - reflexivity.
  - exact Hm.
Qed.

(** The numbering of a leading numbered item is removed: a text that
    starts with a number, a full stop and white space, followed by a
    text [x] without markup characters, comes back as [x], trimmed. *)
Theorem numbering_is_removed (number : str) (w : ascii) (x : str) :
  number <> [] -> forallb is_digit number = true -> is_space w = true ->
  without is_markup x = true ->
  cleanMarkdownText (number ++ "."%char :: w :: x) = trim x.
Proof.
  intros Hn Hd Hw Hx. destruct (space_not_mark w Hw) as [Hw1 Hw2].
  destruct (digits_not_inline number Hd) as [Hn1 Hn2].
  assert (Hin : forall c, is_inline_mark c = true -> is_markup c = true).
  { unfold is_inline_mark, is_markup. intros c H.
    repeat (apply orb_true_iff in H as [H|H]); rewrite H; cbn;
      rewrite ?orb_true_r; reflexivity. }
  assert (Hli : forall c, is_list_mark c = true -> is_markup c = true).
  { unfold is_list_mark, is_markup. intros c H.
    repeat (apply orb_true_iff in H as [H|H]); rewrite H; cbn;
      rewrite ?orb_true_r; reflexivity. }
  assert (Hinline : without is_inline_mark (number ++ "."%char :: w :: x) = true).
  { rewrite without_app, Hn1. cbn [without forallb]. rewrite Hw1. cbn.
    exact (without_impl is_markup is_inline_mark x Hin Hx). }
  assert (Hlist : without is_list_mark (number ++ "."%char :: w :: x) = true).
  { rewrite without_app, Hn2. cbn [without forallb].
    assert (Hwl : is_list_mark w = false)
      by (destruct w as [[] [] [] [] [] [] [] []]; try discriminate Hw; reflexivity).
    rewrite Hwl. cbn.
    exact (without_impl is_markup is_list_mark x Hli Hx). }
  rewrite cleanMarkdownText_steps. unfold unwrap_bold, later_replacements.
  rewrite (replace_all_needs is_inline_mark bold_re) by (reflexivity || exact Hinline).
  rewrite (replace_all_needs is_inline_mark italic_re) by (reflexivity || exact Hinline).
  rewrite (replace_all_needs is_inline_mark link_re) by (reflexivity || exact Hinline).
  rewrite (replace_all_needs is_inline_mark code_re) by (reflexivity || exact Hinline).
  rewrite (replace_all_needs is_inline_mark heading_re) by (reflexivity || exact Hinline).
  rewrite (replace_all_needs is_list_mark list_re) by (reflexivity || exact Hlist).
  assert (Hnum : replace_all numbered_re true (text [])
                   (number ++ "."%char :: w :: x) = drop_while is_space x).
  { apply replace_numbered_once; try assumption.
    apply (without_impl is_markup); [|exact Hx].
    unfold is_markup. intros c H. rewrite H. now rewrite !orb_true_r. }
  rewrite Hnum. unfold trim, trimStart. now rewrite drop_while_idem.
Qed.

Lemma numbering_is_removed_witness :
  cleanMarkdownText (lit "12.  Explain pivot tables") = lit "Explain pivot tables".
Proof.
  exact (numbering_is_removed (lit "12") " " (lit " Explain pivot tables")
           ltac:(discriminate) eq_refl eq_refl eq_refl).
Defined.

End MarkdownFacts.

(** ** What a match consumes *)

Module RegexLanguageFacts.

Import JS Regex InterviewResults RegexLanguage.
Import StrFacts RegexFacts InterviewResultsFacts.

(** A repetition succeeds through its continuation, after a text made of
    texts of the body. *)
Lemma star_loop_sound (greedy : bool) (r : re)
    (body : str -> option str -> Cont -> option Result) (k : Cont) :
  (forall s cap k0 result,
     body s cap k0 = Some result ->
     exists m s' cap', s = m ++ s' /\ consumes r m /\ k0 s' cap' = Some result) ->
  forall fuel s cap result,
    star_loop greedy body k fuel s cap = Some result ->
    exists m s' cap',
      s = m ++ s' /\ consumes (Star greedy r) m /\ k s' cap' = Some result.
Proof.
  intros Hbody. induction fuel as [|fuel IH]; intros s cap result.
  - cbn. intros H. exists [], s, cap. repeat split; [constructor | exact H].
  - rewrite star_loop_step. cbv zeta.
    assert (Hstop : k s cap = Some result ->
                    exists m s' cap',
                      s = m ++ s' /\ consumes (Star greedy r) m /\
                      k s' cap' = Some result).
    { intros H. exists [], s, cap. repeat split; [constructor | exact H]. }
    assert (Hagain :
      body s cap (fun s' cap' =>
                    if (length s' <? length s)%nat
                    then star_loop greedy body k fuel s' cap' else None)
        = Some result ->
      exists m s' cap',
        s = m ++ s' /\ consumes (Star greedy r) m /\ k s' cap' = Some result).
    { intros H. apply Hbody in H as (m1 & s1 & cap1 & -> & Hm1 & H).
      destruct (length s1 <? length (m1 ++ s1))%nat; [|discriminate].
      apply IH in H as (m2 & s2 & cap2 & -> & Hm2 & H).
      exists (m1 ++ m2), s2, cap2. rewrite <- app_assoc.
      repeat split; [now constructor | exact H]. }
    destruct greedy.
    + destruct (body s cap _) as [res|] eqn:E.
      * intros [= <-]. now apply Hagain.
      * exact Hstop.
    + destruct (k s cap) as [res|] eqn:E.
      * intros [= <-]. now apply Hstop.
      * exact Hagain.
Qed.

(** The matcher is sound: a success goes through the continuation, after
    a text the pattern can take. *)
Lemma run_sound (r : re) (total : nat) :
  forall s cap k result,
    run r total s cap k = Some result ->
    exists m s' cap', s = m ++ s' /\ consumes r m /\ k s' cap' = Some result.
Proof.
  induction r as [c|p| |r1 IH1 r2 IH2|r1 IH1 r2 IH2|g r1 IH1|r1 IH1|r1 IH1| |];
    intros s cap k result; cbn [run].
  - destruct s as [|d s]; [discriminate|].
    destruct (Ascii.eqb_spec c d) as [<-|]; [|discriminate].
    intros H. exists [c], s, cap. repeat split; [constructor | exact H].
  - destruct s as [|d s]; [discriminate|].
    destruct (p d) eqn:E; [|discriminate].
    intros H. exists [d], s, cap. repeat split; [now constructor | exact H].
  - intros H. exists [], s, cap. repeat split; [constructor | exact H].
  - intros H. apply IH1 in H as (m1 & s1 & cap1 & -> & Hm1 & H).
    apply IH2 in H as (m2 & s2 & cap2 & -> & Hm2 & H).
    exists (m1 ++ m2), s2, cap2. rewrite <- app_assoc.
    repeat split; [now constructor | exact H].
  - destruct (run r1 total s cap k) as [res|] eqn:E.
    + intros [= <-]. apply IH1 in E as (m & s' & cap' & -> & Hm & H).
      exists m, s', cap'. repeat split; [now apply consumes_Alt_l | exact H].
    + intros H. apply IH2 in H as (m & s' & cap' & -> & Hm & H).
      exists m, s', cap'. repeat split; [now apply consumes_Alt_r | exact H].
  - apply star_loop_sound. exact IH1.
  - intros H. apply IH1 in H as (m & s' & cap' & -> & Hm & H).
    exists m, s', (Some (firstn (length (m ++ s') - length s') (m ++ s'))).
    repeat split; [now constructor | exact H].
  - destruct (run r1 total s cap _) as [[? cap']|]; [|discriminate].
    intros H. exists [], s, cap'. repeat split; [constructor | exact H].
  - destruct (length s =? total)%nat; [|discriminate].
    intros H. exists [], s, cap. repeat split; [constructor | exact H].
  - destruct s; [|discriminate].
    intros H. exists [], [], cap. repeat split; [constructor | exact H].
Qed.

(** The capture of a group around the whole pattern is the text of the
    match. *)
Lemma match_at_group (r : re) (total : nat) (s rest : str) (cap : option str) :
  match_at (Group r) total s = Some (rest, cap) ->
  exists m, cap = Some m /\ s = m ++ rest /\ consumes r m.
Proof.
  unfold match_at. rewrite run_Group. intros H.
  apply run_sound in H as (m & s' & cap' & -> & Hm & H).
  unfold accept in H. injection H as <- <-.
  exists m. now rewrite firstn_pre.
Qed.

Lemma consumes_star_class (greedy : bool) (p : ascii -> bool) (m : str) :
  consumes (Star greedy (Cls p)) m -> forallb p m = true.
Proof.
  intros H. remember (Star greedy (Cls p)) as r eqn:E.
  induction H as [| | | | | | |g r0 m1 m2 H1 _ H2 IH2| | | |]; try discriminate.
  - reflexivity.
  - injection E as -> ->. inversion H1; subst. cbn. rewrite IH2 by reflexivity.
    now rewrite andb_true_r.
Qed.

Lemma consumes_plus_class (p : ascii -> bool) (m : str) :
  consumes (Plus (Cls p)) m -> m <> [] /\ forallb p m = true.
Proof.
  unfold Plus. intros H. inversion H as [| | |? ? m1 m2 H1 H2| | | | | | | |]; subst.
  inversion H1; subst. apply consumes_star_class in H2.
  split; [discriminate|]. cbn. now rewrite H2, andb_true_r.
Qed.

(** What the header pattern captures is a header text. *)
Lemma header_capture (total : nat) (s rest : str) (cap : option str) :
  match_at header_re total s = Some (rest, cap) ->
  exists h, cap = Some h /\ s = h ++ rest /\ header_text h.
Proof.
  intros H. apply match_at_group in H as (m & -> & -> & Hm).
  exists m. repeat split.
  inversion Hm as [| | |? ? number m1 Hn H1| | | | | | | |]; subst.
  inversion H1 as [| | |? ? dot m2 Hd H2| | | | | | | |]; subst.
  inversion H2 as [| | |? ? gap m3 Hg H3| | | | | | | |]; subst.
  inversion H3 as [| | |? ? title colon Ht Hc| | | | | | | |]; subst.
  inversion Hd; subst. inversion Hc; subst.
  apply consumes_plus_class in Hn as [Hn1 Hn2].
  apply consumes_plus_class in Hg as [Hg1 Hg2].
  apply consumes_plus_class in Ht as [Ht1 Ht2].
  exists number, gap, title. now repeat split.
Qed.

End RegexLanguageFacts.

(** ** The sections of any summary *)

Module SummaryShapeFacts.

Import JS Regex InterviewResults RegexLanguage.
Import StrFacts RegexFacts InterviewResultsFacts SummaryFacts RegexLanguageFacts.

Lemma drop_while_before_colon (title : str) :
  drop_while is_space (title ++ [":"%char]) = drop_while is_space title ++ [":"%char].
Proof.
  induction title as [|c title IH]; [reflexivity|].
  cbn [app drop_while]. destruct (is_space c); [exact IH | reflexivity].
Qed.

(** The numbering pattern on a header text: it takes the number, the
    full stop and all the white space that follows. *)
Lemma match_at_numbering_header (number gap title : str) :
  number <> [] -> forallb is_digit number = true ->
  gap <> [] -> forallb is_space gap = true ->
  let h := number ++ "."%char :: gap ++ title ++ [":"%char] in
  match_at numbering_re (length h) h =
  Some (drop_while is_space title ++ [":"%char], None).
Proof.
  intros Hn Hd Hg Hs h. subst h.
  destruct number as [|d number]; [contradiction|].
  destruct gap as [|w gap]; [contradiction|].
  cbn [forallb] in Hd, Hs.
  apply andb_true_iff in Hd as [Hd Hds]. apply andb_true_iff in Hs as [Hw Hws].
  unfold match_at, numbering_re. rewrite run_Seq, run_Bos, Nat.eqb_refl.
  rewrite run_Seq. unfold digit. rewrite run_Plus_class. cbn [app]. rewrite Hd.
  rewrite greedy_scan_blocked.
  2:{ intros x s' Hx. rewrite run_Seq, run_Chr. now rewrite (digit_not_dot x Hx). }
  rewrite (drop_while_all_app _ _ _ Hds). cbn [drop_while].
  change (is_digit ".") with false. cbv iota.
  rewrite run_Seq, run_Chr. cbn [Ascii.eqb Bool.eqb].
  unfold space. rewrite run_Plus_class, Hw.
  rewrite greedy_scan_total by discriminate.
  rewrite (drop_while_all_app _ _ _ Hws), drop_while_before_colon. reflexivity.
Qed.

(** The type read off a header text: its title without the leading white
    space. *)
Lemma questionType_of_header_text (h : str) :
  header_text h ->
  questionType_of (Some h) = [] \/ section_type (questionType_of (Some h)).
Proof.
  intros (number & gap & title & -> & Hn & Hd & Hg & Hs & Ht & Hcls).
  unfold questionType_of, remove_first, exec.
  rewrite (search_found _ _ _ _ _ _
             (match_at_numbering_header number gap title Hn Hd Hg Hs)).
  cbn [before after rev app].
  assert (Hkeep : forallb upper_space_amp (drop_while is_space title) = true)
    by now apply forallb_drop_while.
  rewrite remove_char_end by now apply title_no_colon.
  destruct (drop_while is_space title) as [|c t'] eqn:E; [now left|].
  right. split; [exact Hkeep|]. exists c, t'. split; [reflexivity|].
  exact (drop_while_head is_space title c t' E).
Qed.

Lemma header_text_nonempty (h : str) : header_text h -> h <> [].
Proof.
  intros (number & gap & title & -> & Hn & _). destruct number; [contradiction|].
  discriminate.
Qed.

(** [summary.split] cuts the summary at header texts. *)
Lemma split_from_cut (whole : str) (total : nat) (s : str) :
  forall piece skip pre,
    whole = pre ++ piece ++ s ->
    skip = 0 \/ piece = [] ->
    cut_at_headers whole (split_from header_re total piece skip s).
Proof.
  induction s as [|c s IH]; intros piece skip pre Hwhole Hskip.
  - destruct skip; cbn [split_from]; constructor; now exists pre, [].
  - destruct skip as [|skip].
    + cbn [split_from].
      destruct (match_at header_re total (c :: s)) as [[rest cap]|] eqn:E.
      * apply header_capture in E as (h & -> & Hs & Hh).
        pose proof (header_text_nonempty h Hh) as Hne.
        destruct h as [|c' h]; [contradiction|].
        cbn [app] in Hs. injection Hs as <- ->.
        replace (length (c :: h ++ rest) - length rest) with (S (length h))
          by (cbn [length]; rewrite length_app; lia).
        constructor; [now exists pre, (c :: h ++ rest) | exact Hh |].
        apply (IH [] (length h) (pre ++ piece ++ [c])); [|now right].
        rewrite Hwhole, <- !app_assoc. reflexivity.
      * apply (IH (piece ++ [c]) 0 pre); [|now left].
        rewrite Hwhole, <- !app_assoc. reflexivity.
    + destruct Hskip as [Hskip| ->]; [discriminate|].
      cbn [split_from]. apply (IH [] skip (pre ++ [c])); [|now right].
      rewrite Hwhole, <- !app_assoc. reflexivity.
Qed.

Lemma occurs_split (l t : str) :
  occurs l t = true -> exists a b, t = a ++ l ++ b.
Proof.
  induction t as [|c t IH]; cbn [occurs].
  - rewrite orb_false_r. intros H. apply is_prefix_split in H.
    exists [], (skipn (length l) []). exact H.
  - intros [H|H]%orb_true_iff.
    + apply is_prefix_split in H. now exists [], (skipn (length l) (c :: t)).
    + destruct (IH H) as (a & b & ->). now exists (c :: a), b.
Qed.

Lemma occurs_part (l whole t : str) :
  part_of whole t -> occurs l whole = false -> occurs l t = false.
Proof.
  intros (pre & post & ->) H. destruct (occurs l t) eqn:E; [|reflexivity].
  apply occurs_split in E as (a & b & ->).
  replace (pre ++ (a ++ l ++ b) ++ post) with ((pre ++ a) ++ l ++ (b ++ post)) in H
    by now rewrite <- !app_assoc.
  now rewrite occurs_app in H.
Qed.

(** One turn of the loop on a header text and a piece. *)
Lemma parse_section_shape (whole h content : str) :
  header_text h -> part_of whole content ->
  match parse_section (Some h) content with
  | Some q => section_type (type q) /\ occurs (lit "Question:") whole = true
  | None => True
  end.
Proof.
  intros Hh Hpart. unfold parse_section.
  destruct (questionType_of_header_text h Hh) as [E|Htype].
  - now rewrite E.
  - destruct (questionType_of (Some h)) as [|c t] eqn:E; [exact I|].
    destruct (exec question_re content) eqn:Q; [|exact I].
    cbn [type]. split; [exact Htype|].
    destruct (occurs (lit "Question:") whole) eqn:O; [reflexivity|].
    pose proof (occurs_part _ _ _ Hpart O) as Hc.
    unfold question_re in Q.
    rewrite (exec_field_absent _ _ _ "Q"%char (lit "uestion:") eq_refl Hc) in Q.
    discriminate.
Qed.

Lemma parse_sections_shape (whole : str) (l : list (option str)) :
  cut_at_headers whole l ->
  Forall (fun q => section_type (type q) /\
                   occurs (lit "Question:") whole = true)
         (parse_sections (tl l)).
Proof.
  induction 1 as [piece Hp|piece h rest Hp Hh Hrest IH]; [constructor|].
  cbn [tl]. inversion Hrest as [p Hpart|p h' rest' Hpart Hh' Hrest']; subst;
    cbn [parse_sections tl] in *.
  - pose proof (parse_section_shape whole h p Hh Hpart) as Hq.
    destruct (parse_section (Some h) p); cbn [app]; [|exact IH].
    now constructor.
  - pose proof (parse_section_shape whole h p Hh Hpart) as Hq.
    destruct (parse_section (Some h) p); cbn [app]; [|exact IH].
    now constructor.
Qed.

Lemma questions_shape (score : float) (summary : str) :
  Forall (fun q => section_type (type q) /\
                   occurs (lit "Question:") summary = true)
         (questions (parseInterviewSummary score summary)).
Proof.
  unfold parseInterviewSummary. cbn [questions]. rewrite split_header.
  apply parse_sections_shape.
  apply (split_from_cut summary (length summary) summary [] 0 []);
    [reflexivity | now left].
Qed.

(** Whatever the summary, the type of every section the parser reports
    is a string of capital letters, white space and [&] that is not
    empty and does not start with white space: a header written in lower
    case, or without a title, never makes a section. *)
Theorem reported_types_are_capitals (score : float) (summary : str) :
  Forall (fun q => section_type (type q))
         (questions (parseInterviewSummary score summary)).
Proof.
  eapply List.Forall_impl; [|apply questions_shape].
  now intros q [H _].
Qed.

(** A summary in which the text "Question:" does not occur has no
    section for the parser, whatever headers, responses, scores and
    feedback it holds: a section is reported only when the question
    pattern matches in its piece of the summary. *)
Theorem no_question_label_no_section (score : float) (summary : str) :
  occurs (lit "Question:") summary = false ->
  questions (parseInterviewSummary score summary) = [].
Proof.
  intros H. pose proof (questions_shape score summary) as Hall.
  destruct (questions (parseInterviewSummary score summary)) as [|q qs];
    [reflexivity|].
  apply Forall_inv in Hall as [_ Hq]. congruence.
Qed.

Lemma no_question_label_no_section_witness :
  questions (parseInterviewSummary 8
               (lit "1. THEORY: Your Response: INDEX and MATCH
Score: 8/10
Feedback: Good.")) = [].
Proof. apply no_question_label_no_section. reflexivity. Defined.

End SummaryShapeFacts.
